(** * SoundHub: identity store, like store and track moderation

    A shallow embedding of the server logic of [server.js]: the JSON-backed
    collections (users, likes, tracks, playlists), the per-client session bag,
    and the request handlers that read and rewrite them.

    Conventions.
    - A JavaScript object that is used as a bag of properties (a track read
      from [tracks.json], [USER_LIKES], [session.oauthStates]) is a [gmap]
      keyed by property name; reading a missing property gives [JUndef].
    - An array that is searched with [find] and updated in place is a list,
      searched with [list_find] and updated with [<[i:=x]>].
    - [new Date().toISOString()] and [crypto.randomBytes(..)] are inputs of the
      functions that call them ([now], [rnd]).
    - An optional string field ([email], [avatar], ...) is an [option string];
      [None] stands for [undefined] and [null], which the code never tells
      apart on these fields. A string is a sequence of characters, one per
      code unit.
    - A route handler is a function from its request parameters, the store
      and the session to the response, the store and the session it leaves.
      Rendering and the configuration check of the OAuth routes are left
      out; what the upload middleware stored is an input of the upload
      route. *)

From Stdlib Require Import ZArith Lia Ascii.
From Stdlib Require Strings.Byte.
From stdpp Require Import base option strings list gmap fin_maps pretty.

Open Scope string_scope.

(* stdpp's solvers clear hypotheses that are already gone *)
#[local] Set Warnings "-clear-no-such-hyp".

(** ** JavaScript values and the built-ins the server relies on *)

(** Scalar JSON values as they occur in the properties of a track. Numbers
    are the integer counters and ids of the data files. *)
Inductive JsVal :=
| JUndef
| JNull
| JBool (b : bool)
| JNum (n : Z)
| JStr (s : string).

#[global] Instance JsVal_eq_dec : EqDecision JsVal.
Proof. solve_decision. Defined.

(** [!!v] *)
Definition truthy (v : JsVal) : bool :=
  match v with
  | JUndef | JNull => false
  | JBool b => b
  | JNum n => negb (n =? 0)%Z
  | JStr s => negb (String.eqb s "")
  end.

(** [a || b] on values *)
Definition jor (a b : JsVal) : JsVal := if truthy a then a else b.

(** [!!s] for an optional string *)
Definition struthy (o : option string) : bool :=
  match o with
  | Some s => negb (String.eqb s "")
  | None => false
  end.

(** [a || b] where both are optional strings *)
Definition sor (a b : option string) : option string :=
  if struthy a then a else b.

(** [a || 'literal'] *)
Definition sor_lit (a : option string) (d : string) : string :=
  match a with
  | Some s => if String.eqb s "" then d else s
  | None => d
  end.

(** The parts of the language runtime whose results the server consumes:
    number formatting and parsing, and the two [String.prototype] methods of
    [normalizeEmail]. *)
Class JsBuiltins := {
  (** [String(n)] for a number *)
  NumberToString : Z → string;
  (** [Number.isFinite(Number(s))] for a string *)
  StringIsFiniteNumber : string → bool;
  (** [s.trim()] *)
  trim : string → string;
  (** [s.toLowerCase()] *)
  toLowerCase : string → string;
  (** normalizing an e-mail twice is normalizing it once *)
  normalize_idemp s :
    toLowerCase (trim (toLowerCase (trim s))) = toLowerCase (trim s);
}.

(** ** Data model *)

(** A track is the object parsed from [tracks.json]. *)
Abbreviation Track := (gmap string JsVal).

(** [o.k] *)
Definition get (k : string) (o : gmap string JsVal) : JsVal :=
  default JUndef (o !! k).

(** One entry of [user.oauthLinks]. *)
Record OauthLink := mkLink {
  l_providerId : string;
  l_email : option string;
  l_avatar : option string;
  l_linkedAt : option string;
  l_lastLoginAt : option string;
}.

Record User := mkUser {
  u_id : string;
  u_provider : string;
  u_providerId : option string;
  u_email : option string;
  u_displayName : option string;
  u_avatar : option string;
  u_role : string;
  u_artistId : option string;
  u_passwordHash : option string;
  u_oauthLinks : option (gmap string OauthLink);
  u_createdAt : option string;
}.

Record Playlist := mkPlaylist {
  p_id : string;
  (** [None]: the property is missing or not an array *)
  p_trackIds : option (list string);
  (** every other property, carried along by [{...p}] *)
  p_rest : gmap string JsVal;
}.

(** The in-memory collections [USERS], [USER_LIKES] (each saved wholesale
    after a change) and the contents of [tracks.json] and [playlists.json]. *)
Record Store := mkStore {
  USERS : list User;
  USER_LIKES : gmap string (list string);
  TRACKS : list Track;
  PLAYLISTS : list Playlist;
}.

(** [req.session]. The session middleware is installed before every route,
    so a handler always finds the bag; its four entries appear lazily. *)
Record Session := mkSession {
  userId : option string;
  guestLikes : option (list string);
  oauthStates : option (gmap string string);
  oauthNext : option (gmap string string);
}.

Inductive RegisterError :=
| BadEmail
| ShortPassword
| PasswordMismatch
| DuplicateEmail.

Inductive Response :=
| Redirect (url : string)                  (* res.redirect(url) *)
| RedirectLogin                            (* res.redirect(`/login?next=..`) *)
| RedirectRegister (e : RegisterError)     (* res.redirect(`/register?error=..`) *)
| Status (code : nat)                      (* res.status(code).send(..) *)
| JsonError (code : nat)                   (* res.status(code).json({ok:false,..}) *)
| JsonLike (liked : bool) (likes : list string) (guest : bool).

(** [o === undefined/null/string] seen as a value *)
Definition js_of_opt (o : option string) : JsVal :=
  match o with
  | Some s => JStr s
  | None => JUndef
  end.

(** ** Sets of strings, as [Set] keeps them: in insertion order *)

Definition Set_add (x : string) (s : list string) : list string :=
  if decide (x ∈ s) then s else s ++ [x].

Definition Set_delete (x : string) (s : list string) : list string :=
  filter (λ y, y ≠ x) s.

Definition Set_has (x : string) (s : list string) : bool :=
  bool_decide (x ∈ s).

(** [new Set(l)]; [Array.from] of the result is the list itself. *)
Definition Set_from (l : list string) : list string :=
  foldl (λ s x, Set_add x s) [] l.

Section Server.
Context `{JsBuiltins}.

(** [String(v)] *)
Definition js_String (v : JsVal) : string :=
  match v with
  | JUndef => "undefined"
  | JNull => "null"
  | JBool true => "true"
  | JBool false => "false"
  | JNum n => NumberToString n
  | JStr s => s
  end.

(** [String(u.providerId)] for a stored, possibly missing, provider id *)
Definition String_opt (o : option string) : string :=
  match o with
  | Some s => s
  | None => "undefined"
  end.

(** [Number.isFinite(Number(v))] *)
Definition isFiniteNumber (v : JsVal) : bool :=
  match v with
  | JUndef => false
  | JNull | JBool _ | JNum _ => true
  | JStr s => StringIsFiniteNumber s
  end.

(** *** Tracks *)

Definition default_field (k : string) (d : JsVal) (n : Track) : Track :=
  if truthy (get k n) then n else <[k := d]> n.

Definition default_count (k : string) (n : Track) : Track :=
  if isFiniteNumber (get k n) then n else <[k := JNum 0]> n.

(** [if (!n.status) n.status = n.published === false ? 'pending' : 'published'] *)
Definition default_status (n : Track) : Track :=
  if truthy (get "status" n) then n
  else if decide (get "published" n = JBool false)
       then <["status" := JStr "pending"]> n
       else <["status" := JStr "published"]> n.

Definition normalizeTrack (t : Track) : Track :=
  let n := t in
  let n := default_status n in
  let n := default_field "cover" (JStr "/assets/covers/default.png") n in
  let n := default_field "audio" (JStr "/audio/sample.wav") n in
  let n := default_field "duration" (JStr "0:00") n in
  let n := default_count "plays" n in
  let n := default_count "likes" n in
  n.

Definition isTrackVisibleToUser (track : Track) (user : option User) : bool :=
  let status := jor (get "status" track) (JStr "published") in
  if decide (status = JStr "published") then true
  else match user with
  | None => false
  | Some u =>
    if String.eqb (u_role u) "admin" then true
    else if String.eqb (u_role u) "artist" && struthy (u_artistId u)
            && bool_decide (get "artistId" track = js_of_opt (u_artistId u))
    then true
    else false
  end.

Definition canModerateTrack (user : option User) (track : Track) : bool :=
  match user with
  | None => false
  | Some u =>
    if String.eqb (u_role u) "admin" then true
    else if String.eqb (u_role u) "artist" && struthy (u_artistId u)
            && bool_decide (get "artistId" track = js_of_opt (u_artistId u))
    then true
    else false
  end.

(** *** Redirect targets *)

(** [s.startsWith(p)] *)
Fixpoint startsWith (s p : string) : bool :=
  match p with
  | EmptyString => true
  | String a p' =>
    match s with
    | EmptyString => false
    | String b s' => Ascii.eqb a b && startsWith s' p'
    end
  end.

Definition sanitizeNextUrl (nextUrl : option string) : string :=
  let n := sor_lit nextUrl "/" in
  if negb (startsWith n "/") || startsWith n "//" then "/" else n.

(** *** Identity store *)

Definition findUserById (id : string) (users : list User) : option User :=
  snd <$> list_find (λ u, u_id u = id) users.

Definition normalizeEmail (email : option string) : string :=
  toLowerCase (trim (sor_lit email "")).

Definition findUserByEmail (email : option string) (users : list User)
  : option (nat * User) :=
  let e := normalizeEmail email in
  list_find (λ u, u_provider u = "local" ∧ normalizeEmail (u_email u) = e) users.

Definition findUserByEmailAnyProvider (email : option string) (users : list User)
  : option (nat * User) :=
  let e := normalizeEmail email in
  if String.eqb e "" then None
  else list_find (λ u, normalizeEmail (u_email u) = e) users.

(** [u.oauthLinks && u.oauthLinks[provider]] *)
Definition link_of (provider : string) (u : User) : option OauthLink :=
  u_oauthLinks u ≫= (.!! provider).

(** The predicate of the first [USERS.find] in [upsertOauthUser]. *)
Definition direct_match (provider pid : string) (u : User) : bool :=
  (String.eqb (u_provider u) provider
   && String.eqb (String_opt (u_providerId u)) pid)
  || match link_of provider u with
     | Some l => String.eqb (l_providerId l) pid
     | None => false
     end.

Definition set_USERS (us : list User) (w : Store) : Store :=
  mkStore us (USER_LIKES w) (TRACKS w) (PLAYLISTS w).

Definition set_USER_LIKES (m : gmap string (list string)) (w : Store) : Store :=
  mkStore (USERS w) m (TRACKS w) (PLAYLISTS w).

Definition set_TRACKS (ts : list Track) (w : Store) : Store :=
  mkStore (USERS w) (USER_LIKES w) ts (PLAYLISTS w).

Definition set_PLAYLISTS (ps : list Playlist) (w : Store) : Store :=
  mkStore (USERS w) (USER_LIKES w) (TRACKS w) ps.

(** [USER_LIKES[id] = USER_LIKES[id] || []] *)
Definition ensure_likes (id : string) (w : Store) : Store :=
  match USER_LIKES w !! id with
  | Some _ => w
  | None => set_USER_LIKES (<[id := []]> (USER_LIKES w)) w
  end.

(** Path 1 of [upsertOauthUser]: the record found by provider identity. *)
Definition refresh_existing (provider pid : string)
    (email displayName avatar : option string) (now : string)
    (existing : User) : User :=
  let links := default ∅ (u_oauthLinks existing) in
  let l0 := default (mkLink pid None None None None) (links !! provider) in
  let l1 := mkLink pid
              (if struthy email then email else l_email l0)
              (if struthy avatar then avatar else l_avatar l0)
              (sor (l_linkedAt l0) (Some now))
              (Some now) in
  mkUser (u_id existing) (u_provider existing) (u_providerId existing)
         (sor email (u_email existing))
         (sor displayName (u_displayName existing))
         (sor avatar (u_avatar existing))
         (u_role existing) (u_artistId existing) (u_passwordHash existing)
         (Some (<[provider := l1]> links))
         (u_createdAt existing).

(** Path 2: the record found by e-mail gets a link to the provider. *)
Definition link_by_email (provider pid : string)
    (email displayName avatar : option string) (now : string)
    (byEmail : User) : User :=
  let links := default ∅ (u_oauthLinks byEmail) in
  let l := mkLink pid
             (sor email (sor (u_email byEmail) None))
             (sor avatar (sor (u_avatar byEmail) None))
             (Some now) (Some now) in
  mkUser (u_id byEmail) (u_provider byEmail) (u_providerId byEmail)
         (sor (u_email byEmail) (sor email None))
         (sor (u_displayName byEmail) (sor displayName (u_displayName byEmail)))
         (sor (u_avatar byEmail) (sor avatar (u_avatar byEmail)))
         (u_role byEmail) (u_artistId byEmail) (u_passwordHash byEmail)
         (Some (<[provider := l]> links))
         (u_createdAt byEmail).

(** Path 3: a new record. *)
Definition new_oauth_user (provider pid : string)
    (email displayName avatar : option string) (now rnd : string) : User :=
  mkUser ("u_" ++ rnd) provider (Some pid)
         (sor email None)
         (Some (sor_lit displayName "User"))
         (sor avatar None)
         "user" None None
         (Some {[ provider := mkLink pid (sor email None) (sor avatar None)
                                     (Some now) (Some now) ]})
         (Some now).

Definition upsertOauthUser (provider : string) (providerId : JsVal)
    (email displayName avatar : option string) (now rnd : string)
    (w : Store) : User * Store :=
  let pid := js_String providerId in
  match list_find (λ u, direct_match provider pid u) (USERS w) with
  | Some (i, existing) =>
    let existing' :=
      refresh_existing provider pid email displayName avatar now existing in
    (existing', set_USERS (<[i := existing']> (USERS w)) w)
  | None =>
    let normEmail := normalizeEmail email in
    match (if String.eqb normEmail "" then None
           else findUserByEmailAnyProvider (Some normEmail) (USERS w)) with
    | Some (j, byEmail) =>
      let byEmail' :=
        link_by_email provider pid email displayName avatar now byEmail in
      (byEmail',
       ensure_likes (u_id byEmail')
         (set_USERS (<[j := byEmail']> (USERS w)) w))
    | None =>
      let user := new_oauth_user provider pid email displayName avatar now rnd in
      (user, ensure_likes (u_id user) (set_USERS (USERS w ++ [user]) w))
    end
  end.

(** *** Like store *)

Definition set_userId (id : option string) (s : Session) : Session :=
  mkSession id (guestLikes s) (oauthStates s) (oauthNext s).

Definition set_guestLikes (l : list string) (s : Session) : Session :=
  mkSession (userId s) (Some l) (oauthStates s) (oauthNext s).

Definition set_oauthStates (m : gmap string string) (s : Session) : Session :=
  mkSession (userId s) (guestLikes s) (Some m) (oauthNext s).

Definition set_oauthNext (m : gmap string string) (s : Session) : Session :=
  mkSession (userId s) (guestLikes s) (oauthStates s) (Some m).

Definition getCurrentUser (w : Store) (s : Session) : option User :=
  match userId s with
  | Some id => if String.eqb id "" then None else findUserById id (USERS w)
  | None => None
  end.

(** Returns the guest array and the session, in which the array now exists. *)
Definition getGuestLikes (s : Session) : list string * Session :=
  match guestLikes s with
  | Some l => (l, s)
  | None => ([], set_guestLikes [] s)
  end.

Definition getUserLikes (userId : string) (w : Store) : list string :=
  default [] (USER_LIKES w !! userId).

Definition setUserLikes (userId : string) (likes : list string) (w : Store)
  : Store :=
  set_USER_LIKES (<[userId := likes]> (USER_LIKES w)) w.

Definition getEffectiveLikes (w : Store) (s : Session) : list string * Session :=
  match getCurrentUser w s with
  | Some user => (getUserLikes (u_id user) w, s)
  | None => getGuestLikes s
  end.

Definition mergeGuestLikesIntoUser (userId : string) (w : Store) (s : Session)
  : Store * Session :=
  let '(guest, s) := getGuestLikes s in
  match guest with
  | [] => (w, s)
  | _ :: _ =>
    let current := Set_from (getUserLikes userId w) in
    let current := foldl (λ c t, Set_add t c) current guest in
    (setUserLikes userId current w, set_guestLikes [] s)
  end.

Definition requireRole (role : string) (w : Store) (s : Session)
  : option Response :=
  match getCurrentUser w s with
  | None => Some RedirectLogin
  | Some user =>
    if String.eqb (u_role user) role then None else Some (Status 403)
  end.

(** *** OAuth helpers *)

Definition setOauthState (provider state : string) (s : Session) : Session :=
  set_oauthStates (<[provider := state]> (default ∅ (oauthStates s))) s.

Definition checkOauthState (provider : string) (state : option string)
    (s : Session) : bool :=
  match oauthStates s ≫= (.!! provider) with
  | Some expected =>
    negb (String.eqb expected "") && struthy state
    && bool_decide (Some expected = state)
  | None => false
  end.

Definition setOauthNext (provider : string) (nextUrl : option string)
    (s : Session) : Session :=
  set_oauthNext (<[provider := sanitizeNextUrl nextUrl]>
                   (default ∅ (oauthNext s))) s.

Definition consumeOauthNext (provider : string) (s : Session)
  : string * Session :=
  let n := oauthNext s ≫= (.!! provider) in
  let s' := match oauthNext s with
            | Some m => set_oauthNext (delete provider m) s
            | None => s
            end in
  (sanitizeNextUrl (Some (sor_lit n "/")), s').

(** *** Request handlers *)

(** [s.includes(c)] for a one-character needle *)
Fixpoint includes_char (c : Ascii.ascii) (s : string) : bool :=
  match s with
  | EmptyString => false
  | String a r => if Ascii.eqb a c then true else includes_char c r
  end.

(** [s.split(c)[0]] *)
Fixpoint split_head (c : Ascii.ascii) (s : string) : string :=
  match s with
  | EmptyString => EmptyString
  | String a r => if Ascii.eqb a c then EmptyString else String a (split_head c r)
  end.

Definition at_sign : Ascii.ascii := Ascii.ascii_of_nat 64.

(** The record built by [POST /register]. *)
Definition new_local_user (email displayName hash now rnd : string) : User :=
  mkUser ("u_" ++ rnd) "local" None
         (Some email)
         (Some (sor_lit (Some displayName)
                  (sor_lit (Some (split_head at_sign email)) "User")))
         None "user" None (Some hash) None (Some now).

(** [POST /register]. [hash] is the result of [hashPassword(password)]. *)
Definition post_register (b_next b_email b_displayName b_password b_password2
    : option string) (hash now rnd : string) (w : Store) (s : Session)
  : Response * Store * Session :=
  let nextUrl := sanitizeNextUrl (Some (sor_lit b_next "/")) in
  let email := normalizeEmail (Some (sor_lit b_email "")) in
  let displayName := trim (sor_lit b_displayName "") in
  let password := sor_lit b_password "" in
  let password2 := sor_lit b_password2 "" in
  if String.eqb email "" || negb (includes_char at_sign email)
     || Nat.ltb (String.length email) 5
  then (RedirectRegister BadEmail, w, s)
  else if String.eqb password "" || Nat.ltb (String.length password) 6
  then (RedirectRegister ShortPassword, w, s)
  else if negb (String.eqb password password2)
  then (RedirectRegister PasswordMismatch, w, s)
  else match findUserByEmailAnyProvider (Some email) (USERS w) with
  | Some _ => (RedirectRegister DuplicateEmail, w, s)
  | None =>
    let user := new_local_user email displayName hash now rnd in
    let id := u_id user in
    let w := ensure_likes id (set_USERS (USERS w ++ [user]) w) in
    let s := set_userId (Some id) s in
    let '(w, s) := mergeGuestLikesIntoUser id w s in
    (Redirect nextUrl, w, s)
  end.

(** [GET /auth/<provider>]: records a fresh [state] and the sanitized
    [next] before redirecting to the provider. *)
Definition get_auth (provider state : string) (q_next : option string)
    (s : Session) : Session :=
  setOauthNext provider (Some (sor_lit q_next "/"))
    (setOauthState provider state s).

(** What the two server-to-server calls of a callback yield: a failure of
    either call, an exception, or the identity the adapter passes on to
    [upsertOauthUser]. *)
Inductive Exchange :=
| TokenError
| ProfileError
| Threw
| Profile (providerId : JsVal) (email displayName avatar : option string).

(** [GET /auth/<provider>/callback], the same for the three providers. *)
Definition get_auth_callback (provider : string) (q_state q_code : option string)
    (x : Exchange) (now rnd : string) (w : Store) (s : Session)
  : Response * Store * Session :=
  if negb (checkOauthState provider q_state s) then (Status 400, w, s)
  else if negb (struthy q_code) then (Status 400, w, s)
  else match x with
  | TokenError | ProfileError | Threw => (Status 500, w, s)
  | Profile providerId email displayName avatar =>
    let '(user, w) :=
      upsertOauthUser provider providerId email displayName avatar now rnd w in
    let s := set_userId (Some (u_id user)) s in
    let '(w, s) := mergeGuestLikesIntoUser (u_id user) w s in
    let '(n, s) := consumeOauthNext provider s in
    (Redirect n, w, s)
  end.

(** [x => x.id === id] *)
Definition has_id (id : string) (t : Track) : Prop := get "id" t = JStr id.

#[global] Instance has_id_dec id t : Decision (has_id id t).
Proof. unfold has_id. apply _. Defined.

(** [POST /api/like/:trackId] *)
Definition post_api_like (trackId : string) (w : Store) (s : Session)
  : Response * Store * Session :=
  let user := getCurrentUser w s in
  let allTracks := normalizeTrack <$> TRACKS w in
  match list_find (has_id trackId) allTracks with
  | None => (JsonError 404, w, s)
  | Some (_, track) =>
    if negb (isTrackVisibleToUser track user) then (JsonError 403, w, s)
    else match user with
    | Some user =>
      let current := Set_from (getUserLikes (u_id user) w) in
      let '(current, liked) :=
        if Set_has trackId current then (Set_delete trackId current, false)
        else (Set_add trackId current, true) in
      let w := setUserLikes (u_id user) current w in
      (JsonLike liked (getUserLikes (u_id user) w) false, w, s)
    | None =>
      let '(g, s) := getGuestLikes s in
      let guest := Set_from g in
      let '(guest, liked) :=
        if Set_has trackId guest then (Set_delete trackId guest, false)
        else (Set_add trackId guest, true) in
      let s := set_guestLikes guest s in
      (JsonLike liked guest true, w, s)
    end
  end.

(** The body shared by approve and reject: [t.status = ..; t.<stamp> = now] *)
Definition moderate (status stamp : string) (id now : string) (w : Store)
    (s : Session) : Response * Store :=
  match requireRole "admin" w s with
  | Some r => (r, w)
  | None =>
    let tracks := normalizeTrack <$> TRACKS w in
    match list_find (has_id id) tracks with
    | None => (Status 404, w)
    | Some (i, t) =>
      let t := <[stamp := JStr now]> (<["status" := JStr status]> t) in
      (Redirect "/admin", set_TRACKS (<[i := t]> tracks) w)
    end
  end.

(** [POST /admin/tracks/:id/approve] *)
Definition post_admin_tracks_approve := moderate "published" "publishedAt".

(** [POST /admin/tracks/:id/reject] *)
Definition post_admin_tracks_reject := moderate "rejected" "rejectedAt".

(** [POST /admin/tracks/:id/delete] *)
Definition post_admin_tracks_delete (id : string) (w : Store) (s : Session)
  : Response * Store :=
  match requireRole "admin" w s with
  | Some r => (r, w)
  | None =>
    let tracks := normalizeTrack <$> TRACKS w in
    let next := filter (λ x, ¬ has_id id x) tracks in
    let w := set_TRACKS next w in
    let updated :=
      (λ p, mkPlaylist (p_id p)
              (Some (match p_trackIds p with
                     | Some l => filter (λ tid, tid ≠ id) l
                     | None => []
                     end))
              (p_rest p)) <$> PLAYLISTS w in
    (Redirect "/admin", set_PLAYLISTS updated w)
  end.

End Server.

(** ** A reference runtime

    The built-ins on strings of ASCII characters and decimal integers; the
    examples at the end of the file run on it. *)

Definition is_space (c : Ascii.ascii) : bool :=
  let n := Ascii.nat_of_ascii c in
  (Nat.leb 9 n && Nat.leb n 13) || Nat.eqb n 32.

Definition lower_char (c : Ascii.ascii) : Ascii.ascii :=
  let n := Ascii.nat_of_ascii c in
  if Nat.leb 65 n && Nat.leb n 90 then Ascii.ascii_of_nat (n + 32) else c.

Definition is_digit (c : Ascii.ascii) : bool :=
  let n := Ascii.nat_of_ascii c in
  Nat.leb 48 n && Nat.leb n 57.

Definition is_empty (s : string) : bool :=
  match s with
  | EmptyString => true
  | String _ _ => false
  end.

Fixpoint trimStart (s : string) : string :=
  match s with
  | EmptyString => EmptyString
  | String c r => if is_space c then trimStart r else s
  end.

Fixpoint trimEnd (s : string) : string :=
  match s with
  | EmptyString => EmptyString
  | String c r =>
    let r' := trimEnd r in
    if is_space c && is_empty r' then EmptyString else String c r'
  end.

Definition ascii_trim (s : string) : string := trimEnd (trimStart s).

Fixpoint ascii_lower (s : string) : string :=
  match s with
  | EmptyString => EmptyString
  | String c r => String (lower_char c) (ascii_lower r)
  end.

Fixpoint all_digits (s : string) : bool :=
  match s with
  | EmptyString => true
  | String c r => is_digit c && all_digits r
  end.

Lemma is_space_lower c : is_space (lower_char c) = is_space c.
Proof. by destruct c as [[] [] [] [] [] [] [] []]. Qed.

Lemma lower_char_idemp c : lower_char (lower_char c) = lower_char c.
Proof. by destruct c as [[] [] [] [] [] [] [] []]. Qed.

Lemma ascii_lower_idemp s : ascii_lower (ascii_lower s) = ascii_lower s.
Proof. induction s as [|c r IH]; simpl; [done|]. by rewrite lower_char_idemp, IH. Qed.

Lemma is_empty_lower s : is_empty (ascii_lower s) = is_empty s.
Proof. by destruct s. Qed.

Lemma trimStart_lower s : trimStart (ascii_lower s) = ascii_lower (trimStart s).
Proof.
  induction s as [|c r IH]; simpl; [done|].
  rewrite is_space_lower. by destruct (is_space c).
Qed.

Lemma trimEnd_lower s : trimEnd (ascii_lower s) = ascii_lower (trimEnd s).
Proof.
  induction s as [|c r IH]; simpl; [done|].
  rewrite is_space_lower, IH, is_empty_lower.
  by destruct (is_space c && is_empty (trimEnd r)).
Qed.

Lemma trimEnd_idemp s : trimEnd (trimEnd s) = trimEnd s.
Proof.
  induction s as [|c r IH]; simpl; [done|].
  destruct (is_space c && is_empty (trimEnd r)) eqn:E; simpl; [done|].
  by rewrite IH, E.
Qed.

Lemma trimStart_fixed s :
  trimStart s = s → trimStart (trimEnd s) = trimEnd s.
Proof.
  destruct s as [|c r]; simpl; [done|].
  destruct (is_space c) eqn:E; simpl; [|by rewrite E].
  intros Hr. exfalso.
  assert (Hlen : ∀ t, (String.length (trimStart t) ≤ String.length t)%nat).
  { induction t as [|d t IH]; simpl; [lia|]. destruct (is_space d); simpl; lia. }
  specialize (Hlen r). rewrite Hr in Hlen. simpl in Hlen. lia.
Qed.

Lemma trimStart_idemp s : trimStart (trimStart s) = trimStart s.
Proof.
  induction s as [|c r IH]; simpl; [done|].
  destruct (is_space c) eqn:E; [done|]. simpl. by rewrite E.
Qed.

Lemma ascii_trim_idemp s : ascii_trim (ascii_trim s) = ascii_trim s.
Proof.
  unfold ascii_trim.
  rewrite (trimStart_fixed (trimStart s)) by apply trimStart_idemp.
  apply trimEnd_idemp.
Qed.

Lemma ascii_normalize_idemp s :
  ascii_lower (ascii_trim (ascii_lower (ascii_trim s)))
  = ascii_lower (ascii_trim s).
Proof.
  unfold ascii_trim at 1.
  rewrite trimStart_lower, trimEnd_lower, ascii_lower_idemp.
  fold (ascii_trim (ascii_trim s)). by rewrite ascii_trim_idemp.
Qed.

#[global] Instance ascii_runtime : JsBuiltins := {|
  NumberToString := pretty;
  StringIsFiniteNumber s := all_digits (ascii_trim s);
  trim := ascii_trim;
  toLowerCase := ascii_lower;
  normalize_idemp := ascii_normalize_idemp;
|}.

(** * Properties *)

#[global] Arguments normalizeTrack : simpl never.
#[global] Arguments isTrackVisibleToUser : simpl never.
#[global] Arguments getCurrentUser : simpl never.
#[global] Arguments sanitizeNextUrl : simpl never.
#[global] Arguments normalizeEmail : simpl never.
#[global] Arguments Set_from : simpl never.
#[global] Arguments Set_add : simpl never.
#[global] Arguments Set_delete : simpl never.
#[global] Arguments Set_has : simpl never.

(** A redirect target that stays on this site: a path that starts with one
    slash and not with two. *)
Definition same_origin_path (s : string) : Prop :=
  startsWith s "/" = true ∧ startsWith s "//" = false.

Lemma eqb_true (a b : string) : String.eqb a b = true ↔ a = b.
Proof. apply String.eqb_eq. Qed.

Lemma eqb_false (a b : string) : String.eqb a b = false ↔ a ≠ b.
Proof. apply String.eqb_neq. Qed.

Lemma prefix_slash (s : string) :
  startsWith s "/" = true → ∃ r, s = String "/"%char r.
Proof. destruct s as [|[[] [] [] [] [] [] [] []] r]; try done. eauto. Qed.

Lemma sanitizeNextUrl_cases (nextUrl : option string) :
  let n := sor_lit nextUrl "/" in
  (same_origin_path n ∧ sanitizeNextUrl nextUrl = n)
  ∨ (¬ same_origin_path n ∧ sanitizeNextUrl nextUrl = "/").
Proof.
  unfold sanitizeNextUrl, same_origin_path. simpl.
  destruct (startsWith (sor_lit nextUrl "/") "/") eqn:E1;
    destruct (startsWith (sor_lit nextUrl "/") "//") eqn:E2; simpl;
    [right|left|right|right]; naive_solver.
Qed.

Lemma sanitizeNextUrl_ok (nextUrl : option string) :
  same_origin_path (sanitizeNextUrl nextUrl).
Proof.
  destruct (sanitizeNextUrl_cases nextUrl) as [[? ->]|[_ ->]]; [done|].
  by split.
Qed.

(** C6. A published track is visible to every requester. A pending or
    rejected track is visible exactly to an admin and to an artist whose
    [artistId] is set and is the track's; it is hidden from an anonymous
    requester and from a requester of role [user]. *)
Theorem isTrackVisibleToUser_spec (track : Track) (user : option User) :
  (get "status" track = JStr "published" →
     isTrackVisibleToUser track user = true)
  ∧ (get "status" track = JStr "pending"
     ∨ get "status" track = JStr "rejected" →
       (isTrackVisibleToUser track user = true ↔
          ∃ u, user = Some u ∧
            (u_role u = "admin"
             ∨ (u_role u = "artist" ∧ struthy (u_artistId u) = true
                ∧ get "artistId" track = js_of_opt (u_artistId u))))
       ∧ (user = None → isTrackVisibleToUser track user = false)
       ∧ (∀ u, user = Some u → u_role u = "user" →
            isTrackVisibleToUser track user = false)).
Proof.
  split.
  - intros Hs. unfold isTrackVisibleToUser, jor. by rewrite Hs.
  - intros Hs.
    assert (Hv : isTrackVisibleToUser track user =
      match user with
      | None => false
      | Some u =>
        String.eqb (u_role u) "admin"
        || (String.eqb (u_role u) "artist" && struthy (u_artistId u)
            && bool_decide (get "artistId" track = js_of_opt (u_artistId u)))
      end).
    { unfold isTrackVisibleToUser, jor.
      destruct Hs as [-> | ->]; simpl; destruct user as [u|]; [|done| |done];
        by destruct (String.eqb (u_role u) "admin"),
             (String.eqb (u_role u) "artist" && struthy (u_artistId u)
              && bool_decide (get "artistId" track = js_of_opt (u_artistId u))). }
    rewrite Hv. clear Hv Hs. split_and!.
    + destruct user as [u|]; [|naive_solver].
      rewrite orb_true_iff, !andb_true_iff, !eqb_true, bool_decide_eq_true.
      naive_solver.
    + by intros ->.
    + intros u -> Hr. rewrite Hr. done.
Qed.

(** C8. The sanitized redirect target is always a same-origin path: it
    starts with [/] and not with [//], hence with no scheme. An input of
    that shape is returned as it is; every other input, and a missing one,
    gives [/]. The target handed out by [consumeOauthNext] is sanitized the
    same way and is [/] when none was recorded. *)
Theorem sanitizeNextUrl_same_origin (nextUrl : option string) :
  same_origin_path (sanitizeNextUrl nextUrl)
  ∧ startsWith (sanitizeNextUrl nextUrl) "http://" = false
  ∧ startsWith (sanitizeNextUrl nextUrl) "https://" = false
  ∧ startsWith (sanitizeNextUrl nextUrl) "javascript:" = false
  ∧ (∀ n, nextUrl = Some n → same_origin_path n → sanitizeNextUrl nextUrl = n)
  ∧ (∀ n, nextUrl = Some n → ¬ same_origin_path n → sanitizeNextUrl nextUrl = "/")
  ∧ (nextUrl = None → sanitizeNextUrl nextUrl = "/")
  ∧ (∀ provider s,
       same_origin_path (consumeOauthNext provider s).1
       ∧ (oauthNext s ≫= (.!! provider) = None →
            (consumeOauthNext provider s).1 = "/")).
Proof.
  pose proof (sanitizeNextUrl_ok nextUrl) as Hok.
  split_and!; try done.
  - destruct Hok as [[r ->]%prefix_slash _]. done.
  - destruct Hok as [[r ->]%prefix_slash _]. done.
  - destruct Hok as [[r ->]%prefix_slash _]. done.
  - intros n -> Hn.
    assert (Hl : sor_lit (Some n) "/" = n).
    { destruct Hn as [[r ->]%prefix_slash _]. done. }
    pose proof (sanitizeNextUrl_cases (Some n)) as Hc. cbv zeta in Hc.
    rewrite Hl in Hc. by destruct Hc as [[_ ->]|[Hbad _]].
  - intros n -> Hn.
    pose proof (sanitizeNextUrl_cases (Some n)) as Hc. cbv zeta in Hc.
    destruct Hc as [[Hgood Heq]|[_ ->]]; [|done].
    destruct (String.eqb_spec n "") as [->|Hne]; [done|].
    assert (Hl : sor_lit (Some n) "/" = n).
    { unfold sor_lit. by apply eqb_false in Hne as ->. }
    rewrite Hl in Hgood. done.
  - by intros ->.
  - intros provider s. unfold consumeOauthNext. simpl. split.
    + apply sanitizeNextUrl_ok.
    + by intros ->.
Qed.

(** ** Sets in insertion order *)

Lemma Set_add_elem (x y : string) (s : list string) :
  y ∈ Set_add x s ↔ y = x ∨ y ∈ s.
Proof.
  unfold Set_add. case_decide.
  - split; [auto|]. by intros [->|?].
  - rewrite elem_of_app, list_elem_of_singleton. tauto.
Qed.

Lemma Set_add_NoDup (x : string) (s : list string) :
  NoDup s → NoDup (Set_add x s).
Proof.
  unfold Set_add. case_decide; [done|]. intros Hs.
  apply NoDup_app. split_and!; [done| |apply NoDup_singleton].
  intros y Hy ->%list_elem_of_singleton. done.
Qed.

Lemma Set_add_all_elem (l s : list string) (y : string) :
  y ∈ foldl (λ c t, Set_add t c) s l ↔ y ∈ s ∨ y ∈ l.
Proof.
  revert s. induction l as [|x l IH]; intros s; simpl.
  - rewrite elem_of_nil. tauto.
  - rewrite IH, Set_add_elem, elem_of_cons. tauto.
Qed.

Lemma Set_add_all_NoDup (l s : list string) :
  NoDup s → NoDup (foldl (λ c t, Set_add t c) s l).
Proof.
  revert s. induction l as [|x l IH]; intros s Hs; simpl; [done|].
  by apply IH, Set_add_NoDup.
Qed.

Lemma Set_from_elem (l : list string) (y : string) : y ∈ Set_from l ↔ y ∈ l.
Proof. unfold Set_from. rewrite Set_add_all_elem, elem_of_nil. tauto. Qed.

Lemma Set_from_NoDup (l : list string) : NoDup (Set_from l).
Proof. apply Set_add_all_NoDup, NoDup_nil_2. Qed.

Lemma Set_delete_elem (x y : string) (s : list string) :
  y ∈ Set_delete x s ↔ y ≠ x ∧ y ∈ s.
Proof. unfold Set_delete. by rewrite list_elem_of_filter. Qed.

Lemma Set_has_true (x : string) (s : list string) : Set_has x s = true ↔ x ∈ s.
Proof. unfold Set_has. by rewrite bool_decide_eq_true. Qed.

Lemma Set_has_false (x : string) (s : list string) : Set_has x s = false ↔ x ∉ s.
Proof. unfold Set_has. by rewrite bool_decide_eq_false. Qed.

(** ** Like store *)

Lemma getUserLikes_setUserLikes (id : string) (l : list string) (w : Store) :
  getUserLikes id (setUserLikes id l w) = l.
Proof. unfold getUserLikes, setUserLikes. simpl. by rewrite lookup_insert_eq. Qed.

Lemma getUserLikes_setUserLikes_ne (id id' : string) (l : list string) (w : Store) :
  id ≠ id' → getUserLikes id' (setUserLikes id l w) = getUserLikes id' w.
Proof.
  intros. unfold getUserLikes, setUserLikes. simpl. by rewrite lookup_insert_ne.
Qed.

(** C4. Merging the guest likes into a user leaves the user with the union
    of the two like-sets and the session with an empty guest set; nobody
    else's likes change; a second merge right after changes nothing. *)
Theorem mergeGuestLikesIntoUser_union (userId : string) (w : Store) (s : Session) :
  let w1 := (mergeGuestLikesIntoUser userId w s).1 in
  let s1 := (mergeGuestLikesIntoUser userId w s).2 in
  (∀ t, t ∈ getUserLikes userId w1
        ↔ t ∈ getUserLikes userId w ∨ t ∈ (getGuestLikes s).1)
  ∧ guestLikes s1 = Some []
  ∧ (∀ other, other ≠ userId → getUserLikes other w1 = getUserLikes other w)
  ∧ mergeGuestLikesIntoUser userId w1 s1 = (w1, s1).
Proof.
  unfold mergeGuestLikesIntoUser, getGuestLikes.
  destruct s as [uid [[|g gs]|] st nx]; simpl.
  - split_and!; try done. intros t. rewrite elem_of_nil. tauto.
  - split_and!; try done.
    + intros t. rewrite getUserLikes_setUserLikes.
      rewrite (Set_add_all_elem gs), Set_add_elem, Set_from_elem, elem_of_cons.
      tauto.
    + intros other Hne. by rewrite getUserLikes_setUserLikes_ne.
  - split_and!; try done. intros t. rewrite elem_of_nil. tauto.
Qed.

(** ** Tracks *)

(** The test under which [normalizeTrack] replaces a property, *)
Definition needs_default `{JsBuiltins} (t : Track) (k : string) : bool :=
  if decide (k = "status" ∨ k = "cover" ∨ k = "audio" ∨ k = "duration")
  then negb (truthy (get k t))
  else if decide (k = "plays" ∨ k = "likes")
  then negb (isFiniteNumber (get k t))
  else false.

(** and the value it puts there. *)
Definition track_default (t : Track) (k : string) : JsVal :=
  if decide (k = "status") then
    if decide (get "published" t = JBool false) then JStr "pending"
    else JStr "published"
  else if decide (k = "cover") then JStr "/assets/covers/default.png"
  else if decide (k = "audio") then JStr "/audio/sample.wav"
  else if decide (k = "duration") then JStr "0:00"
  else JNum 0.

Section Tracks.
Context `{JsBuiltins}.

Lemma default_field_lookup (k k' : string) (d : JsVal) (n : Track) :
  default_field k d n !! k' =
    if decide (k = k') then (if truthy (get k n) then n !! k else Some d)
    else n !! k'.
Proof.
  unfold default_field. destruct (truthy (get k n)).
  - by case_decide; subst.
  - by rewrite lookup_insert.
Qed.

Lemma default_count_lookup (k k' : string) (n : Track) :
  default_count k n !! k' =
    if decide (k = k') then (if isFiniteNumber (get k n) then n !! k
                             else Some (JNum 0))
    else n !! k'.
Proof.
  unfold default_count. destruct (isFiniteNumber (get k n)).
  - by case_decide; subst.
  - by rewrite lookup_insert.
Qed.

Lemma default_status_lookup (k' : string) (n : Track) :
  default_status n !! k' =
    if decide ("status" = k') then
      if truthy (get "status" n) then n !! "status"
      else if decide (get "published" n = JBool false)
           then Some (JStr "pending") else Some (JStr "published")
    else n !! k'.
Proof.
  unfold default_status. destruct (truthy (get "status" n)).
  - by case_decide; subst.
  - case_decide; by rewrite lookup_insert.
Qed.

Lemma default_field_get_ne (k k' : string) (d : JsVal) (n : Track) :
  k ≠ k' → get k' (default_field k d n) = get k' n.
Proof. intros. unfold get. rewrite default_field_lookup. by case_decide. Qed.

Lemma default_count_get_ne (k k' : string) (n : Track) :
  k ≠ k' → get k' (default_count k n) = get k' n.
Proof. intros. unfold get. rewrite default_count_lookup. by case_decide. Qed.

Lemma default_status_get_ne (k' : string) (n : Track) :
  "status" ≠ k' → get k' (default_status n) = get k' n.
Proof. intros. unfold get. rewrite default_status_lookup. by case_decide. Qed.

Lemma default_field_lookup_ne (k k' : string) (d : JsVal) (n : Track) :
  k ≠ k' → default_field k d n !! k' = n !! k'.
Proof. intros. rewrite default_field_lookup. by case_decide. Qed.

Lemma default_count_lookup_ne (k k' : string) (n : Track) :
  k ≠ k' → default_count k n !! k' = n !! k'.
Proof. intros. rewrite default_count_lookup. by case_decide. Qed.

Lemma default_status_lookup_ne (k' : string) (n : Track) :
  "status" ≠ k' → default_status n !! k' = n !! k'.
Proof. intros. rewrite default_status_lookup. by case_decide. Qed.

(** Peels the steps of [normalizeTrack] that do not concern the key. *)
Ltac peel :=
  rewrite ?default_count_get_ne, ?default_field_get_ne, ?default_status_get_ne,
    ?default_count_lookup_ne, ?default_field_lookup_ne,
    ?default_status_lookup_ne by congruence.

(** [normalizeTrack], property by property. *)
Lemma normalizeTrack_lookup (t : Track) (k : string) :
  normalizeTrack t !! k
  = if needs_default t k then Some (track_default t k) else t !! k.
Proof.
  unfold normalizeTrack.
  destruct (decide (k = "status")) as [->|?].
  { peel. rewrite default_status_lookup, decide_True by done.
    change (needs_default t "status") with (negb (truthy (get "status" t))).
    destruct (truthy (get "status" t)); [done|].
    change (track_default t "status")
      with (if decide (get "published" t = JBool false)
            then JStr "pending" else JStr "published").
    cbn [negb]. by case_decide. }
  destruct (decide (k = "cover")) as [->|?].
  { peel. rewrite default_field_lookup, decide_True by done. peel.
    change (needs_default t "cover") with (negb (truthy (get "cover" t))).
    by destruct (truthy (get "cover" t)). }
  destruct (decide (k = "audio")) as [->|?].
  { peel. rewrite default_field_lookup, decide_True by done. peel.
    change (needs_default t "audio") with (negb (truthy (get "audio" t))).
    by destruct (truthy (get "audio" t)). }
  destruct (decide (k = "duration")) as [->|?].
  { peel. rewrite default_field_lookup, decide_True by done. peel.
    change (needs_default t "duration") with (negb (truthy (get "duration" t))).
    by destruct (truthy (get "duration" t)). }
  destruct (decide (k = "plays")) as [->|?].
  { peel. rewrite default_count_lookup, decide_True by done. peel.
    change (needs_default t "plays") with (negb (isFiniteNumber (get "plays" t))).
    by destruct (isFiniteNumber (get "plays" t)). }
  destruct (decide (k = "likes")) as [->|?].
  { rewrite default_count_lookup, decide_True by done. peel.
    change (needs_default t "likes") with (negb (isFiniteNumber (get "likes" t))).
    by destruct (isFiniteNumber (get "likes" t)). }
  peel. unfold needs_default.
  rewrite !decide_False; [done|..]; intros ?; naive_solver.
Qed.

Lemma normalizeTrack_id (t : Track) : get "id" (normalizeTrack t) = get "id" t.
Proof. unfold get. rewrite normalizeTrack_lookup. reflexivity. Qed.

Lemma normalizeTrack_artistId (t : Track) :
  get "artistId" (normalizeTrack t) = get "artistId" t.
Proof. unfold get. rewrite normalizeTrack_lookup. reflexivity. Qed.

Lemma has_id_normalizeTrack (id : string) (t : Track) :
  has_id id (normalizeTrack t) ↔ has_id id t.
Proof. unfold has_id. by rewrite normalizeTrack_id. Qed.

Lemma list_find_iff {A} (P Q : A → Prop) `{∀ x, Decision (P x)}
    `{∀ x, Decision (Q x)} (l : list A) :
  (∀ x, P x ↔ Q x) → list_find P l = list_find Q l.
Proof.
  intros HPQ. induction l as [|x l IH]; simpl; [done|].
  rewrite IH. repeat case_decide; naive_solver.
Qed.

(** Searching the normalized tracks by id finds the position of the first
    stored track with that id. *)
Lemma find_normalized (id : string) (ts : list Track) :
  list_find (has_id id) (normalizeTrack <$> ts)
  = prod_map Datatypes.id normalizeTrack <$> list_find (has_id id) ts.
Proof.
  rewrite list_find_fmap. f_equal.
  apply list_find_iff. intros t. apply has_id_normalizeTrack.
Qed.

End Tracks.


(** ** Liking a track *)

(** The like-set that applies to the requester: the persisted one of the
    logged-in user, the guest one of the session otherwise. *)
Definition applicable_likes (w : Store) (s : Session) : list string :=
  (getEffectiveLikes w s).1.

Definition is_guest (w : Store) (s : Session) : bool :=
  match getCurrentUser w s with
  | None => true
  | Some _ => false
  end.

(** [x] toggled in the set of [l]: the new set and the new membership *)
Definition toggled (x : string) (l : list string) : list string * bool :=
  if Set_has x (Set_from l) then (Set_delete x (Set_from l), false)
  else (Set_add x (Set_from l), true).

Lemma toggled_spec (x : string) (l : list string) :
  (toggled x l).2 = negb (bool_decide (x ∈ l))
  ∧ (x ∈ (toggled x l).1 ↔ x ∉ l)
  ∧ (∀ y, y ≠ x → y ∈ (toggled x l).1 ↔ y ∈ l).
Proof.
  unfold toggled. destruct (Set_has x (Set_from l)) eqn:E.
  - apply Set_has_true in E. rewrite Set_from_elem in E.
    rewrite bool_decide_eq_true_2 by done. cbn [fst snd]. split_and!.
    + done.
    + rewrite Set_delete_elem. tauto.
    + intros y Hy. rewrite Set_delete_elem, Set_from_elem. tauto.
  - apply Set_has_false in E. rewrite Set_from_elem in E.
    rewrite bool_decide_eq_false_2 by done. cbn [fst snd]. split_and!.
    + done.
    + rewrite Set_add_elem. tauto.
    + intros y Hy. rewrite Set_add_elem, Set_from_elem. tauto.
Qed.

Section Likes.
Context `{JsBuiltins}.

Lemma getCurrentUser_likes (id : string) (l : list string) (w : Store) (s : Session) :
  getCurrentUser (setUserLikes id l w) s = getCurrentUser w s.
Proof. done. Qed.

Lemma getCurrentUser_guest (g : list string) (w : Store) (s : Session) :
  getCurrentUser w (set_guestLikes g s) = getCurrentUser w s.
Proof. done. Qed.

Lemma getGuestLikes_user (w : Store) (s : Session) :
  getCurrentUser w (getGuestLikes s).2 = getCurrentUser w s.
Proof. unfold getGuestLikes. by destruct (guestLikes s). Qed.

Lemma getGuestLikes_set (g : list string) (s : Session) :
  (getGuestLikes (set_guestLikes g s)).1 = g.
Proof. done. Qed.

(** The three outcomes of [POST /api/like/:trackId] once the track is
    looked up. *)
Lemma post_api_like_missing (trackId : string) (w : Store) (s : Session) :
  list_find (has_id trackId) (TRACKS w) = None →
  post_api_like trackId w s = (JsonError 404, w, s).
Proof. intros Hf. unfold post_api_like. by rewrite find_normalized, Hf. Qed.

Lemma post_api_like_hidden (trackId : string) (w : Store) (s : Session) i t :
  list_find (has_id trackId) (TRACKS w) = Some (i, t) →
  isTrackVisibleToUser (normalizeTrack t) (getCurrentUser w s) = false →
  post_api_like trackId w s = (JsonError 403, w, s).
Proof.
  intros Hf Hv. unfold post_api_like. rewrite find_normalized, Hf.
  cbn [fmap option_fmap option_map prod_map fst snd]. by rewrite Hv.
Qed.

Lemma post_api_like_user (trackId : string) (w : Store) (s : Session) i t u :
  list_find (has_id trackId) (TRACKS w) = Some (i, t) →
  isTrackVisibleToUser (normalizeTrack t) (getCurrentUser w s) = true →
  getCurrentUser w s = Some u →
  let r := toggled trackId (getUserLikes (u_id u) w) in
  post_api_like trackId w s
  = (JsonLike r.2 r.1 false, setUserLikes (u_id u) r.1 w, s).
Proof.
  intros Hf Hv Hu. unfold post_api_like, toggled.
  rewrite find_normalized, Hf.
  cbn [fmap option_fmap option_map prod_map fst snd]. rewrite Hv, Hu. cbn [negb].
  destruct (Set_has trackId (Set_from (getUserLikes (u_id u) w)));
    cbn [fst snd]; by rewrite getUserLikes_setUserLikes.
Qed.

Lemma post_api_like_guest (trackId : string) (w : Store) (s : Session) i t :
  list_find (has_id trackId) (TRACKS w) = Some (i, t) →
  isTrackVisibleToUser (normalizeTrack t) (getCurrentUser w s) = true →
  getCurrentUser w s = None →
  let r := toggled trackId (getGuestLikes s).1 in
  post_api_like trackId w s
  = (JsonLike r.2 r.1 true, w, set_guestLikes r.1 (getGuestLikes s).2).
Proof.
  intros Hf Hv Hu. unfold post_api_like, toggled.
  rewrite find_normalized, Hf.
  cbn [fmap option_fmap option_map prod_map fst snd]. rewrite Hv, Hu. cbn [negb].
  destruct (getGuestLikes s) as [g s1]. cbn [fst snd].
  by destruct (Set_has trackId (Set_from g)).
Qed.

(** C5. Liking a track id that no stored track carries answers NotFound
    (404); liking a track the requester may not see answers Forbidden (403);
    neither touches the store or the session. Otherwise membership of the id
    in the requester's like-set is flipped, [liked] tells the new membership,
    the returned likes are the like-set after the call, and nothing else in
    the store changes. *)
Theorem post_api_like_spec (trackId : string) (w : Store) (s : Session) :
  ((∀ t, t ∈ TRACKS w → ¬ has_id trackId t) →
     post_api_like trackId w s = (JsonError 404, w, s))
  ∧ (∀ i t, list_find (has_id trackId) (TRACKS w) = Some (i, t) →
       (isTrackVisibleToUser (normalizeTrack t) (getCurrentUser w s) = false →
          post_api_like trackId w s = (JsonError 403, w, s))
       ∧ (isTrackVisibleToUser (normalizeTrack t) (getCurrentUser w s) = true →
          ∃ w' s',
            let before := applicable_likes w s in
            let after := applicable_likes w' s' in
            post_api_like trackId w s
            = (JsonLike (negb (bool_decide (trackId ∈ before))) after
                        (is_guest w s), w', s')
            ∧ (trackId ∈ after ↔ trackId ∉ before)
            ∧ (∀ t', t' ≠ trackId → t' ∈ after ↔ t' ∈ before)
            ∧ USERS w' = USERS w ∧ TRACKS w' = TRACKS w
            ∧ PLAYLISTS w' = PLAYLISTS w
            ∧ (∀ u, getCurrentUser w s = Some u →
                 s' = s ∧ ∀ other, other ≠ u_id u →
                            getUserLikes other w' = getUserLikes other w)
            ∧ (getCurrentUser w s = None → w' = w))).
Proof.
  split.
  - intros Hnone. apply post_api_like_missing.
    apply list_find_None, Forall_forall. auto.
  - intros i t Hf. split; [intros; by eapply post_api_like_hidden|].
    intros Hv. unfold applicable_likes, is_guest, getEffectiveLikes.
    destruct (getCurrentUser w s) as [u|] eqn:Hu.
    + pose proof (toggled_spec trackId (getUserLikes (u_id u) w))
        as (Hl & Hin & Hout).
      eexists (setUserLikes (u_id u) _ w), s.
      rewrite getCurrentUser_likes, Hu. cbn [fst snd].
      rewrite getUserLikes_setUserLikes.
      rewrite (post_api_like_user trackId w s i t u) by (done || by rewrite Hu).
      cbv zeta. rewrite Hl. split_and!; try done.
      intros u' [= <-]. split; [done|]. intros other Hne.
      by rewrite getUserLikes_setUserLikes_ne.
    + pose proof (toggled_spec trackId (getGuestLikes s).1)
        as (Hl & Hin & Hout).
      eexists w, (set_guestLikes _ (getGuestLikes s).2).
      rewrite getCurrentUser_guest, getGuestLikes_user, Hu.
      rewrite getGuestLikes_set.
      rewrite (post_api_like_guest trackId w s i t) by (done || by rewrite Hu).
      cbv zeta. rewrite Hl. by split_and!.
Qed.

End Likes.

(** ** Moderation *)

(** Reads the fields of a store or session that was just written. *)
Ltac fields :=
  cbn [USERS USER_LIKES TRACKS PLAYLISTS set_USERS set_USER_LIKES set_TRACKS
       set_PLAYLISTS userId guestLikes oauthStates oauthNext set_userId
       set_guestLikes set_oauthStates set_oauthNext fst snd
       fmap option_fmap option_map] in *.

Section Moderation.
Context `{JsBuiltins}.

(** A property that is absent is one that is replaced, when it is one of
    the six that [normalizeTrack] looks at. *)
Lemma needs_default_missing (t : Track) (k : string) :
  t !! k = None →
  k ∈ ["status"; "cover"; "audio"; "duration"; "plays"; "likes"] →
  needs_default t k = true.
Proof.
  intros Hk Hin. unfold needs_default, get. rewrite Hk. simpl.
  repeat case_decide; try done.
  set_solver.
Qed.

Lemma needs_default_present (t : Track) (k : string) (v : JsVal) :
  t !! k = Some v → needs_default t k = true →
  truthy v = false ∨ isFiniteNumber v = false.
Proof.
  intros Hk. unfold needs_default, get. rewrite Hk. cbn [default from_option].
  repeat case_decide; try done; intros ?%negb_true_iff; auto.
Qed.

Lemma needs_default_only (t : Track) (k : string) :
  needs_default t k = true →
  k ∈ ["status"; "cover"; "audio"; "duration"; "plays"; "likes"].
Proof.
  unfold needs_default. repeat case_decide; try done; set_solver.
Qed.

Lemma requireRole_admin (w : Store) (s : Session) :
  requireRole "admin" w s = None ↔
  ∃ u, getCurrentUser w s = Some u ∧ u_role u = "admin".
Proof.
  unfold requireRole. destruct (getCurrentUser w s) as [u|]; [|naive_solver].
  destruct (String.eqb_spec (u_role u) "admin"); naive_solver.
Qed.

Lemma moderate_denied (status stamp id now : string) (w : Store) (s : Session) r :
  requireRole "admin" w s = Some r →
  moderate status stamp id now w s = (r, w).
Proof. unfold moderate. by intros ->. Qed.

Lemma moderate_missing (status stamp id now : string) (w : Store) (s : Session) :
  requireRole "admin" w s = None →
  (∀ t, t ∈ TRACKS w → ¬ has_id id t) →
  moderate status stamp id now w s = (Status 404, w).
Proof.
  intros Hr Hnone. unfold moderate. rewrite Hr, find_normalized.
  assert (list_find (has_id id) (TRACKS w) = None) as ->; [|done].
  apply list_find_None, Forall_forall. auto.
Qed.

(** What approve and reject write: every track normalized, the first one
    with the id re-labelled and stamped. *)
Definition moderated (status stamp now : string) (i : nat) (t : Track)
    (w : Store) : Store :=
  set_TRACKS
    (<[i := <[stamp := JStr now]> (<["status" := JStr status]> (normalizeTrack t))]>
       (normalizeTrack <$> TRACKS w)) w.

Lemma moderate_found (status stamp id now : string) (w : Store) (s : Session)
    (i : nat) (t : Track) :
  requireRole "admin" w s = None →
  list_find (has_id id) (TRACKS w) = Some (i, t) →
  moderate status stamp id now w s
  = (Redirect "/admin", moderated status stamp now i t w).
Proof.
  intros Hr Hf. unfold moderate. by rewrite Hr, find_normalized, Hf.
Qed.

Lemma moderated_target (status stamp id now : string) (w : Store)
    (i : nat) (t : Track) :
  stamp ≠ "status" → stamp ≠ "id" →
  list_find (has_id id) (TRACKS w) = Some (i, t) →
  ∃ t', list_find (has_id id) (TRACKS (moderated status stamp now i t w))
        = Some (i, t')
        ∧ get "status" t' = JStr status ∧ get stamp t' = JStr now
        ∧ ∀ k, k ≠ "status" → k ≠ stamp → t' !! k = normalizeTrack t !! k.
Proof.
  intros Hs Hi (Hit & Hid & Hfirst)%list_find_Some.
  eexists. split_and!.
  - apply list_find_Some. unfold moderated. fields. split_and!.
    + apply list_lookup_insert_eq. rewrite length_fmap.
      by eapply lookup_lt_Some.
    + unfold has_id, get. rewrite !lookup_insert_ne by done.
      by apply has_id_normalizeTrack in Hid.
    + intros j y Hj Hlt. rewrite list_lookup_insert_ne in Hj by lia.
      rewrite list_lookup_fmap in Hj.
      destruct (TRACKS w !! j) as [y0|] eqn:Hy; fields; [|done].
      injection Hj as <-. rewrite has_id_normalizeTrack. by eapply Hfirst.
  - unfold get. rewrite lookup_insert_ne by done. by rewrite lookup_insert_eq.
  - unfold get. by rewrite lookup_insert_eq.
  - intros k ??. by rewrite !lookup_insert_ne.
Qed.

Lemma moderated_others (status stamp now : string) (w : Store)
    (i : nat) (t : Track) (j : nat) :
  j ≠ i →
  TRACKS (moderated status stamp now i t w) !! j
  = normalizeTrack <$> (TRACKS w !! j).
Proof.
  intros Hne. unfold moderated. fields. rewrite list_lookup_insert_ne by done.
  by rewrite list_lookup_fmap.
Qed.

(** C7. For an admin, approve relabels the first track with the id as
    [published] and stamps [publishedAt], reject relabels it [rejected] and
    stamps [rejectedAt]; nothing in either depends on the status the track
    had. When no track has the id the answer is NotFound (404) and the store
    is as it was. *)
Theorem approve_reject_overwrite (id now : string) (w : Store) (s : Session) :
  (requireRole "admin" w s = None →
   ∀ i t, list_find (has_id id) (TRACKS w) = Some (i, t) →
     (∃ w' t',
        post_admin_tracks_approve id now w s = (Redirect "/admin", w')
        ∧ list_find (has_id id) (TRACKS w') = Some (i, t')
        ∧ get "status" t' = JStr "published"
        ∧ get "publishedAt" t' = JStr now)
     ∧ (∃ w' t',
        post_admin_tracks_reject id now w s = (Redirect "/admin", w')
        ∧ list_find (has_id id) (TRACKS w') = Some (i, t')
        ∧ get "status" t' = JStr "rejected"
        ∧ get "rejectedAt" t' = JStr now))
  ∧ (requireRole "admin" w s = None →
     (∀ t, t ∈ TRACKS w → ¬ has_id id t) →
     post_admin_tracks_approve id now w s = (Status 404, w)
     ∧ post_admin_tracks_reject id now w s = (Status 404, w)).
Proof.
  split.
  - intros Hr i t Hf. unfold post_admin_tracks_approve, post_admin_tracks_reject.
    rewrite !(moderate_found _ _ _ _ _ _ i t) by done. split.
    + destruct (moderated_target "published" "publishedAt" id now w i t)
        as (t' & ? & ? & ? & _); [done..|]. eauto 10.
    + destruct (moderated_target "rejected" "rejectedAt" id now w i t)
        as (t' & ? & ? & ? & _); [done..|]. eauto 10.
  - intros Hr Hnone. split; by apply moderate_missing.
Qed.

End Moderation.

Section Frames.
Context `{JsBuiltins}.

(** C10, as the code has it. For an admin and an id that some track
    carries, approve and reject write back the whole collection, each track
    passed through [normalizeTrack]. Of every track other than the target
    each property either keeps its value or is one of the six defaulted
    properties, failed the test of [normalizeTrack] and holds its default:
    [status] from the legacy [published] flag or else [published], the
    default cover and audio paths, duration [0:00], [plays] 0, [likes] 0.
    An absent property always fails the test; a present one fails it too
    when it is falsy or, for the two counters, not a finite number, and is
    then overwritten like a missing one. The same is true of the target
    apart from its status and its stamp. Users, likes and playlists are not
    touched. *)
Theorem approve_reject_frame (id now : string) (w : Store) (s : Session) :
  (requireRole "admin" w s = None →
   ∀ i t, list_find (has_id id) (TRACKS w) = Some (i, t) →
   ∀ status stamp handler,
     (status, stamp, handler)
       ∈ [("published", "publishedAt", post_admin_tracks_approve);
          ("rejected", "rejectedAt", post_admin_tracks_reject)] →
     ∃ w', handler id now w s = (Redirect "/admin", w')
       ∧ length (TRACKS w') = length (TRACKS w)
       ∧ USERS w' = USERS w ∧ USER_LIKES w' = USER_LIKES w
       ∧ PLAYLISTS w' = PLAYLISTS w
       ∧ (∀ j t0, j ≠ i → TRACKS w !! j = Some t0 →
            ∃ t1, TRACKS w' !! j = Some t1
              ∧ ∀ k, t1 !! k = if needs_default t0 k
                               then Some (track_default t0 k) else t0 !! k)
       ∧ (∃ t1, TRACKS w' !! i = Some t1
            ∧ ∀ k, k ≠ "status" → k ≠ stamp →
                t1 !! k = if needs_default t k
                          then Some (track_default t k) else t !! k))
  ∧ (∀ (t0 : Track) k,
       (needs_default t0 k = true →
          k ∈ ["status"; "cover"; "audio"; "duration"; "plays"; "likes"])
       ∧ (t0 !! k = None →
          k ∈ ["status"; "cover"; "audio"; "duration"; "plays"; "likes"] →
          needs_default t0 k = true)
       ∧ (∀ v, t0 !! k = Some v → needs_default t0 k = true →
            truthy v = false ∨ isFiniteNumber v = false)).
Proof.
  split.
  2: { intros t0 k. split_and!.
       - apply needs_default_only.
       - apply needs_default_missing.
       - apply needs_default_present. }
  intros Hr i t Hf status stamp handler Hin.
  assert (Hcase : (stamp ≠ "status" ∧ stamp ≠ "id")
                  ∧ handler = moderate status stamp).
  { repeat (apply elem_of_cons in Hin as [Hin|Hin]; [by simplify_eq|]).
    by apply elem_of_nil in Hin. }
  destruct Hcase as [[Hs Hi] ->].
  rewrite (moderate_found _ _ _ _ _ _ i t) by done.
  eexists. split_and!; try done.
  - unfold moderated. fields. by rewrite length_insert, length_fmap.
  - intros j t0 Hj Ht0. rewrite moderated_others, Ht0 by done. fields.
    eexists. split; [done|]. intros k.
    by rewrite normalizeTrack_lookup.
  - destruct (moderated_target status stamp id now w i t)
      as (t' & (Hl & _)%list_find_Some & _ & _ & Hk); [done..|].
    exists t'. split; [done|]. intros k ??.
    by rewrite Hk, normalizeTrack_lookup.
Qed.

(** C9. For an admin, delete writes back the tracks without those that
    carry the id, every other track still there (normalized) and in the
    same order, and every playlist with the id filtered out of its
    [trackIds], the other ids in the order they had. *)
Theorem delete_cascades (id : string) (w : Store) (s : Session) :
  (requireRole "admin" w s = None →
   ∃ w', post_admin_tracks_delete id w s = (Redirect "/admin", w')
     ∧ (∀ t, t ∈ TRACKS w' → ¬ has_id id t)
     ∧ (∀ t, t ∈ TRACKS w → ¬ has_id id t → normalizeTrack t ∈ TRACKS w')
     ∧ TRACKS w' = normalizeTrack <$> filter (λ t, ¬ has_id id t) (TRACKS w)
     ∧ length (PLAYLISTS w') = length (PLAYLISTS w)
     ∧ (∀ j p, PLAYLISTS w !! j = Some p →
          ∃ p' ids, PLAYLISTS w' !! j = Some p'
            ∧ p_id p' = p_id p ∧ p_rest p' = p_rest p
            ∧ p_trackIds p' = Some ids
            ∧ ids = filter (λ tid, tid ≠ id) (default [] (p_trackIds p))
            ∧ (id ∉ ids)
            ∧ (ids `sublist_of` default [] (p_trackIds p)))
     ∧ USERS w' = USERS w ∧ USER_LIKES w' = USER_LIKES w)
  ∧ (∀ r, requireRole "admin" w s = Some r →
       post_admin_tracks_delete id w s = (r, w)).
Proof.
  split; [|by unfold post_admin_tracks_delete; intros r ->].
  intros Hr. unfold post_admin_tracks_delete. rewrite Hr.
  eexists. split; [done|]. fields.
  assert (Hfilter :
    filter (λ x, ¬ has_id id x) (normalizeTrack <$> TRACKS w)
    = normalizeTrack <$> filter (λ t, ¬ has_id id t) (TRACKS w)).
  { induction (TRACKS w) as [|t ts IH]; [done|].
    rewrite fmap_cons, !filter_cons, IH.
    repeat case_decide; try done; by rewrite has_id_normalizeTrack in *. }
  rewrite Hfilter. split_and!; try done.
  - intros t (t0 & -> & [Ht0 _]%list_elem_of_filter)%list_elem_of_fmap.
    by rewrite has_id_normalizeTrack.
  - intros t Ht Hid. apply list_elem_of_fmap. exists t. split; [done|].
    by apply list_elem_of_filter.
  - by rewrite length_fmap.
  - intros j p Hp. rewrite list_lookup_fmap, Hp. fields.
    destruct (p_trackIds p) as [l|]; cbn [default from_option Datatypes.id];
      (eexists _, _; split; [done|]); cbn [p_id p_rest p_trackIds];
      split_and!;
      first [ done | apply sublist_filter | apply not_elem_of_nil
            | rewrite list_elem_of_filter; tauto ].
Qed.

End Frames.

(** ** OAuth transient state *)

Definition is_redirect (r : Response) : bool :=
  match r with
  | Redirect _ => true
  | _ => false
  end.

(** [session.oauthStates?.[provider]] and [session.oauthNext?.[provider]] *)
Definition recorded_state (provider : string) (s : Session) : option string :=
  oauthStates s ≫= (.!! provider).

Definition recorded_next (provider : string) (s : Session) : option string :=
  oauthNext s ≫= (.!! provider).

Section Oauth.
Context `{JsBuiltins}.

Lemma getGuestLikes_oauth (s : Session) :
  oauthStates (getGuestLikes s).2 = oauthStates s
  ∧ oauthNext (getGuestLikes s).2 = oauthNext s.
Proof. unfold getGuestLikes. by destruct (guestLikes s). Qed.

Lemma mergeGuestLikesIntoUser_oauth (id : string) (w : Store) (s : Session) :
  oauthStates (mergeGuestLikesIntoUser id w s).2 = oauthStates s
  ∧ oauthNext (mergeGuestLikesIntoUser id w s).2 = oauthNext s.
Proof.
  unfold mergeGuestLikesIntoUser.
  pose proof (getGuestLikes_oauth s) as Hg.
  destruct (getGuestLikes s) as [[|g gs] s1]; fields; done.
Qed.

Lemma consumeOauthNext_deletes (provider : string) (s : Session) :
  recorded_next provider (consumeOauthNext provider s).2 = None
  ∧ oauthStates (consumeOauthNext provider s).2 = oauthStates s.
Proof.
  unfold consumeOauthNext, recorded_next. fields.
  destruct (oauthNext s) as [m|] eqn:Hm; fields.
  - split; [|done]. cbn [mbind option_bind]. apply lookup_delete_eq.
  - by rewrite Hm.
Qed.

Lemma consumeOauthNext_other (provider other : string) (s : Session) :
  other ≠ provider →
  recorded_next other (consumeOauthNext provider s).2 = recorded_next other s.
Proof.
  intros Hne. unfold consumeOauthNext, recorded_next. fields.
  destruct (oauthNext s) as [m|] eqn:Hm; fields.
  - cbn [mbind option_bind]. by apply lookup_delete_ne.
  - by rewrite Hm.
Qed.

Lemma consumeOauthNext_absent (provider : string) (s : Session) :
  recorded_next provider s = None → (consumeOauthNext provider s).1 = "/".
Proof. unfold consumeOauthNext, recorded_next. fields. by intros ->. Qed.

Lemma checkOauthState_recorded (provider : string) (state : option string)
    (s s' : Session) :
  oauthStates s' = oauthStates s →
  checkOauthState provider state s' = checkOauthState provider state s.
Proof. unfold checkOauthState. by intros ->. Qed.

(** The session a callback leaves behind when it gets as far as the
    redirect. *)
Lemma get_auth_callback_success (provider : string) (q_state q_code : option string)
    (x : Exchange) (now rnd : string) (w : Store) (s : Session) :
  is_redirect (get_auth_callback provider q_state q_code x now rnd w s).1.1 = true →
  checkOauthState provider q_state s = true
  ∧ ∃ id w1,
      get_auth_callback provider q_state q_code x now rnd w s
      = (Redirect (consumeOauthNext provider
                     (mergeGuestLikesIntoUser id w1 (set_userId (Some id) s)).2).1,
         (mergeGuestLikesIntoUser id w1 (set_userId (Some id) s)).1,
         (consumeOauthNext provider
            (mergeGuestLikesIntoUser id w1 (set_userId (Some id) s)).2).2).
Proof.
  unfold get_auth_callback.
  destruct (checkOauthState provider q_state s); cbn [negb]; [|done].
  destruct (struthy q_code); cbn [negb]; [|done].
  destruct x as [| | |providerId email displayName avatar]; try done.
  destruct (upsertOauthUser _ _ _ _ _ _ _ _) as [user w1].
  intros _. split; [done|]. exists (u_id user), w1.
  destruct (mergeGuestLikesIntoUser _ _ _) as [w2 s2]. cbn [fst snd].
  by destruct (consumeOauthNext provider s2) as [n s3].
Qed.

(** C3, as the code has it. When a callback gets as far as the redirect,
    the target recorded for the provider is the (sanitized) redirect target
    and is gone from the session, so that a later read gives [/]; the
    anti-forgery state recorded for the provider stays in the session and
    the state the callback presented still passes the check; the targets
    recorded for other providers stay. *)
Theorem oauth_callback_consumes_next (provider : string)
    (q_state q_code : option string) (x : Exchange) (now rnd : string)
    (w : Store) (s : Session) :
  is_redirect (get_auth_callback provider q_state q_code x now rnd w s).1.1 = true →
  let r := (get_auth_callback provider q_state q_code x now rnd w s).1.1 in
  let s' := (get_auth_callback provider q_state q_code x now rnd w s).2 in
  r = Redirect (sanitizeNextUrl (Some (sor_lit (recorded_next provider s) "/")))
  ∧ recorded_next provider s' = None
  ∧ (consumeOauthNext provider s').1 = "/"
  ∧ (∀ other, other ≠ provider →
       recorded_next other s' = recorded_next other s)
  ∧ oauthStates s' = oauthStates s
  ∧ recorded_state provider s' = recorded_state provider s
  ∧ checkOauthState provider q_state s' = true.
Proof.
  intros (Hck & id & w1 & ->)%get_auth_callback_success. cbn [fst snd].
  pose proof (mergeGuestLikesIntoUser_oauth id w1 (set_userId (Some id) s))
    as [Hst Hnx].
  set (s2 := (mergeGuestLikesIntoUser id w1 (set_userId (Some id) s)).2) in *.
  pose proof (consumeOauthNext_deletes provider s2) as [Hdel Hkeep].
  assert (Hstates : oauthStates (consumeOauthNext provider s2).2 = oauthStates s).
  { by rewrite Hkeep, Hst. }
  split_and!.
  - unfold consumeOauthNext, recorded_next. cbn [fst]. by rewrite Hnx.
  - done.
  - by apply consumeOauthNext_absent.
  - intros other Hne. rewrite consumeOauthNext_other by done.
    unfold recorded_next. by rewrite Hnx.
  - done.
  - unfold recorded_state. by rewrite Hstates.
  - by rewrite (checkOauthState_recorded _ _ s).
Qed.

End Oauth.

(** ** Identity store *)

(** [normalizeEmail(u.email) === normalizeEmail(email)] *)
Definition same_email `{JsBuiltins} (email : option string) (u : User) : Prop :=
  normalizeEmail (u_email u) = normalizeEmail email.

#[global] Instance same_email_dec `{JsBuiltins} email u :
  Decision (same_email email u).
Proof. unfold same_email. apply _. Defined.

Section Identity.
Context `{JsBuiltins}.

Lemma normalizeEmail_idemp (email : option string) :
  normalizeEmail email ≠ "" →
  normalizeEmail (Some (normalizeEmail email)) = normalizeEmail email.
Proof.
  intros Hne. unfold normalizeEmail at 1. unfold sor_lit.
  apply eqb_false in Hne as ->. apply normalize_idemp.
Qed.

(** The e-mail lookup of [upsertOauthUser], which normalizes the address a
    second time, finds the first record with the same normalized address. *)
Lemma find_by_normalized_email (email : option string) (users : list User) :
  normalizeEmail email ≠ "" →
  findUserByEmailAnyProvider (Some (normalizeEmail email)) users
  = list_find (same_email email) users.
Proof.
  intros Hne. unfold findUserByEmailAnyProvider.
  rewrite normalizeEmail_idemp by done.
  by apply eqb_false in Hne as ->.
Qed.

Lemma upsert_direct provider providerId email displayName avatar now rnd w
    i existing :
  list_find (λ u, direct_match provider (js_String providerId) u) (USERS w)
  = Some (i, existing) →
  upsertOauthUser provider providerId email displayName avatar now rnd w
  = (refresh_existing provider (js_String providerId) email displayName
       avatar now existing,
     set_USERS (<[i := refresh_existing provider (js_String providerId) email
                         displayName avatar now existing]> (USERS w)) w).
Proof. intros Hf. unfold upsertOauthUser. by rewrite Hf. Qed.

Lemma upsert_by_email provider providerId email displayName avatar now rnd w
    j byEmail :
  list_find (λ u, direct_match provider (js_String providerId) u) (USERS w)
  = None →
  normalizeEmail email ≠ "" →
  list_find (same_email email) (USERS w) = Some (j, byEmail) →
  upsertOauthUser provider providerId email displayName avatar now rnd w
  = (link_by_email provider (js_String providerId) email displayName avatar
       now byEmail,
     ensure_likes (u_id byEmail)
       (set_USERS (<[j := link_by_email provider (js_String providerId) email
                            displayName avatar now byEmail]> (USERS w)) w)).
Proof.
  intros Hd Hne Hf. unfold upsertOauthUser. rewrite Hd.
  rewrite find_by_normalized_email, Hf by done.
  by apply eqb_false in Hne as ->.
Qed.

Lemma upsert_new provider providerId email displayName avatar now rnd w :
  list_find (λ u, direct_match provider (js_String providerId) u) (USERS w)
  = None →
  normalizeEmail email = "" ∨ list_find (same_email email) (USERS w) = None →
  upsertOauthUser provider providerId email displayName avatar now rnd w
  = (new_oauth_user provider (js_String providerId) email displayName avatar
       now rnd,
     ensure_likes ("u_" ++ rnd)
       (set_USERS (USERS w ++ [new_oauth_user provider (js_String providerId)
                                 email displayName avatar now rnd]) w)).
Proof.
  intros Hd Hc. unfold upsertOauthUser. rewrite Hd.
  destruct (String.eqb_spec (normalizeEmail email) "") as [He|He]; [done|].
  destruct Hc as [?|Hf]; [done|].
  by rewrite find_by_normalized_email, Hf.
Qed.

Lemma ensure_likes_USERS (id : string) (w : Store) :
  USERS (ensure_likes id w) = USERS w.
Proof. unfold ensure_likes. by destruct (USER_LIKES w !! id). Qed.

Lemma link_of_refresh provider pid email displayName avatar now existing :
  link_of provider
    (refresh_existing provider pid email displayName avatar now existing)
  = Some (mkLink pid
            (if struthy email then email
             else link_of provider existing ≫= l_email)
            (if struthy avatar then avatar
             else link_of provider existing ≫= l_avatar)
            (sor (link_of provider existing ≫= l_linkedAt) (Some now))
            (Some now)).
Proof.
  unfold link_of, refresh_existing. cbn [u_oauthLinks mbind option_bind].
  rewrite lookup_insert_eq.
  destruct (u_oauthLinks existing) as [m|]; cbn [default from_option mbind option_bind Datatypes.id].
  - by destruct (m !! provider).
  - by rewrite lookup_empty.
Qed.

Lemma link_of_refresh_other provider other pid email displayName avatar now
    existing :
  other ≠ provider →
  link_of other
    (refresh_existing provider pid email displayName avatar now existing)
  = link_of other existing.
Proof.
  intros Hne. unfold link_of, refresh_existing.
  cbn [u_oauthLinks mbind option_bind].
  rewrite lookup_insert_ne by done.
  destruct (u_oauthLinks existing) as [m|]; cbn [default from_option mbind option_bind Datatypes.id];
    [done|apply lookup_empty].
Qed.

Lemma link_of_link_by_email provider pid email displayName avatar now byEmail :
  link_of provider
    (link_by_email provider pid email displayName avatar now byEmail)
  = Some (mkLink pid (sor email (sor (u_email byEmail) None))
            (sor avatar (sor (u_avatar byEmail) None)) (Some now) (Some now)).
Proof.
  unfold link_of, link_by_email. cbn [u_oauthLinks mbind option_bind].
  apply lookup_insert_eq.
Qed.

Lemma link_of_link_by_email_other provider other pid email displayName avatar
    now byEmail :
  other ≠ provider →
  link_of other
    (link_by_email provider pid email displayName avatar now byEmail)
  = link_of other byEmail.
Proof.
  intros Hne. unfold link_of, link_by_email.
  cbn [u_oauthLinks mbind option_bind].
  rewrite lookup_insert_ne by done.
  destruct (u_oauthLinks byEmail) as [m|]; cbn [default from_option mbind option_bind Datatypes.id];
    [done|apply lookup_empty].
Qed.

(** C1, as the code has it. [upsertOauthUser] resolves the user in this
    order. (a) The first record that matches the provider identity, as its
    primary identity or through [oauthLinks]: each of its top-level [email],
    [displayName], [avatar] takes the incoming value when that value is
    non-empty and keeps its own otherwise; its link to the provider takes
    the new provider id and login time, the incoming e-mail and avatar when
    non-empty, and keeps the time it was first linked. (b) Otherwise, when
    the normalized incoming e-mail is non-empty, the first record with the
    same normalized e-mail: it gets a fresh link to the provider, and each
    top-level field keeps its value unless it was empty. (c) Otherwise a
    new record of role [user], appended to the collection. *)
Theorem upsertOauthUser_resolution (provider : string) (providerId : JsVal)
    (email displayName avatar : option string) (now rnd : string) (w : Store) :
  let pid := js_String providerId in
  let user :=
    (upsertOauthUser provider providerId email displayName avatar now rnd w).1 in
  let w' :=
    (upsertOauthUser provider providerId email displayName avatar now rnd w).2 in
  let direct := list_find (λ u, direct_match provider pid u) (USERS w) in
  (∀ i existing, direct = Some (i, existing) →
     USERS w' = <[i := user]> (USERS w)
     ∧ u_id user = u_id existing ∧ u_role user = u_role existing
     ∧ u_provider user = u_provider existing
     ∧ u_providerId user = u_providerId existing
     ∧ u_passwordHash user = u_passwordHash existing
     ∧ u_email user = (if struthy email then email else u_email existing)
     ∧ u_displayName user
       = (if struthy displayName then displayName else u_displayName existing)
     ∧ u_avatar user = (if struthy avatar then avatar else u_avatar existing)
     ∧ link_of provider user
       = Some (mkLink pid
                 (if struthy email then email
                  else link_of provider existing ≫= l_email)
                 (if struthy avatar then avatar
                  else link_of provider existing ≫= l_avatar)
                 (sor (link_of provider existing ≫= l_linkedAt) (Some now))
                 (Some now))
     ∧ ∀ other, other ≠ provider →
         link_of other user = link_of other existing)
  ∧ (direct = None → normalizeEmail email ≠ "" →
     ∀ j byEmail, list_find (same_email email) (USERS w) = Some (j, byEmail) →
       USERS w' = <[j := user]> (USERS w)
       ∧ u_id user = u_id byEmail ∧ u_role user = u_role byEmail
       ∧ u_provider user = u_provider byEmail
       ∧ u_providerId user = u_providerId byEmail
       ∧ u_passwordHash user = u_passwordHash byEmail
       ∧ u_email user
         = (if struthy (u_email byEmail) then u_email byEmail
            else sor email None)
       ∧ u_displayName user
         = (if struthy (u_displayName byEmail) then u_displayName byEmail
            else sor displayName (u_displayName byEmail))
       ∧ u_avatar user
         = (if struthy (u_avatar byEmail) then u_avatar byEmail
            else sor avatar (u_avatar byEmail))
       ∧ link_of provider user
         = Some (mkLink pid (sor email (sor (u_email byEmail) None))
                   (sor avatar (sor (u_avatar byEmail) None))
                   (Some now) (Some now))
       ∧ ∀ other, other ≠ provider →
           link_of other user = link_of other byEmail)
  ∧ (direct = None →
     normalizeEmail email = "" ∨ list_find (same_email email) (USERS w) = None →
       USERS w' = (USERS w ++ [user])%list
       ∧ u_id user = "u_" ++ rnd ∧ u_role user = "user"
       ∧ u_provider user = provider ∧ u_providerId user = Some pid
       ∧ u_passwordHash user = None
       ∧ u_email user = sor email None
       ∧ u_displayName user = Some (sor_lit displayName "User")
       ∧ u_avatar user = sor avatar None
       ∧ u_oauthLinks user
         = Some {[ provider := mkLink pid (sor email None) (sor avatar None)
                                 (Some now) (Some now) ]}).
Proof.
  cbv zeta. split_and!.
  - intros i existing Hf. rewrite (upsert_direct _ _ _ _ _ _ _ _ i existing Hf).
    cbn [fst snd]. fields.
    rewrite link_of_refresh. split_and!; try done.
    intros other Hne. by apply link_of_refresh_other.
  - intros Hd Hne j byEmail Hf.
    rewrite (upsert_by_email _ _ _ _ _ _ _ _ j byEmail Hd Hne Hf).
    cbn [fst snd]. rewrite ensure_likes_USERS. fields.
    rewrite link_of_link_by_email. split_and!; try done.
    intros other Hneq. by apply link_of_link_by_email_other.
  - intros Hd Hc. rewrite (upsert_new _ _ _ _ _ _ _ _ Hd Hc).
    cbn [fst snd]. rewrite ensure_likes_USERS. fields. by split_and!.
Qed.

End Identity.

(** ** The uniqueness invariant of the user collection *)

(** [u] is reachable through the provider identity [(provider, pid)]: it
    is its primary identity, or one of its links. *)
Definition has_identity (provider pid : string) (u : User) : Prop :=
  (u_provider u = provider ∧ u_providerId u = Some pid)
  ∨ (∃ l, link_of provider u = Some l ∧ l_providerId l = pid).

(** At most one record per provider identity. *)
Definition identities_unique (us : list User) : Prop :=
  ∀ i j u v provider pid,
    us !! i = Some u → us !! j = Some v →
    has_identity provider pid u → has_identity provider pid v → i = j.

(** At most one local record per normalized e-mail. *)
Definition local_emails_unique `{JsBuiltins} (us : list User) : Prop :=
  ∀ i j u v,
    us !! i = Some u → us !! j = Some v →
    u_provider u = "local" → u_provider v = "local" →
    normalizeEmail (u_email u) = normalizeEmail (u_email v) → i = j.

Definition users_invariant `{JsBuiltins} (us : list User) : Prop :=
  identities_unique us ∧ local_emails_unique us.

Lemma no_identity (provider pid : string) (u : User) :
  u_providerId u = None → u_oauthLinks u = None →
  ¬ has_identity provider pid u.
Proof.
  intros Hp Hl [[_ Hid]|(l & Hlk & _)].
  - by rewrite Hp in Hid.
  - unfold link_of in Hlk. by rewrite Hl in Hlk.
Qed.

(** *** What keeps the invariant *)

Section Invariant.
Context `{JsBuiltins}.

Lemma has_identity_direct_match (provider pid : string) (u : User) :
  has_identity provider pid u → direct_match provider pid u = true.
Proof.
  unfold direct_match. intros [[Hp Hid]|(l & Hl & Hid)].
  - rewrite Hp, Hid. cbn [String_opt]. by rewrite !String.eqb_refl.
  - rewrite Hl, Hid, String.eqb_refl. apply orb_true_r.
Qed.

Lemma direct_match_has_identity (provider pid : string) (u : User) :
  direct_match provider pid u = true →
  (u_provider u = provider → is_Some (u_providerId u)) →
  has_identity provider pid u.
Proof.
  unfold direct_match, has_identity. intros Hm Hpid.
  apply orb_true_iff in Hm as [Hm|Hm].
  - apply andb_true_iff in Hm as [Hp%eqb_true Hid%eqb_true].
    destruct (Hpid Hp) as [x Hx]. rewrite Hx in Hid. cbn in Hid.
    left. by subst.
  - destruct (link_of provider u) as [l|]; [|done].
    apply eqb_true in Hm. right. eauto.
Qed.

(** Replacing a record by one whose identities are its own old ones, or
    identities nobody else has, keeps the identities unique. *)
Lemma identities_unique_insert (us : list User) (i : nat) (u u' : User) :
  identities_unique us →
  us !! i = Some u →
  (∀ provider pid, has_identity provider pid u' →
     has_identity provider pid u
     ∨ ∀ j v, us !! j = Some v → has_identity provider pid v → j = i) →
  identities_unique (<[i := u']> us).
Proof.
  intros Hus Hi Hu' a b x y provider pid Ha Hb Hx Hy.
  apply list_lookup_insert_Some in Ha as [(-> & -> & _)|[Hne Ha]];
    apply list_lookup_insert_Some in Hb as [(-> & -> & _)|[Hnb Hb]];
    try done.
  - destruct (Hu' _ _ Hx) as [Hold|Hnew].
    + by apply (Hus a b u y provider pid).
    + symmetry. by apply (Hnew b y).
  - destruct (Hu' _ _ Hy) as [Hold|Hnew].
    + by apply (Hus a b x u provider pid).
    + by apply (Hnew a x).
  - by apply (Hus a b x y provider pid).
Qed.

(** Appending a record whose identities nobody has keeps them unique. *)
Lemma identities_unique_app (us : list User) (new : User) :
  identities_unique us →
  (∀ provider pid v, has_identity provider pid new → v ∈ us →
     ¬ has_identity provider pid v) →
  identities_unique (us ++ [new]).
Proof.
  intros Hus Hnew a b x y provider pid Ha Hb Hx Hy.
  apply lookup_app_Some in Ha as [Ha|[Hla Ha]];
    apply lookup_app_Some in Hb as [Hb|[Hlb Hb]].
  - by apply (Hus a b x y provider pid).
  - apply list_lookup_singleton_Some in Hb as [_ <-].
    exfalso. apply (Hnew provider pid x Hy); [|done].
    by eapply list_elem_of_lookup_2.
  - apply list_lookup_singleton_Some in Ha as [_ <-].
    exfalso. apply (Hnew provider pid y Hx); [|done].
    by eapply list_elem_of_lookup_2.
  - apply list_lookup_singleton_Some in Ha as [Ha _].
    apply list_lookup_singleton_Some in Hb as [Hb _]. lia.
Qed.

(** Replacing a record by one with the same primary provider and the same
    normalized e-mail, or by one that is not local, keeps the local
    e-mails unique. *)
Lemma local_emails_unique_insert (us : list User) (i : nat) (u u' : User) :
  local_emails_unique us →
  us !! i = Some u →
  u_provider u' = u_provider u →
  (u_provider u = "local" →
     normalizeEmail (u_email u') = normalizeEmail (u_email u)) →
  local_emails_unique (<[i := u']> us).
Proof.
  intros Hus Hi Hp He a b x y Ha Hb Hx Hy Hxy.
  apply list_lookup_insert_Some in Ha as [(-> & -> & _)|[Hne Ha]];
    apply list_lookup_insert_Some in Hb as [(-> & -> & _)|[Hnb Hb]];
    try done.
  - rewrite Hp in Hx. rewrite (He Hx) in Hxy. by apply (Hus a b u y).
  - rewrite Hp in Hy. rewrite (He Hy) in Hxy. by apply (Hus a b x u).
  - by apply (Hus a b x y).
Qed.

Lemma local_emails_unique_app (us : list User) (new : User) :
  local_emails_unique us →
  (u_provider new = "local" →
   ∀ v, v ∈ us → u_provider v = "local" →
     normalizeEmail (u_email v) ≠ normalizeEmail (u_email new)) →
  local_emails_unique (us ++ [new]).
Proof.
  intros Hus Hnew a b x y Ha Hb Hx Hy Hxy.
  apply lookup_app_Some in Ha as [Ha|[Hla Ha]];
    apply lookup_app_Some in Hb as [Hb|[Hlb Hb]].
  - by apply (Hus a b x y).
  - apply list_lookup_singleton_Some in Hb as [_ <-].
    exfalso. apply (Hnew Hy x); [by eapply list_elem_of_lookup_2|done..].
  - apply list_lookup_singleton_Some in Ha as [_ <-].
    exfalso. apply (Hnew Hx y); [by eapply list_elem_of_lookup_2|done..].
  - apply list_lookup_singleton_Some in Ha as [Ha _].
    apply list_lookup_singleton_Some in Hb as [Hb _]. lia.
Qed.

Lemma mergeGuestLikesIntoUser_USERS (id : string) (w : Store) (s : Session) :
  USERS (mergeGuestLikesIntoUser id w s).1 = USERS w.
Proof.
  unfold mergeGuestLikesIntoUser. by destruct (getGuestLikes s) as [[|g gs] s1].
Qed.

(** [POST /register] either leaves the users alone or appends the record
    of an address that no record has. *)
Lemma post_register_users b_next b_email b_displayName b_password b_password2
    hash now rnd w s :
  let email := normalizeEmail (Some (sor_lit b_email "")) in
  let w' := (post_register b_next b_email b_displayName b_password
               b_password2 hash now rnd w s).1.2 in
  USERS w' = USERS w
  ∨ (email ≠ ""
     ∧ findUserByEmailAnyProvider (Some email) (USERS w) = None
     ∧ USERS w' = (USERS w ++ [new_local_user email
                                 (trim (sor_lit b_displayName "")) hash now
                                 rnd])%list).
Proof.
  cbv zeta. unfold post_register. cbv zeta.
  destruct (String.eqb (normalizeEmail (Some (sor_lit b_email ""))) ""
            || negb (includes_char at_sign
                       (normalizeEmail (Some (sor_lit b_email ""))))
            || _) eqn:E1; [by left|].
  destruct (String.eqb (sor_lit b_password "") "" || _); [by left|].
  destruct (negb (String.eqb (sor_lit b_password "") _)); [by left|].
  destruct (findUserByEmailAnyProvider _ _) eqn:Hf; [by left|].
  right. split_and!; [|done|].
  - apply orb_false_iff in E1 as [[E1%eqb_false _]%orb_false_iff _]. done.
  - pose proof (mergeGuestLikesIntoUser_USERS
      (u_id (new_local_user (normalizeEmail (Some (sor_lit b_email "")))
               (trim (sor_lit b_displayName "")) hash now rnd))
      (ensure_likes
         (u_id (new_local_user (normalizeEmail (Some (sor_lit b_email "")))
                  (trim (sor_lit b_displayName "")) hash now rnd))
         (set_USERS
            (USERS w ++ [new_local_user
                           (normalizeEmail (Some (sor_lit b_email "")))
                           (trim (sor_lit b_displayName "")) hash now rnd])
            w))
      (set_userId
         (Some (u_id (new_local_user
                        (normalizeEmail (Some (sor_lit b_email "")))
                        (trim (sor_lit b_displayName "")) hash now rnd))) s))
      as Hm.
    destruct (mergeGuestLikesIntoUser _ _ _) as [w2 s2]. cbn [fst snd] in *.
    by rewrite Hm, ensure_likes_USERS.
Qed.

(** X1. Local registration keeps the uniqueness invariant: it leaves the
    users alone or appends a local record under an address nobody has. *)
Theorem post_register_preserves_invariant b_next b_email b_displayName
    b_password b_password2 hash now rnd (w : Store) (s : Session) :
  users_invariant (USERS w) →
  let w' := (post_register b_next b_email b_displayName b_password
               b_password2 hash now rnd w s).1.2 in
  users_invariant (USERS w')
  ∧ (USERS w' = USERS w
     ∨ ∃ new, USERS w' = (USERS w ++ [new])%list
         ∧ u_provider new = "local"
         ∧ normalizeEmail (u_email new) ≠ ""
         ∧ Forall (λ u, normalizeEmail (u_email u)
                        ≠ normalizeEmail (u_email new)) (USERS w)).
Proof.
  intros [Hid Hem]. cbv zeta.
  destruct (post_register_users b_next b_email b_displayName b_password
              b_password2 hash now rnd w s) as [->|(Hne & Hf & ->)];
    [by split; [|left]|].
  unfold findUserByEmailAnyProvider in Hf.
  rewrite normalizeEmail_idemp in Hf by done.
  rewrite (proj2 (eqb_false _ _) Hne) in Hf.
  apply list_find_None in Hf.
  split; [split|right].
  - apply identities_unique_app; [done|].
    intros provider pid v Hnew _ _. by apply no_identity in Hnew.
  - apply local_emails_unique_app; [done|].
    intros _ v Hv _ He. cbn [new_local_user u_email] in He.
    rewrite normalizeEmail_idemp in He by done.
    rewrite Forall_forall in Hf. by apply (Hf v).
  - eexists. split; [done|]. cbn [new_local_user u_provider u_email].
    rewrite normalizeEmail_idemp by done. by split_and!.
Qed.

Lemma normalizeEmail_falsy (o : option string) :
  struthy o = false → normalizeEmail o = normalizeEmail None.
Proof.
  unfold normalizeEmail. destruct o as [e|]; [|done]. cbn [struthy sor_lit].
  by destruct (String.eqb e "").
Qed.

(** Linking by e-mail leaves the normalized e-mail of the record as it
    was. *)
Lemma link_by_email_same_email provider pid email displayName avatar now b :
  same_email email b →
  normalizeEmail (u_email (link_by_email provider pid email displayName
                             avatar now b))
  = normalizeEmail (u_email b).
Proof.
  unfold same_email. intros He. cbn [link_by_email u_email]. unfold sor.
  destruct (struthy (u_email b)) eqn:Eb; [done|].
  destruct (struthy email) eqn:Ee; [done|].
  by rewrite (normalizeEmail_falsy (u_email b)).
Qed.

Lemma has_identity_refresh provider pid email displayName avatar now existing
    p x :
  has_identity p x
    (refresh_existing provider pid email displayName avatar now existing) →
  has_identity p x existing ∨ (p = provider ∧ x = pid).
Proof.
  intros [[Hp Hid]|(l & Hl & Hid)].
  - left. by left.
  - destruct (decide (p = provider)) as [->|Hne].
    + rewrite link_of_refresh in Hl. injection Hl as <-. by right.
    + rewrite link_of_refresh_other in Hl by done. left. right. eauto.
Qed.

Lemma has_identity_link_by_email provider pid email displayName avatar now b
    p x :
  has_identity p x
    (link_by_email provider pid email displayName avatar now b) →
  has_identity p x b ∨ (p = provider ∧ x = pid).
Proof.
  intros [[Hp Hid]|(l & Hl & Hid)].
  - left. by left.
  - destruct (decide (p = provider)) as [->|Hne].
    + rewrite link_of_link_by_email in Hl. injection Hl as <-. by right.
    + rewrite link_of_link_by_email_other in Hl by done. left. right. eauto.
Qed.

Lemma has_identity_new provider pid email displayName avatar now rnd p x :
  has_identity p x
    (new_oauth_user provider pid email displayName avatar now rnd) →
  p = provider ∧ x = pid.
Proof.
  intros [[Hp Hid]|(l & Hl & Hid)].
  - cbn [new_oauth_user u_provider u_providerId] in *. by simplify_eq.
  - unfold link_of in Hl. cbn [new_oauth_user u_oauthLinks mbind option_bind] in Hl.
    apply lookup_singleton_Some in Hl as [-> <-]. done.
Qed.

(** The three ways [upsertOauthUser] can go. *)
Lemma upsert_cases provider providerId email (w : Store) :
  (∃ i existing,
     list_find (λ u, direct_match provider (js_String providerId) u) (USERS w)
     = Some (i, existing))
  ∨ (list_find (λ u, direct_match provider (js_String providerId) u) (USERS w)
     = None
     ∧ ((normalizeEmail email ≠ ""
         ∧ ∃ j byEmail,
             list_find (same_email email) (USERS w) = Some (j, byEmail))
        ∨ (normalizeEmail email = ""
           ∨ list_find (same_email email) (USERS w) = None))).
Proof.
  destruct (list_find _ (USERS w)) as [[i existing]|]; [left; eauto|].
  right. split; [done|].
  destruct (decide (normalizeEmail email = "")); [by right; left|].
  destruct (list_find (same_email email) (USERS w)) as [[j b]|] eqn:Hf.
  - left. eauto.
  - right. by right.
Qed.

(** X2. [upsertOauthUser] keeps the uniqueness invariant when called for an
    OAuth provider whose records all carry their provider id, unless it
    finds by provider identity a local record and is given a non-empty
    e-mail that normalizes to another address than the stored one. *)
Theorem upsertOauthUser_preserves_invariant (provider : string)
    (providerId : JsVal) (email displayName avatar : option string)
    (now rnd : string) (w : Store) :
  users_invariant (USERS w) →
  provider ≠ "local" →
  (∀ u, u ∈ USERS w → u_provider u = provider → is_Some (u_providerId u)) →
  (∀ i existing,
     list_find (λ u, direct_match provider (js_String providerId) u) (USERS w)
     = Some (i, existing) →
     u_provider existing = "local" → struthy email = true →
     normalizeEmail email = normalizeEmail (u_email existing)) →
  users_invariant
    (USERS (upsertOauthUser provider providerId email displayName avatar now
              rnd w).2).
Proof.
  intros [Hid Hem] Hprov Hpid Hsame.
  destruct (upsert_cases provider providerId email w)
    as [(i & existing & Hf)|[Hd [(Hne & j & b & Hf)|Hc]]].
  - rewrite (upsert_direct _ _ _ _ _ _ _ _ i existing Hf). cbn [snd]. fields.
    pose proof Hf as (Hi & Hm & _)%list_find_Some.
    assert (Hex : has_identity provider (js_String providerId) existing).
    { apply direct_match_has_identity; [by apply Is_true_true|].
      apply Hpid. by eapply list_elem_of_lookup_2. }
    split.
    + apply (identities_unique_insert _ _ existing); [done..|].
      intros p x [?|[-> ->]]%has_identity_refresh; [by left|].
      right. intros k v Hk Hv. by apply (Hid k i v existing provider
                                           (js_String providerId)).
    + apply (local_emails_unique_insert _ _ existing); [done..|].
      intros Hlocal. cbn [refresh_existing u_email]. unfold sor.
      destruct (struthy email) eqn:Ee; [|done]. by eapply Hsame.
  - rewrite (upsert_by_email _ _ _ _ _ _ _ _ j b Hd Hne Hf). cbn [snd].
    rewrite ensure_likes_USERS. fields.
    pose proof Hf as (Hj & Hm & _)%list_find_Some.
    apply list_find_None in Hd. rewrite Forall_forall in Hd.
    split.
    + apply (identities_unique_insert _ _ b); [done..|].
      intros p x [?|[-> ->]]%has_identity_link_by_email; [by left|].
      right. intros k v Hk Hv. exfalso.
      apply (Hd v); [by eapply list_elem_of_lookup_2|].
      by apply Is_true_true, has_identity_direct_match.
    + apply (local_emails_unique_insert _ _ b); [done..|].
      intros _. by apply link_by_email_same_email.
  - rewrite (upsert_new _ _ _ _ _ _ _ _ Hd Hc). cbn [snd].
    rewrite ensure_likes_USERS. fields.
    apply list_find_None in Hd. rewrite Forall_forall in Hd.
    split.
    + apply identities_unique_app; [done|].
      intros p x v [-> ->]%has_identity_new Hv Hx.
      apply (Hd v Hv). by apply Is_true_true, has_identity_direct_match.
    + apply local_emails_unique_app; [done|].
      intros Hlocal. by cbn [new_oauth_user u_provider] in Hlocal.
Qed.

End Invariant.

(** *** A run of the server that ends with two local records under one
    e-mail address *)

Definition run_store0 : Store := mkStore [] ∅ [] [].
Definition run_session0 : Session := mkSession None None None None.

(** Ann registers [a@x.io] with a password. *)
Definition run_store1 : Store :=
  (post_register None (Some "a@x.io") (Some "Ann") (Some "secret1")
     (Some "secret1") "salt1:hash1" "t1" "01" run_store0 run_session0).1.2.

(** Ann logs in with Google (subject [g1], address [a@x.io]): the Google
    identity is linked to her local record. *)
Definition run_session2 : Session :=
  get_auth "google" "st" (Some "/library") run_session0.

Definition run_store2 : Store :=
  (get_auth_callback "google" (Some "st") (Some "code")
     (Profile (JStr "g1") (Some "a@x.io") (Some "Ann") None)
     "t2" "02" run_store1 run_session2).1.2.

(** Bob registers [b@x.io] with a password. *)
Definition run_store3 : Store :=
  (post_register None (Some "b@x.io") (Some "Bob") (Some "secret2")
     (Some "secret2") "salt3:hash3" "t3" "03" run_store2 run_session0).1.2.

(** Google now reports the address [b@x.io] for subject [g1]. *)
Definition run_store4 : Store :=
  (upsertOauthUser "google" (JStr "g1") (Some "b@x.io") (Some "Ann") None
     "t4" "04" run_store3).2.

Definition run_ann : User :=
  mkUser "u_01" "local" None (Some "a@x.io") (Some "Ann") None "user" None
    (Some "salt1:hash1")
    (Some {[ "google" := mkLink "g1" (Some "a@x.io") None (Some "t2")
                            (Some "t2") ]})
    (Some "t1").

Definition run_bob : User :=
  mkUser "u_03" "local" None (Some "b@x.io") (Some "Bob") None "user" None
    (Some "salt3:hash3") None (Some "t3").

Lemma run_store3_users : USERS run_store3 = [run_ann; run_bob].
Proof. vm_compute. reflexivity. Qed.

Lemma run_store3_invariant : users_invariant (USERS run_store3).
Proof.
  rewrite run_store3_users. split.
  - intros i j u v provider pid Hi Hj Hu Hv.
    destruct i as [|[|i]], j as [|[|j]]; try done; simplify_eq/=.
    + by apply no_identity in Hv.
    + by apply no_identity in Hu.
  - intros i j u v Hi Hj _ _ He.
    destruct i as [|[|i]], j as [|[|j]]; try done; simplify_eq/=;
      vm_compute in He; discriminate.
Qed.

(** C2 at the failing input: the store reached by the run above satisfies
    the invariant, and one more [upsertOauthUser] for the linked Google
    identity, with the address Google now reports, leaves two local records
    with the same normalized e-mail. *)
Theorem upsert_breaks_local_email_uniqueness :
  users_invariant (USERS run_store3)
  ∧ u_email <$> USERS run_store4 = [Some "b@x.io"; Some "b@x.io"]
  ∧ u_provider <$> USERS run_store4 = ["local"; "local"]
  ∧ ¬ local_emails_unique (USERS run_store4)
  ∧ ¬ users_invariant (USERS run_store4).
Proof.
  assert (Hbad : ¬ local_emails_unique (USERS run_store4)).
  { intros Hl.
    assert (∃ u v, USERS run_store4 = [u; v] ∧ u_provider u = "local"
                   ∧ u_provider v = "local"
                   ∧ normalizeEmail (u_email u) = normalizeEmail (u_email v))
      as (u & v & Hus & Hu & Hv & He).
    { eexists _, _. vm_compute. done. }
    specialize (Hl 0 1 u v). rewrite Hus in Hl.
    specialize (Hl eq_refl eq_refl Hu Hv He). discriminate. }
  split_and!.
  - apply run_store3_invariant.
  - vm_compute. reflexivity.
  - vm_compute. reflexivity.
  - done.
  - by intros [_ ?].
Qed.

(** ** Scenarios of the specification *)

Section Scenarios.
Context `{JsBuiltins}.

(** X4. A callback that presents another state than the one recorded for
    the provider, or none, is answered with 400 and changes nothing. *)
Theorem oauth_bad_state (provider : string) (q_state q_code : option string)
    (x : Exchange) (now rnd : string) (w : Store) (s : Session) :
  recorded_state provider s ≠ q_state →
  get_auth_callback provider q_state q_code x now rnd w s = (Status 400, w, s).
Proof.
  intros Hne. unfold get_auth_callback.
  assert (checkOauthState provider q_state s = false) as ->; [|done].
  unfold checkOauthState. fold (recorded_state provider s).
  destruct (recorded_state provider s) as [expected|]; [|done].
  rewrite bool_decide_eq_false_2 by done. apply andb_false_r.
Qed.

(** X3. Liking a track and liking it again leaves the requester with the
    like-set they had. *)
Theorem like_then_unlike (trackId : string) (w : Store) (s : Session) :
  let first := post_api_like trackId w s in
  let second := post_api_like trackId first.1.2 first.2 in
  ∀ t, t ∈ applicable_likes second.1.2 second.2 ↔ t ∈ applicable_likes w s.
Proof.
  cbv zeta.
  destruct (list_find (has_id trackId) (TRACKS w)) as [[i tr]|] eqn:Hf.
  2: { rewrite !(post_api_like_missing _ w s) by done. cbn [fst snd].
       by rewrite ?(post_api_like_missing _ w s). }
  destruct (isTrackVisibleToUser (normalizeTrack tr) (getCurrentUser w s))
    eqn:Hv.
  2: { rewrite !(post_api_like_hidden _ w s i tr) by done. cbn [fst snd].
       by rewrite ?(post_api_like_hidden _ w s i tr). }
  unfold applicable_likes, getEffectiveLikes.
  destruct (getCurrentUser w s) as [u|] eqn:Hu.
  - rewrite (post_api_like_user trackId w s i tr u) by (done || by rewrite Hu).
    cbv zeta. cbn [fst snd].
    set (l1 := (toggled trackId (getUserLikes (u_id u) w)).1).
    rewrite (post_api_like_user trackId (setUserLikes (u_id u) l1 w) s i tr u);
      [|done|by rewrite getCurrentUser_likes, Hu|by rewrite getCurrentUser_likes].
    cbv zeta. cbn [fst snd]. rewrite !getCurrentUser_likes, Hu. cbn [fst].
    rewrite !getUserLikes_setUserLikes.
    pose proof (toggled_spec trackId (getUserLikes (u_id u) w)) as (_ & H1 & H2).
    pose proof (toggled_spec trackId l1) as (_ & H3 & H4). fold l1 in H1, H2.
    intros t. destruct (decide (t = trackId)) as [->|Hne].
    + rewrite H3, H1. destruct (decide (trackId ∈ getUserLikes (u_id u) w)); tauto.
    + by rewrite H4, H2.
  - rewrite (post_api_like_guest trackId w s i tr) by (done || by rewrite Hu).
    cbv zeta. cbn [fst snd].
    set (l1 := (toggled trackId (getGuestLikes s).1).1).
    set (s1 := set_guestLikes l1 (getGuestLikes s).2).
    assert (Hu1 : getCurrentUser w s1 = None).
    { unfold s1. by rewrite getCurrentUser_guest, getGuestLikes_user. }
    rewrite (post_api_like_guest trackId w s1 i tr) by (done || by rewrite Hu1).
    cbv zeta. cbn [fst snd]. rewrite getCurrentUser_guest, getGuestLikes_user, Hu1.
    rewrite getGuestLikes_set.
    change (getGuestLikes s1).1 with l1.
    pose proof (toggled_spec trackId (getGuestLikes s).1) as (_ & H1 & H2).
    pose proof (toggled_spec trackId l1) as (_ & H3 & H4). fold l1 in H1, H2.
    intros t. destruct (decide (t = trackId)) as [->|Hne].
    + rewrite H3, H1. destruct (decide (trackId ∈ (getGuestLikes s).1)); tauto.
    + by rewrite H4, H2.
Qed.

(** A registration that succeeded passed the e-mail check and appended
    the new record. *)
Lemma post_register_success b_next b_email b_displayName b_password
    b_password2 hash now rnd w s :
  let email := normalizeEmail (Some (sor_lit b_email "")) in
  let w' := (post_register b_next b_email b_displayName b_password
               b_password2 hash now rnd w s).1.2 in
  is_redirect (post_register b_next b_email b_displayName b_password
                 b_password2 hash now rnd w s).1.1 = true →
  (String.eqb email "" || negb (includes_char at_sign email)
   || Nat.ltb (String.length email) 5) = false
  ∧ USERS w' = (USERS w ++ [new_local_user email
                              (trim (sor_lit b_displayName "")) hash now
                              rnd])%list.
Proof.
  cbv zeta. unfold post_register. cbv zeta.
  destruct (String.eqb (normalizeEmail (Some (sor_lit b_email ""))) ""
            || negb (includes_char at_sign
                       (normalizeEmail (Some (sor_lit b_email ""))))
            || _) eqn:E1; [done|].
  destruct (String.eqb (sor_lit b_password "") "" || _); [done|].
  destruct (negb (String.eqb (sor_lit b_password "") _)); [done|].
  destruct (findUserByEmailAnyProvider _ _) eqn:Hf; [done|].
  intros _. split; [done|].
  pose proof (mergeGuestLikesIntoUser_USERS
    (u_id (new_local_user (normalizeEmail (Some (sor_lit b_email "")))
             (trim (sor_lit b_displayName "")) hash now rnd))
    (ensure_likes
       (u_id (new_local_user (normalizeEmail (Some (sor_lit b_email "")))
                (trim (sor_lit b_displayName "")) hash now rnd))
       (set_USERS
          (USERS w ++ [new_local_user
                         (normalizeEmail (Some (sor_lit b_email "")))
                         (trim (sor_lit b_displayName "")) hash now rnd])
          w))
    (set_userId
       (Some (u_id (new_local_user
                      (normalizeEmail (Some (sor_lit b_email "")))
                      (trim (sor_lit b_displayName "")) hash now rnd))) s))
    as Hm.
  destruct (mergeGuestLikesIntoUser _ _ _) as [w2 s2]. cbn [fst snd] in *.
  by rewrite Hm, ensure_likes_USERS.
Qed.

(** X5. After a registration that succeeded, registering an address with
    the same normalized form is refused, with the duplicate-email error when
    the passwords are acceptable, and creates no record. *)
Theorem register_twice b_next b_email b_displayName b_password b_password2
    hash now rnd (w : Store) (s : Session)
    b_next' b_email' b_displayName' b_password' b_password2' hash' now' rnd'
    (s' : Session) :
  let w1 := (post_register b_next b_email b_displayName b_password
               b_password2 hash now rnd w s).1.2 in
  is_redirect (post_register b_next b_email b_displayName b_password
                 b_password2 hash now rnd w s).1.1 = true →
  normalizeEmail (Some (sor_lit b_email' ""))
  = normalizeEmail (Some (sor_lit b_email "")) →
  ∃ e, post_register b_next' b_email' b_displayName' b_password'
         b_password2' hash' now' rnd' w1 s' = (RedirectRegister e, w1, s')
    ∧ ((String.eqb (sor_lit b_password' "") ""
        || Nat.ltb (String.length (sor_lit b_password' "")) 6) = false →
       String.eqb (sor_lit b_password' "") (sor_lit b_password2' "") = true →
       e = DuplicateEmail).
Proof.
  cbv zeta.
  intros [Hok Hus]%post_register_success Hsame.
  set (w1 := (post_register b_next b_email b_displayName b_password
                b_password2 hash now rnd w s).1.2) in *.
  set (email := normalizeEmail (Some (sor_lit b_email ""))) in *.
  assert (Hne : email ≠ "").
  { apply orb_false_iff in Hok as [[?%eqb_false _]%orb_false_iff _]. done. }
  assert (Hdup : is_Some (findUserByEmailAnyProvider (Some email) (USERS w1))).
  { unfold findUserByEmailAnyProvider. unfold email.
    rewrite normalizeEmail_idemp by done. fold email.
    rewrite (proj2 (eqb_false email "") Hne), Hus.
    eapply list_find_elem_of.
    - apply elem_of_app. right. apply list_elem_of_singleton. done.
    - cbn [new_local_user u_email]. apply normalizeEmail_idemp, Hne. }
  unfold post_register. cbv zeta. rewrite Hsame. fold email. rewrite Hok.
  destruct (String.eqb (sor_lit b_password' "") "" || _) eqn:E2;
    [by eexists|].
  destruct (String.eqb (sor_lit b_password' "") (sor_lit b_password2' ""))
    eqn:E3; cbn [negb]; [|by eexists].
  destruct Hdup as [[k v] ->]. by eexists.
Qed.

End Scenarios.

(** ** Runs on the reference runtime *)

(** A VK user recorded with an e-mail address. *)
Definition vk_user : User :=
  mkUser "u_07" "vk" (Some "7") (Some "ann@x.io") (Some "Ann") None "user"
    None None None (Some "t0").

Definition vk_store : Store := mkStore [vk_user] ∅ [] [].

(** C1 as stated fails: on the direct-match path the incoming values do
    not overwrite unconditionally. VK reports no e-mail and no avatar for
    user 7; the record found by provider identity keeps its address. *)
Lemma upsert_direct_keeps_email :
  list_find (λ u, direct_match "vk" "7" u) (USERS vk_store) = Some (0, vk_user)
  ∧ u_email (upsertOauthUser "vk" (JNum 7) None (Some "Ann V") None
               "t1" "01" vk_store).1 = Some "ann@x.io"
  ∧ u_email (upsertOauthUser "vk" (JNum 7) None (Some "Ann V") None
               "t1" "01" vk_store).1 ≠ None.
Proof. vm_compute. by split_and!. Qed.

(** The session of a visitor who started a Google login from [/library]. *)
Definition google_session : Session :=
  get_auth "google" "st" (Some "/library") run_session0.

Definition google_profile : Exchange :=
  Profile (JStr "g1") (Some "a@x.io") (Some "Ann") None.

(** C3 as stated fails: the state is not single-use. After a callback that
    completed, the state recorded for the provider is still in the session,
    and a second callback that presents it is accepted. *)
Lemma oauth_state_is_reusable :
  let first := get_auth_callback "google" (Some "st") (Some "code1")
                 google_profile "t2" "02" run_store1 google_session in
  let second := get_auth_callback "google" (Some "st") (Some "code2")
                  google_profile "t3" "03" first.1.2 first.2 in
  first.1.1 = Redirect "/library"
  ∧ recorded_state "google" first.2 = Some "st"
  ∧ recorded_next "google" first.2 = None
  ∧ second.1.1 = Redirect "/"
  ∧ second.1.1 ≠ Status 400.
Proof. vm_compute. by split_and!. Qed.

Lemma oauth_callback_consumes_next_witness :
  let r := (get_auth_callback "google" (Some "st") (Some "code1")
              google_profile "t2" "02" run_store1 google_session).1.1 in
  let s' := (get_auth_callback "google" (Some "st") (Some "code1")
               google_profile "t2" "02" run_store1 google_session).2 in
  r = Redirect (sanitizeNextUrl
                  (Some (sor_lit (recorded_next "google" google_session) "/")))
  ∧ recorded_next "google" s' = None
  ∧ (consumeOauthNext "google" s').1 = "/"
  ∧ (∀ other, other ≠ "google" →
       recorded_next other s' = recorded_next other google_session)
  ∧ oauthStates s' = oauthStates google_session
  ∧ recorded_state "google" s' = recorded_state "google" google_session
  ∧ checkOauthState "google" (Some "st") s' = true.
Proof.
  apply (oauth_callback_consumes_next "google" (Some "st") (Some "code1")
           google_profile "t2" "02" run_store1 google_session).
  vm_compute. reflexivity.
Defined.

(** The scenario of the specification: a guest likes [t1], then unlikes
    it. *)
Definition t1_track : Track := {[ "id" := JStr "t1" ]}.
Definition t1_store : Store := mkStore [] ∅ [t1_track] [].

Example like_twice_as_guest :
  let first := post_api_like "t1" t1_store run_session0 in
  let second := post_api_like "t1" first.1.2 first.2 in
  first.1.1 = JsonLike true ["t1"] true
  ∧ second.1.1 = JsonLike false [] true.
Proof. vm_compute. by split. Qed.

(** Guest likes [A, B] merged into a user who likes [B, C]. *)
Example merge_guest_likes :
  let w := mkStore [] {[ "u" := ["B"; "C"] ]} [] [] in
  let s := mkSession None (Some ["A"; "B"]) None None in
  getUserLikes "u" (mergeGuestLikesIntoUser "u" w s).1 = ["B"; "C"; "A"]
  ∧ guestLikes (mergeGuestLikesIntoUser "u" w s).2 = Some [].
Proof. vm_compute. by split. Qed.

(** A legacy track without a status but with [published: false] is pending
    once normalized, and hidden from a guest who tries to like it. *)
Example like_hidden_track :
  let w := mkStore [] ∅ [ {[ "id" := JStr "t9"; "published" := JBool false ]} ] [] in
  post_api_like "t9" w run_session0 = (JsonError 403, w, run_session0)
  ∧ post_api_like "t8" w run_session0 = (JsonError 404, w, run_session0).
Proof. vm_compute. by split. Qed.

(** Cy registers beside Ann, whose record carries a Google link, and Bob:
    a third record is appended under an address that neither has, and the
    invariant is kept. *)
Lemma post_register_preserves_invariant_witness :
  let w' := (post_register None (Some " Cy@X.io") (Some "Cy") (Some "secret5")
               (Some "secret5") "salt5:hash5" "t5" "05" run_store3
               run_session0).1.2 in
  (users_invariant (USERS w')
   ∧ (USERS w' = USERS run_store3
      ∨ ∃ new, USERS w' = (USERS run_store3 ++ [new])%list
          ∧ u_provider new = "local"
          ∧ normalizeEmail (u_email new) ≠ ""
          ∧ Forall (λ u, normalizeEmail (u_email u)
                         ≠ normalizeEmail (u_email new)) (USERS run_store3)))
  ∧ u_email <$> USERS w' = [Some "a@x.io"; Some "b@x.io"; Some "cy@x.io"]
  ∧ u_provider <$> USERS w' = ["local"; "local"; "local"].
Proof.
  split.
  - apply (post_register_preserves_invariant None (Some " Cy@X.io")
             (Some "Cy") (Some "secret5") (Some "secret5") "salt5:hash5" "t5"
             "05" run_store3 run_session0).
    apply run_store3_invariant.
  - vm_compute. by split.
Defined.

(** Ann logs in with Google again, her address unchanged. *)
Lemma upsertOauthUser_preserves_invariant_witness :
  users_invariant
    (USERS (upsertOauthUser "google" (JStr "g1") (Some "a@x.io") (Some "Ann")
              None "t4" "04" run_store3).2).
Proof.
  apply (upsertOauthUser_preserves_invariant "google" (JStr "g1")
           (Some "a@x.io") (Some "Ann") None "t4" "04" run_store3).
  - apply run_store3_invariant.
  - done.
  - rewrite run_store3_users. intros u Hu Hp.
    repeat (apply elem_of_cons in Hu as [->|Hu]; [done|]).
    by apply elem_of_nil in Hu.
  - intros i existing Hf _ _. vm_compute in Hf. injection Hf as <- <-.
    vm_compute. reflexivity.
Defined.

(** A forged state is refused. *)
Lemma oauth_bad_state_witness :
  get_auth_callback "google" (Some "forged") (Some "code1") google_profile
    "t2" "02" run_store1 google_session
  = (Status 400, run_store1, google_session).
Proof.
  apply (oauth_bad_state "google" (Some "forged") (Some "code1")
           google_profile "t2" "02" run_store1 google_session).
  vm_compute. discriminate.
Defined.

(** Ann registers; somebody registers her address again, spelled with
    capitals and blanks. *)
Lemma register_twice_witness :
  ∃ e, post_register None (Some " A@X.io ") (Some "Eve") (Some "secret9")
         (Some "secret9") "salt9:hash9" "t9" "09" run_store1 run_session0
       = (RedirectRegister e, run_store1, run_session0)
    ∧ ((String.eqb (sor_lit (Some "secret9") "") ""
        || Nat.ltb (String.length (sor_lit (Some "secret9") "")) 6) = false →
       String.eqb (sor_lit (Some "secret9") "") (sor_lit (Some "secret9") "")
       = true →
       e = DuplicateEmail).
Proof.
  apply (register_twice None (Some "a@x.io") (Some "Ann") (Some "secret1")
           (Some "secret1") "salt1:hash1" "t1" "01" run_store0 run_session0
           None (Some " A@X.io ") (Some "Eve") (Some "secret9")
           (Some "secret9") "salt9:hash9" "t9" "09" run_session0).
  - vm_compute. reflexivity.
  - vm_compute. reflexivity.
Defined.

(** An admin moderates: the demo admin, a pending upload [t1] of artist
    [a1], a legacy track [t2] without any of the defaulted properties, and a
    playlist that refers to both. *)
Definition demo_admin : User :=
  mkUser "u_admin" "local" None (Some "admin@soundhub.local") (Some "Admin")
    None "admin" None (Some "salt:hash") None None.

Definition admin_session : Session := mkSession (Some "u_admin") None None None.

Definition admin_store : Store :=
  mkStore [demo_admin] ∅
    [ {[ "id" := JStr "t1"; "status" := JStr "pending";
         "artistId" := JStr "a1" ]};
      {[ "id" := JStr "t2"; "title" := JStr "Old" ]} ]
    [ mkPlaylist "p1" (Some ["t1"; "t2"; "t1"]) ∅ ].

Example admin_moderates :
  let approved := (post_admin_tracks_approve "t1" "now1" admin_store
                     admin_session).2 in
  let rejected := (post_admin_tracks_reject "t1" "now2" approved
                     admin_session).2 in
  let deleted := (post_admin_tracks_delete "t1" rejected admin_session).2 in
  (get "status" <$> TRACKS approved = [JStr "published"; JStr "published"])
  ∧ (get "publishedAt" <$> TRACKS approved = [JStr "now1"; JUndef])
  ∧ (get "plays" <$> TRACKS approved = [JNum 0; JNum 0])
  ∧ (get "title" <$> TRACKS approved = [JUndef; JStr "Old"])
  ∧ (get "status" <$> TRACKS rejected = [JStr "rejected"; JStr "published"])
  ∧ (get "rejectedAt" <$> TRACKS rejected = [JStr "now2"; JUndef])
  ∧ (get "id" <$> TRACKS deleted = [JStr "t2"])
  ∧ (p_trackIds <$> PLAYLISTS deleted = [Some ["t2"]])
  ∧ post_admin_tracks_approve "t7" "now3" admin_store admin_session
    = (Status 404, admin_store)
  ∧ post_admin_tracks_approve "t1" "now3" admin_store run_session0
    = (RedirectLogin, admin_store).
Proof. vm_compute. by split_and!. Qed.

(** C10 as stated fails: not only missing properties are filled in. The
    track [t2] has a duration, a play count and a cover, but the duration
    is the number 0, the count is the string [abc] and the cover is the
    empty string; when the admin approves [t1], all three are overwritten
    with the defaults, while the title stays. *)
Definition legacy_store : Store :=
  mkStore [demo_admin] ∅
    [ {[ "id" := JStr "t1"; "status" := JStr "pending" ]};
      {[ "id" := JStr "t2"; "title" := JStr "Old"; "duration" := JNum 0;
         "plays" := JStr "abc"; "cover" := JStr "" ]} ]
    [].

Lemma approve_overwrites_present_values :
  let approved := (post_admin_tracks_approve "t1" "now1" legacy_store
                     admin_session).2 in
  (post_admin_tracks_approve "t1" "now1" legacy_store admin_session).1
  = Redirect "/admin"
  ∧ (get "id" <$> TRACKS legacy_store !! 1%nat) = Some (JStr "t2")
  ∧ (TRACKS legacy_store !! 1%nat ≫= (.!! "duration")) = Some (JNum 0)
  ∧ (TRACKS approved !! 1%nat ≫= (.!! "duration")) = Some (JStr "0:00")
  ∧ (TRACKS legacy_store !! 1%nat ≫= (.!! "plays")) = Some (JStr "abc")
  ∧ (TRACKS approved !! 1%nat ≫= (.!! "plays")) = Some (JNum 0)
  ∧ (TRACKS legacy_store !! 1%nat ≫= (.!! "cover")) = Some (JStr "")
  ∧ (TRACKS approved !! 1%nat ≫= (.!! "cover"))
    = Some (JStr "/assets/covers/default.png")
  ∧ (TRACKS approved !! 1%nat ≫= (.!! "title")) = Some (JStr "Old").
Proof. vm_compute. by split_and!. Qed.


(** * The rest of the server, and the scripts of the pages

    The routes and helpers that the properties above did not need: password
    hashing, local login, the pages that list tracks and playlists, the
    upload of a track, the deletion of a playlist; then the two scripts
    that run in the browser. *)

(** ** Passwords *)

(** [buf.toString('hex')] and [Buffer.from(s, 'hex')]: two lower-case
    digits per byte; decoding reads pairs of digits of either case and stops
    at the first pair that is not one. *)
Definition hex_digit (n : N) : Ascii.ascii :=
  if (n <? 10)%N then Ascii.ascii_of_N (48 + n) else Ascii.ascii_of_N (87 + n).

Definition hex_value (c : Ascii.ascii) : option N :=
  let n := Ascii.N_of_ascii c in
  if (48 <=? n)%N && (n <=? 57)%N then Some (n - 48)%N
  else if (97 <=? n)%N && (n <=? 102)%N then Some (n - 87)%N
  else if (65 <=? n)%N && (n <=? 70)%N then Some (n - 55)%N
  else None.

#[global] Instance byte_eq_dec : EqDecision Byte.byte := Byte.byte_eq_dec.

Fixpoint toHex (bs : list Byte.byte) : string :=
  match bs with
  | [] => EmptyString
  | b :: bs =>
    String (hex_digit (Byte.to_N b / 16))
      (String (hex_digit (Byte.to_N b mod 16)) (toHex bs))
  end.

Fixpoint fromHex (s : string) : list Byte.byte :=
  match s with
  | String a (String b r) =>
    match hex_value a, hex_value b with
    | Some x, Some y =>
      match Byte.of_N (16 * x + y) with
      | Some byte => byte :: fromHex r
      | None => []
      end
    | _, _ => []
    end
  | _ => []
  end.

(** [crypto.scryptSync(password, salt, keylen)], a key of [keylen] bytes. *)
Class Crypto := {
  scryptSync : string → string → nat → list Byte.byte;
  scryptSync_length password salt keylen :
    length (scryptSync password salt keylen) = keylen;
}.

Definition colon : Ascii.ascii := Ascii.ascii_of_nat 58.

(** What follows the first [c] in [s]: with [split_head], the first two
    components of [s.split(c)]. *)
Fixpoint after_first (c : Ascii.ascii) (s : string) : string :=
  match s with
  | EmptyString => EmptyString
  | String a r => if Ascii.eqb a c then r else after_first c r
  end.

Section Passwords.
Context `{Crypto}.

(** [hashPassword(password, salt)]; the salt is 16 random bytes in
    hexadecimal unless the caller gives one. *)
Definition hashPassword (password salt : string) : string :=
  salt ++ String colon (toHex (scryptSync password salt 64)).

Definition verifyPassword (password : string) (stored : option string) : bool :=
  match stored with
  | None => false
  | Some stored =>
    if String.eqb stored "" || negb (includes_char colon stored) then false
    else
      let salt := split_head colon stored in
      let hash := split_head colon (after_first colon stored) in
      let candidate := toHex (scryptSync password salt 64) in
      let a := fromHex hash in
      let b := fromHex candidate in
      if negb (Nat.eqb (length a) (length b)) then false
      else bool_decide (a = b)
  end.

End Passwords.

(** ** Local login *)

(** The two answers of [POST /login]. *)
Inductive LoginReply :=
| LoginFailed (next : string)      (* res.redirect(`/login?error=..&next=..`) *)
| LoggedIn (next : string).        (* res.redirect(nextUrl) *)

Section Login.
Context `{JsBuiltins} `{Crypto}.

(** [POST /login] *)
Definition post_login (b_next b_email b_password : option string)
    (w : Store) (s : Session) : LoginReply * Store * Session :=
  let nextUrl := sanitizeNextUrl (Some (sor_lit b_next "/")) in
  let email := trim (sor_lit b_email "") in
  let password := sor_lit b_password "" in
  match findUserByEmail (Some email) (USERS w) with
  | Some (_, user) =>
    if verifyPassword password (u_passwordHash user) then
      let s := set_userId (Some (u_id user)) s in
      let '(w, s) := mergeGuestLikesIntoUser (u_id user) w s in
      (LoggedIn nextUrl, w, s)
    else (LoginFailed nextUrl, w, s)
  | None => (LoginFailed nextUrl, w, s)
  end.

End Login.

(** ** Pages

    A page handler ends in [res.render(view, params)]; its model returns
    the parameters that list tracks or playlists.  The titles and sublines,
    and the flags and author records that depend on the artist's entry in
    [authors.json], are left to the templates. *)

Inductive PageReply (A : Type) :=
| NotFound            (* res.status(404).send(..) *)
| Throws              (* a TypeError on the way: the framework answers 500 *)
| Page (params : A).  (* res.render(view, params) *)

#[global] Arguments NotFound {A}.
#[global] Arguments Throws {A}.
#[global] Arguments Page {A} params.

(** [set.has(t.id)] for [set = new Set(likedIds)], a set of strings *)
Definition is_liked (likedIds : list string) (t : Track) : bool :=
  match get "id" t with
  | JStr i => Set_has i (Set_from likedIds)
  | _ => false
  end.

Definition withLikeFlag (tracks : list Track) (likedIds : list string)
  : list Track :=
  (λ t, <["isLiked" := JBool (is_liked likedIds t)]> t) <$> tracks.

(** [(t.status || 'published') === status] *)
Definition in_queue (status : string) (t : Track) : Prop :=
  jor (get "status" t) (JStr "published") = JStr status.

#[global] Instance in_queue_dec status t : Decision (in_queue status t).
Proof. unfold in_queue. apply _. Defined.

Section Pages.
Context `{JsBuiltins}.

(** [authorById[artistId]?.name || 'Unknown']: the name [authors.json]
    gives for an artist id. *)
Variable artistName : JsVal → JsVal.

Definition with_artist (t : Track) : Track :=
  <["artist" := artistName (get "artistId" t)]> t.

(** [hydrate(req).tracks] *)
Definition hydrate (w : Store) (s : Session) : list Track :=
  let user := getCurrentUser w s in
  let tracksRaw := normalizeTrack <$> TRACKS w in
  with_artist <$> filter (λ t, isTrackVisibleToUser t user = true) tracksRaw.

(** [res.locals.effectiveLikes], computed before every route. *)
Definition effectiveLikes (w : Store) (s : Session) : list string :=
  (getEffectiveLikes w s).1.

(** [GET /search]: [results] *)
Definition get_search (w : Store) (s : Session) : list Track :=
  withLikeFlag (hydrate w s) (effectiveLikes w s).

(** [GET /library]: [likedTracks] *)
Definition get_library (w : Store) (s : Session) : list Track :=
  let tracks := hydrate w s in
  let likedIds := effectiveLikes w s in
  withLikeFlag (filter (λ t, is_liked likedIds t = true) tracks) likedIds.

(** [GET /track/:id]: [track] and [related] *)
Definition get_track (id : string) (w : Store) (s : Session)
  : PageReply (Track * list Track) :=
  let user := getCurrentUser w s in
  let allTracks := normalizeTrack <$> TRACKS w in
  match list_find (has_id id) allTracks with
  | None => NotFound
  | Some (_, trackRaw) =>
    if negb (isTrackVisibleToUser trackRaw user) then NotFound
    else
      let track := with_artist trackRaw in
      let visibleTracks := hydrate w s in
      let liked := effectiveLikes w s in
      let related :=
        withLikeFlag
          (take 4 (filter (λ t, get "id" t ≠ get "id" track) visibleTracks))
          liked in
      Page (<["isLiked" := JBool (is_liked liked track)]> track, related)
  end.

(** [GET /playlists]: every playlist with its [visibleCount] *)
Definition get_playlists (w : Store) (s : Session) : list (Playlist * nat) :=
  let tracks := hydrate w s in
  let trackSet := get "id" <$> tracks in
  (λ p, (p, match p_trackIds p with
            | Some l => length (filter (λ id, JStr id ∈ trackSet) l)
            | None => 0%nat
            end)) <$> PLAYLISTS w.

(** [GET /playlist/:id]: [playlist], [items], and the two counts of the
    subline.  A [trackIds] that is not an array is kept among the other
    properties; [playlist.trackIds || []] lets a falsy one pass for the
    empty list, and a truthy one has no [map]. *)
Definition get_playlist (id : string) (w : Store) (s : Session)
  : PageReply (Playlist * list Track * nat * nat) :=
  let tracks := hydrate w s in
  match list_find (λ p, p_id p = id) (PLAYLISTS w) with
  | None => NotFound
  | Some (_, playlist) =>
    let render (trackIds : list string) :=
      let items :=
        withLikeFlag
          (omap (λ id, snd <$> list_find (has_id id) tracks) trackIds)
          (effectiveLikes w s) in
      Page (playlist, items, length items, length trackIds) in
    match p_trackIds playlist with
    | Some l => render l
    | None =>
      if truthy (get "trackIds" (p_rest playlist)) then Throws else render []
    end
  end.

(** [GET /admin]: [pending], [rejected] and [playlists] *)
Definition get_admin (w : Store) (s : Session)
  : Response + (list Track * list Track * list Playlist) :=
  match requireRole "admin" w s with
  | Some r => inl r
  | None =>
    let tracks := hydrate w s in
    inr (filter (in_queue "pending") tracks,
         filter (in_queue "rejected") tracks,
         PLAYLISTS w)
  end.

(** [GET /api/me]: the five properties of the user, or [null], and
    [likes]. *)
Definition get_api_me (w : Store) (s : Session)
  : option (string * option string * option string * string * string)
    * list string :=
  (match getCurrentUser w s with
   | Some user =>
     Some (u_id user, u_email user, u_displayName user, u_role user,
           u_provider user)
   | None => None
   end,
   (getEffectiveLikes w s).1).

End Pages.

(** ** Uploading a track, deleting a playlist *)

(** What the upload middleware hands over: an error, or the names under
    which it stored the two optional files. *)
Inductive Upload :=
| UploadFailed
| Uploaded (audioFile coverFile : option string).

Inductive UploadReply :=
| UploadDenied (r : Response)   (* requireRole('artist') answered *)
| UploadError                   (* res.redirect(`/artist/upload?error=<msg>`) *)
| NoArtistId                    (* res.status(400).send(..) *)
| NoTitle                       (* res.redirect(`/artist/upload?error=..`) *)
| UploadAccepted.               (* res.redirect(`/artist/upload?success=..`) *)

Section Upload.
Context `{JsBuiltins}.

(** The object literal [newTrack]. *)
Definition newTrack (id title : string) (artistId : JsVal)
    (genre duration cover audio now submittedBy : string) : Track :=
  <["id" := JStr id]> (
  <["title" := JStr title]> (
  <["artistId" := artistId]> (
  <["genre" := JStr genre]> (
  <["duration" := JStr duration]> (
  <["cover" := JStr cover]> (
  <["audio" := JStr audio]> (
  <["plays" := JNum 0]> (
  <["likes" := JNum 0]> (
  <["status" := JStr "pending"]> (
  <["createdAt" := JStr now]> (
  <["submittedBy" := JStr submittedBy]> ∅))))))))))).

(** [POST /artist/upload]; [id] is the result of [newTrackId()]. *)
Definition post_artist_upload (files : Upload)
    (b_title b_genre b_duration : option string) (id now : string)
    (w : Store) (s : Session) : UploadReply * Store :=
  match requireRole "artist" w s with
  | Some r => (UploadDenied r, w)
  | None =>
    match files with
    | UploadFailed => (UploadError, w)
    | Uploaded audioFile coverFile =>
      match getCurrentUser w s with
      | None => (NoArtistId, w)
      | Some user =>
        if negb (struthy (u_artistId user)) then (NoArtistId, w)
        else
          let title := trim (sor_lit b_title "") in
          let genre := sor_lit (Some (trim (sor_lit b_genre ""))) "Unknown" in
          let duration := sor_lit (Some (trim (sor_lit b_duration ""))) "0:00" in
          if String.eqb title "" then (NoTitle, w)
          else
            let audio := match audioFile with
                         | Some f => "/uploads/audio/" ++ f
                         | None => "/audio/sample.wav"
                         end in
            let cover := match coverFile with
                         | Some f => "/uploads/covers/" ++ f
                         | None => "/assets/covers/default.png"
                         end in
            let tracks := normalizeTrack <$> TRACKS w in
            let new := newTrack id title (js_of_opt (u_artistId user)) genre
                         duration cover audio now (u_id user) in
            (UploadAccepted, set_TRACKS (new :: tracks) w)
      end
    end
  end.

(** [POST /admin/playlists/:id/delete] *)
Definition post_admin_playlists_delete (id : string) (w : Store) (s : Session)
  : Response * Store :=
  match requireRole "admin" w s with
  | Some r => (r, w)
  | None =>
    let next := filter (λ p, p_id p ≠ id) (PLAYLISTS w) in
    (Redirect "/admin", set_PLAYLISTS next w)
  end.

End Upload.

(** * The scripts of the pages *)

(** ** The player: likes

    [likedSet] is the player's copy of the likes. [toggleLike] posts to
    [/api/like/<id>] and, when the answer is [ok], replaces the copy by the
    [likes] of the answer; any other answer leaves it alone. *)
Definition toggleLike (reply : Response) (likedSet : list string)
  : list string :=
  match reply with
  | JsonLike _ likes _ => foldl (λ s id, Set_add id s) [] likes
  | _ => likedSet
  end.

(** ** The command palette

    The state of the script is [activeIdx], [filtered] and whether the
    palette carries the class [open]. The page is taken to have the palette
    element: without it every listener returns before it touches the
    state. The header menu, the theme and the view toggles share nothing
    with the palette and are left out. *)

(** [s.includes(q)] *)
Fixpoint includes (s q : string) : bool :=
  startsWith s q
  || match s with
     | EmptyString => false
     | String _ r => includes r q
     end.

Inductive LinkSection := Navigation | PageLink.

(** An [a[href]] element of the page, and the entry made of it. *)
Record Anchor := mkAnchor {
  textContent : string;
  hrefAttribute : string;
  inTopNav : bool;
}.

Record Item := mkItem {
  title : string;
  href : string;
  section : LinkSection;
}.

Record Palette := mkPalette {
  isOpen : bool;
  activeIdx : Z;
  filtered : list Item;
}.

Record KeyEvent := mkKey {
  key : string;
  ctrlKey : bool;
  metaKey : bool;
}.

Inductive PaletteEvent :=
| ClickOpen                  (* click on the palette button *)
| ClickBackdrop              (* click on the palette itself *)
| Input (value : string)     (* input in the palette's field *)
| KeyDown (e : KeyEvent).

Section Palette.
Context `{JsBuiltins}.

Definition sourceLinks (anchors : list Anchor) : list Item :=
  take 120
    (filter (λ item, title item ≠ "" ∧ href item ≠ "" ∧ href item ≠ "#")
       ((λ a, mkItem (trim (sor_lit (Some (textContent a)) ""))
                     (sor_lit (Some (hrefAttribute a)) "#")
                     (if inTopNav a then Navigation else PageLink))
          <$> anchors)).

Variable anchors : list Anchor.

(** The state when the script has run. *)
Definition palette0 : Palette := mkPalette false 0 (sourceLinks anchors).

Definition openPalette (p : Palette) : Palette :=
  mkPalette true 0 (sourceLinks anchors).

Definition closePalette (p : Palette) : Palette :=
  mkPalette false (activeIdx p) (filtered p).

Definition onInput (value : string) (p : Palette) : Palette :=
  let q := toLowerCase (trim value) in
  mkPalette (isOpen p) 0
    (filter (λ item, includes (toLowerCase (title item)) q
                     || includes (toLowerCase (href item)) q = true)
       (sourceLinks anchors)).

(** [filtered[activeIdx]] *)
Definition active (p : Palette) : option Item :=
  if (activeIdx p <? 0)%Z then None
  else filtered p !! Z.to_nat (activeIdx p).

(** The [keydown] listener: the new state, and where the window goes. *)
Definition onKeyDown (e : KeyEvent) (p : Palette) : Palette * option string :=
  if (ctrlKey e || metaKey e) && String.eqb (toLowerCase (key e)) "k"
  then (openPalette p, None)
  else if negb (isOpen p) then (p, None)
  else if String.eqb (key e) "Escape" then (closePalette p, None)
  else if String.eqb (key e) "ArrowDown" then
    match filtered p with
    | [] => (p, None)
    | _ =>
      (mkPalette (isOpen p)
         (Z.rem (activeIdx p + 1) (Z.of_nat (length (filtered p))))
         (filtered p), None)
    end
  else if String.eqb (key e) "ArrowUp" then
    match filtered p with
    | [] => (p, None)
    | _ =>
      (mkPalette (isOpen p)
         (Z.rem (activeIdx p - 1 + Z.of_nat (length (filtered p)))
            (Z.of_nat (length (filtered p))))
         (filtered p), None)
    end
  else if String.eqb (key e) "Enter" then
    match active p with
    | Some target =>
      if String.eqb (href target) "" then (p, None)
      else (p, Some (href target))
    | None => (p, None)
    end
  else (p, None).

Definition palette_step (p : Palette) (ev : PaletteEvent) : Palette :=
  match ev with
  | ClickOpen => openPalette p
  | ClickBackdrop => closePalette p
  | Input value => onInput value p
  | KeyDown e => (onKeyDown e p).1
  end.

End Palette.

(** ** Passwords: properties *)

Lemma byte_hex (b : Byte.byte) (r : string) :
  fromHex (String (hex_digit (Byte.to_N b / 16))
             (String (hex_digit (Byte.to_N b mod 16)) r))
  = b :: fromHex r.
Proof. destruct b; reflexivity. Qed.

(** Decoding the hexadecimal form of a buffer gives the buffer back. *)
Lemma fromHex_toHex (bs : list Byte.byte) : fromHex (toHex bs) = bs.
Proof.
  induction bs as [|b bs IH]; [done|].
  cbn [toHex]. by rewrite byte_hex, IH.
Qed.

Lemma byte_hex_no_colon (b : Byte.byte) (r : string) :
  includes_char colon
    (String (hex_digit (Byte.to_N b / 16))
       (String (hex_digit (Byte.to_N b mod 16)) r))
  = includes_char colon r.
Proof. destruct b; reflexivity. Qed.

Lemma toHex_no_colon (bs : list Byte.byte) :
  includes_char colon (toHex bs) = false.
Proof.
  induction bs as [|b bs IH]; [done|].
  cbn [toHex]. by rewrite byte_hex_no_colon.
Qed.

Lemma split_head_whole (c : Ascii.ascii) (s : string) :
  includes_char c s = false → split_head c s = s.
Proof.
  induction s as [|a r IH]; [done|]. cbn [includes_char split_head].
  destruct (Ascii.eqb a c); [done|]. intros Hr. by rewrite IH.
Qed.

Lemma split_at_first (c : Ascii.ascii) (s r : string) :
  includes_char c s = false →
  split_head c (s ++ String c r) = s
  ∧ after_first c (s ++ String c r) = r
  ∧ includes_char c (s ++ String c r) = true.
Proof.
  induction s as [|a s IH]; simpl.
  - intros _. by rewrite Ascii.eqb_refl.
  - destruct (Ascii.eqb a c); [done|]. intros Hs.
    destruct (IH Hs) as (-> & -> & ->). done.
Qed.

Lemma append_nonempty (s : string) (a : Ascii.ascii) (r : string) :
  String.eqb (s ++ String a r) "" = false.
Proof. by destruct s. Qed.

Section PasswordProperties.
Context `{Crypto}.

(** X6. A password verifies against the hash made from it, whatever the
    salt, provided the salt holds no colon (a hexadecimal salt never
    does). *)
Theorem verifyPassword_hashPassword (password salt : string) :
  includes_char colon salt = false →
  verifyPassword password (Some (hashPassword password salt)) = true.
Proof.
  intros Hsalt. unfold verifyPassword, hashPassword.
  destruct (split_at_first colon salt
              (toHex (scryptSync password salt 64)) Hsalt) as (-> & -> & ->).
  rewrite append_nonempty. cbn [orb negb].
  rewrite (split_head_whole _ _ (toHex_no_colon _)).
  rewrite Nat.eqb_refl. cbn [negb]. by apply bool_decide_eq_true.
Qed.

(** X7. [verifyPassword] accepts exactly the stored strings that hold a
    colon and whose text between the first colon and the next decodes, as
    hexadecimal, to the 64-byte key derived from the password and the text
    before the first colon. It rejects an account that has no hash. *)
Theorem verifyPassword_accepts (password : string) (stored : option string) :
  (verifyPassword password stored = true ↔
     ∃ st, stored = Some st ∧ includes_char colon st = true
       ∧ fromHex (split_head colon (after_first colon st))
         = scryptSync password (split_head colon st) 64)
  ∧ (verifyPassword password stored = true →
     ∃ st, stored = Some st
       ∧ length (fromHex (split_head colon (after_first colon st))) = 64)
  ∧ verifyPassword password None = false.
Proof.
  assert (Hiff : verifyPassword password stored = true ↔
     ∃ st, stored = Some st ∧ includes_char colon st = true
       ∧ fromHex (split_head colon (after_first colon st))
         = scryptSync password (split_head colon st) 64).
  { unfold verifyPassword. destruct stored as [st|]; [|naive_solver].
    rewrite fromHex_toHex.
    destruct (String.eqb_spec st "") as [->|Hne]; cbn [orb].
    { split; [done|]. by intros (? & [= <-] & ? & _). }
    destruct (includes_char colon st) eqn:Hc; cbn [negb].
    2: { split; [done|]. intros (? & [= <-] & ? & _). congruence. }
    split.
    - destruct (negb _); [done|]. intros ?%bool_decide_eq_true. eauto.
    - intros (? & [= <-] & _ & ->). rewrite Nat.eqb_refl. cbn [negb].
      by apply bool_decide_eq_true. }
  split_and!; [done| |done].
  intros (st & -> & _ & Heq)%Hiff. exists st. split; [done|].
  rewrite Heq. apply scryptSync_length.
Qed.

End PasswordProperties.

(** ** Local login: properties *)

Lemma mergeGuestLikesIntoUser_frame (id : string) (w : Store) (s : Session) :
  USERS (mergeGuestLikesIntoUser id w s).1 = USERS w
  ∧ TRACKS (mergeGuestLikesIntoUser id w s).1 = TRACKS w
  ∧ PLAYLISTS (mergeGuestLikesIntoUser id w s).1 = PLAYLISTS w
  ∧ userId (mergeGuestLikesIntoUser id w s).2 = userId s.
Proof.
  unfold mergeGuestLikesIntoUser, getGuestLikes.
  by destruct (guestLikes s) as [[|g gs]|].
Qed.

Section LoginProperties.
Context `{JsBuiltins} `{Crypto}.

(** X8. [POST /login] succeeds exactly when the first local record with
    the normalized address exists and its stored hash verifies the password
    (a later record with the same address is never tried). A failed login
    changes neither the store nor the session. A successful one makes that
    record the session's user and merges the guest likes into its likes.
    Either way the users, tracks and playlists stay as they were and the
    redirect target is a same-origin path. *)
Theorem post_login_spec (b_next b_email b_password : option string)
    (w : Store) (s : Session) :
  let found := findUserByEmail (Some (trim (sor_lit b_email ""))) (USERS w) in
  let next := sanitizeNextUrl (Some (sor_lit b_next "/")) in
  same_origin_path next
  ∧ ((found = None
      ∨ (∃ i u, found = Some (i, u)
           ∧ verifyPassword (sor_lit b_password "") (u_passwordHash u) = false)) →
     post_login b_next b_email b_password w s = (LoginFailed next, w, s))
  ∧ (∀ i u, found = Some (i, u) →
       verifyPassword (sor_lit b_password "") (u_passwordHash u) = true →
       post_login b_next b_email b_password w s
       = (LoggedIn next,
          (mergeGuestLikesIntoUser (u_id u) w (set_userId (Some (u_id u)) s)).1,
          (mergeGuestLikesIntoUser (u_id u) w (set_userId (Some (u_id u)) s)).2)
       ∧ userId (post_login b_next b_email b_password w s).2 = Some (u_id u)
       ∧ u_provider u = "local"
       ∧ normalizeEmail (u_email u) = normalizeEmail (Some (trim (sor_lit b_email ""))))
  ∧ USERS (post_login b_next b_email b_password w s).1.2 = USERS w
  ∧ TRACKS (post_login b_next b_email b_password w s).1.2 = TRACKS w
  ∧ PLAYLISTS (post_login b_next b_email b_password w s).1.2 = PLAYLISTS w.
Proof.
  cbv zeta. unfold post_login. cbv zeta.
  split; [apply sanitizeNextUrl_ok|].
  destruct (findUserByEmail _ (USERS w)) as [[i u]|] eqn:Hf.
  - pose proof (mergeGuestLikesIntoUser_frame (u_id u) w
                  (set_userId (Some (u_id u)) s)) as (HU & HT & HP & Hid).
    destruct (verifyPassword _ (u_passwordHash u)) eqn:Hv.
    + destruct (mergeGuestLikesIntoUser _ _ _) as [w1 s1] eqn:Hm.
      cbn [fst snd] in *.
      split_and!; try done.
      * intros [?|(? & ? & [= <- <-] & ?)]; congruence.
      * intros ? ? [= <- <-] _.
        unfold findUserByEmail in Hf.
        apply list_find_Some in Hf as (_ & [Hp He] & _).
        rewrite Hm. by rewrite Hid.
    + split_and!; try done. intros ? ? [= <- <-] ?. congruence.
  - split_and!; done.
Qed.

End LoginProperties.

Section RegisterLogin.
Context `{JsBuiltins} `{Crypto}.

(** A registration that succeeded found nobody under the address. *)
Lemma post_register_success_guard b_next b_email b_displayName b_password
    b_password2 hash now rnd w s :
  is_redirect (post_register b_next b_email b_displayName b_password
                 b_password2 hash now rnd w s).1.1 = true →
  findUserByEmailAnyProvider
    (Some (normalizeEmail (Some (sor_lit b_email "")))) (USERS w) = None.
Proof.
  intros [_ Hus]%post_register_success.
  destruct (post_register_users b_next b_email b_displayName b_password
              b_password2 hash now rnd w s) as [Hsame|(_ & Hg & _)]; [|done].
  rewrite Hsame in Hus. apply (f_equal length) in Hus.
  rewrite length_app in Hus. cbn [length] in Hus. lia.
Qed.

(** X9. Somebody who registered can log in: after a registration that
    succeeded with a hash made from the password and a colon-free salt, a
    login with that password and an address that normalizes to the
    registered one succeeds, in any session, as the new user. *)
Theorem register_then_login b_next b_email b_displayName b_password
    b_password2 salt now rnd (w : Store) (s : Session)
    b_next' b_email' b_password' (s' : Session) :
  let hash := hashPassword (sor_lit b_password "") salt in
  let w1 := (post_register b_next b_email b_displayName b_password
               b_password2 hash now rnd w s).1.2 in
  is_redirect (post_register b_next b_email b_displayName b_password
                 b_password2 hash now rnd w s).1.1 = true →
  includes_char colon salt = false →
  normalizeEmail (Some (trim (sor_lit b_email' "")))
  = normalizeEmail (Some (sor_lit b_email "")) →
  sor_lit b_password' "" = sor_lit b_password "" →
  ∃ w2 s2,
    post_login b_next' b_email' b_password' w1 s'
    = (LoggedIn (sanitizeNextUrl (Some (sor_lit b_next' "/"))), w2, s2)
    ∧ userId s2 = Some ("u_" ++ rnd).
Proof.
  cbv zeta. intros Hreg Hsalt Hmail Hpw.
  pose proof (post_register_success_guard _ _ _ _ _ _ _ _ _ _ Hreg) as Hguard.
  apply post_register_success in Hreg as [Hok Hus]. cbv zeta in Hok, Hus.
  set (hash := hashPassword (sor_lit b_password "") salt) in *.
  set (w1 := (post_register b_next b_email b_displayName b_password
                b_password2 hash now rnd w s).1.2) in *.
  set (email := normalizeEmail (Some (sor_lit b_email ""))) in *.
  set (new := new_local_user email (trim (sor_lit b_displayName "")) hash
                now rnd) in *.
  assert (Hne : email ≠ "").
  { apply orb_false_iff in Hok as [[?%eqb_false _]%orb_false_iff _]. done. }
  assert (Hidem : normalizeEmail (Some email) = email).
  { by apply normalizeEmail_idemp. }
  assert (Hfind : findUserByEmail (Some (trim (sor_lit b_email' ""))) (USERS w1)
                  = Some (length (USERS w), new)).
  { unfold findUserByEmail. rewrite Hus, Hmail. fold email.
    apply list_find_Some. split_and!.
    - by rewrite lookup_app_r, Nat.sub_diag.
    - done.
    - cbn [new new_local_user u_email]. done.
    - intros j y Hj Hlt [_ Hy].
      rewrite lookup_app_l in Hj by done.
      unfold findUserByEmailAnyProvider in Hguard. rewrite Hidem in Hguard.
      rewrite (proj2 (eqb_false email "") Hne) in Hguard.
      apply list_find_None in Hguard. rewrite Forall_forall in Hguard.
      apply (Hguard y); [by eapply list_elem_of_lookup_2|done]. }
  assert (Hverify : verifyPassword (sor_lit b_password' "")
                      (u_passwordHash new) = true).
  { rewrite Hpw. cbn [new new_local_user u_passwordHash].
    unfold verifyPassword, hash, hashPassword.
    destruct (split_at_first colon salt
                (toHex (scryptSync (sor_lit b_password "") salt 64)) Hsalt)
      as (-> & -> & ->).
    rewrite append_nonempty. cbn [orb negb].
    rewrite (split_head_whole _ _ (toHex_no_colon _)), fromHex_toHex.
    rewrite Nat.eqb_refl. cbn [negb]. by apply bool_decide_eq_true. }
  unfold post_login. cbv zeta. rewrite Hfind, Hverify.
  pose proof (mergeGuestLikesIntoUser_frame (u_id new) w1
                (set_userId (Some (u_id new)) s')) as (_ & _ & _ & Hid).
  destruct (mergeGuestLikesIntoUser _ _ _) as [w2 s2]. cbn [fst snd] in *.
  exists w2, s2. split; [done|]. by rewrite Hid.
Qed.

End RegisterLogin.

(** ** What the pages show *)

Lemma normalizeTrack_status_truthy `{JsBuiltins} (t : Track) :
  truthy (get "status" (normalizeTrack t)) = true.
Proof.
  unfold get at 1. rewrite normalizeTrack_lookup.
  change (needs_default t "status") with (negb (truthy (get "status" t))).
  destruct (truthy (get "status" t)) eqn:E; cbn [negb]; [done|].
  cbn [default from_option]. unfold track_default.
  rewrite decide_True by done. by case_decide.
Qed.

(** Somebody who is neither admin nor artist sees a normalized track only
    when its status is [published]. *)
Lemma visible_published `{JsBuiltins} (t : Track) (user : option User) :
  (∀ u, user = Some u → u_role u ≠ "admin" ∧ u_role u ≠ "artist") →
  isTrackVisibleToUser (normalizeTrack t) user = true →
  get "status" (normalizeTrack t) = JStr "published".
Proof.
  intros Hu. unfold isTrackVisibleToUser, jor.
  rewrite normalizeTrack_status_truthy.
  case_decide as Hs; [done|].
  destruct user as [u|]; [|done].
  destruct (Hu u eq_refl) as [Ha Hb].
  rewrite (proj2 (eqb_false _ _) Ha), (proj2 (eqb_false _ _) Hb). done.
Qed.

Lemma visible_admin `{JsBuiltins} (t : Track) (u : User) :
  u_role u = "admin" → isTrackVisibleToUser t (Some u) = true.
Proof.
  intros Hr. unfold isTrackVisibleToUser. rewrite Hr.
  by case_decide.
Qed.

(** Visibility looks at two properties of a track only. *)
Lemma visible_insert `{JsBuiltins} (k : string) (v : JsVal) (t : Track)
    (u : option User) :
  k ≠ "status" → k ≠ "artistId" →
  isTrackVisibleToUser (<[k := v]> t) u = isTrackVisibleToUser t u.
Proof.
  intros. unfold isTrackVisibleToUser, get. by rewrite !lookup_insert_ne.
Qed.

Lemma is_liked_id (likedIds : list string) (id : string) (t : Track) :
  get "id" t = JStr id → is_liked likedIds t = bool_decide (id ∈ likedIds).
Proof.
  intros Hid. unfold is_liked, Set_has. rewrite Hid.
  apply bool_decide_ext, Set_from_elem.
Qed.

Lemma elem_of_withLikeFlag (r : Track) (l : list Track) (likedIds : list string) :
  r ∈ withLikeFlag l likedIds ↔
  ∃ t, t ∈ l ∧ r = <["isLiked" := JBool (is_liked likedIds t)]> t.
Proof. unfold withLikeFlag. rewrite list_elem_of_fmap. naive_solver. Qed.

Lemma length_withLikeFlag (l : list Track) (likedIds : list string) :
  length (withLikeFlag l likedIds) = length l.
Proof. unfold withLikeFlag. by rewrite length_fmap. Qed.

Lemma length_omap_le {A B} (f : A → option B) (l : list A) :
  (length (omap f l) ≤ length l)%nat.
Proof.
  induction l as [|x l IH]; [done|]. cbn [omap list_omap length].
  destruct (f x); cbn [length]; lia.
Qed.

Lemma length_omap_full {A B} (f : A → option B) (l : list A) :
  length (omap f l) = length l ↔ Forall (λ x, is_Some (f x)) l.
Proof.
  induction l as [|x l IH]; [by split|]. cbn [omap list_omap length].
  rewrite Forall_cons. pose proof (length_omap_le f l) as Hle.
  destruct (f x) as [y|] eqn:E; cbn [length].
  - split.
    + intros [=Hl]. split; [by eexists|]. by apply IH.
    + intros [_ Hall]. f_equal. by apply IH.
  - split; [intros; lia|]. by intros [[? [=]] _].
Qed.

Section PageProperties.
Context `{JsBuiltins}.
Variable artistName : JsVal → JsVal.

Lemma with_artist_get (k : string) (t : Track) :
  k ≠ "artist" → get k (with_artist artistName t) = get k t.
Proof. intros. unfold with_artist, get. by rewrite lookup_insert_ne. Qed.

Lemma visible_with_artist (t : Track) (u : option User) :
  isTrackVisibleToUser (with_artist artistName t) u = isTrackVisibleToUser t u.
Proof. unfold isTrackVisibleToUser. by rewrite !with_artist_get. Qed.

Lemma has_id_with_artist (id : string) (t : Track) :
  has_id id (with_artist artistName t) ↔ has_id id t.
Proof. unfold has_id. by rewrite with_artist_get. Qed.

Lemma elem_of_hydrate (w : Store) (s : Session) (t : Track) :
  t ∈ hydrate artistName w s ↔
  ∃ t0, t0 ∈ TRACKS w ∧ t = with_artist artistName (normalizeTrack t0)
        ∧ isTrackVisibleToUser (normalizeTrack t0) (getCurrentUser w s) = true.
Proof.
  unfold hydrate. rewrite list_elem_of_fmap. split.
  - intros (n & -> & [Hv (t0 & -> & Hin)%list_elem_of_fmap]%list_elem_of_filter).
    eauto.
  - intros (t0 & Hin & -> & Hv). eexists. split; [done|].
    apply list_elem_of_filter. split; [done|]. apply list_elem_of_fmap. eauto.
Qed.

Lemma hydrate_ids_sublist (w : Store) (s : Session) :
  (get "id" <$> hydrate artistName w s) `sublist_of` (get "id" <$> TRACKS w).
Proof.
  unfold hydrate. rewrite <- !list_fmap_compose.
  induction (TRACKS w) as [|t0 l IH]; [done|].
  rewrite fmap_cons, filter_cons. case_decide.
  - rewrite !fmap_cons. cbn [compose].
    rewrite with_artist_get, normalizeTrack_id by done.
    by apply sublist_skip.
  - rewrite fmap_cons. by apply sublist_cons.
Qed.

(** X10. The track list of every page holds exactly the stored tracks the
    requester may see, normalized and in the stored order; for a guest or
    an ordinary user every one of them is published, and an admin gets all
    of them. *)
Theorem hydrate_visible (w : Store) (s : Session) :
  let user := getCurrentUser w s in
  let shown := hydrate artistName w s in
  (∀ t, t ∈ shown ↔
        ∃ t0, t0 ∈ TRACKS w ∧ t = with_artist artistName (normalizeTrack t0)
              ∧ isTrackVisibleToUser (normalizeTrack t0) user = true)
  ∧ (get "id" <$> shown) `sublist_of` (get "id" <$> TRACKS w)
  ∧ Forall (λ t, isTrackVisibleToUser t user = true) shown
  ∧ ((∀ u, user = Some u → u_role u ≠ "admin" ∧ u_role u ≠ "artist") →
       Forall (λ t, get "status" t = JStr "published") shown)
  ∧ ((∃ u, user = Some u ∧ u_role u = "admin") →
       get "id" <$> shown = get "id" <$> TRACKS w).
Proof.
  cbv zeta. split_and!.
  - apply elem_of_hydrate.
  - apply hydrate_ids_sublist.
  - apply Forall_forall. intros t (t0 & _ & -> & Hv)%elem_of_hydrate.
    by rewrite visible_with_artist.
  - intros Hu. apply Forall_forall.
    intros t (t0 & _ & -> & Hv)%elem_of_hydrate.
    rewrite with_artist_get by done. by apply visible_published in Hv.
  - intros (u & Hu & Hr). unfold hydrate. rewrite Hu.
    rewrite <- !list_fmap_compose.
    induction (TRACKS w) as [|t0 l IH]; [done|].
    rewrite fmap_cons, filter_cons, decide_True by by apply visible_admin.
    rewrite !fmap_cons. cbn [compose].
    rewrite with_artist_get, normalizeTrack_id by done. by f_equal.
Qed.

(** X11. The page of a track opens exactly when the track can be liked: it
    answers NotFound when the like answers 404 or 403, so that a hidden
    track looks like a missing one. A page that opens shows the first
    stored track with the id, which the requester may see, flagged as liked
    exactly when the id is among the requester's likes, and up to four
    other tracks, each visible to the requester. *)
Theorem get_track_spec (id : string) (w : Store) (s : Session) :
  let user := getCurrentUser w s in
  (get_track artistName id w s = NotFound ↔
   ∃ code, (post_api_like id w s).1.1 = JsonError code)
  ∧ get_track artistName id w s ≠ Throws
  ∧ ∀ t related, get_track artistName id w s = Page (t, related) →
      (∃ i t0, list_find (has_id id) (TRACKS w) = Some (i, t0)
               ∧ ∀ k, k ≠ "artist" → k ≠ "isLiked" →
                      t !! k = normalizeTrack t0 !! k)
      ∧ get "id" t = JStr id
      ∧ isTrackVisibleToUser t user = true
      ∧ get "isLiked" t = JBool (bool_decide (id ∈ effectiveLikes w s))
      ∧ (length related ≤ 4)%nat
      ∧ Forall (λ r, get "id" r ≠ JStr id
                     ∧ isTrackVisibleToUser r user = true) related.
Proof.
  cbv zeta. unfold get_track. rewrite find_normalized.
  destruct (list_find (has_id id) (TRACKS w)) as [[i t0]|] eqn:Hf.
  2:{ cbn [fmap option_fmap option_map]. split_and!; [|done|done].
      rewrite (post_api_like_missing _ _ _ Hf). naive_solver. }
  cbn [fmap option_fmap option_map prod_map fst snd].
  pose proof Hf as (_ & Hid & _)%list_find_Some.
  destruct (isTrackVisibleToUser (normalizeTrack t0) (getCurrentUser w s))
    eqn:Hv; cbn [negb].
  { assert (Hid' : get "id" (with_artist artistName (normalizeTrack t0))
                   = JStr id).
    { by rewrite with_artist_get, normalizeTrack_id. }
    split_and!; [|done|].
    - split; [done|]. intros [code Hc].
      destruct (getCurrentUser w s) as [u|] eqn:Hu.
      + rewrite (post_api_like_user id w s i t0 u) in Hc
          by (done || by rewrite Hu). done.
      + rewrite (post_api_like_guest id w s i t0) in Hc
          by (done || by rewrite Hu). done.
    - intros t related Heq.
      assert (Ht : t = <["isLiked" := JBool (is_liked (effectiveLikes w s)
                            (with_artist artistName (normalizeTrack t0)))]>
                         (with_artist artistName (normalizeTrack t0))) by congruence.
      assert (Hr : related = withLikeFlag
                (take 4 (filter (λ t, get "id" t
                           ≠ get "id" (with_artist artistName (normalizeTrack t0)))
                          (hydrate artistName w s))) (effectiveLikes w s))
        by congruence.
      clear Heq. subst t related. split_and!.
      + exists i, t0. split; [done|]. intros k ??.
        unfold with_artist. by rewrite !lookup_insert_ne.
      + unfold get. rewrite lookup_insert_ne by done. exact Hid'.
      + by rewrite visible_insert, visible_with_artist.
      + unfold get at 1. rewrite lookup_insert_eq.
        cbv [default from_option Datatypes.id]. f_equal. by apply is_liked_id.
      + unfold withLikeFlag. rewrite length_fmap, length_take. lia.
      + apply Forall_forall. intros r (t & Hin & ->)%elem_of_withLikeFlag.
        apply elem_of_take in Hin as (j & Hin%list_elem_of_lookup_2 & _).
        apply list_elem_of_filter in Hin as [Hne Hin].
        rewrite Hid' in Hne.
        apply elem_of_hydrate in Hin as (t1 & _ & -> & Hv1).
        split.
        * unfold get at 1. by rewrite lookup_insert_ne.
        * by rewrite visible_insert, visible_with_artist. }
  split_and!; [|done|done].
  split; [|done]. intros _.
  rewrite (post_api_like_hidden id w s i t0) by done. eauto.
Qed.

(** X12. The page of a playlist answers NotFound when no playlist has the
    id. When it opens it shows the first playlist with the id; every item
    is a track the requester may see whose id the playlist lists, flagged
    with the requester's like; the visible count is the number of items and
    never exceeds the total, and the two agree exactly when every listed id
    belongs to a track the requester may see. *)
Theorem get_playlist_spec (id : string) (w : Store) (s : Session) :
  let user := getCurrentUser w s in
  ((∀ p, p ∈ PLAYLISTS w → p_id p ≠ id) →
     get_playlist artistName id w s = NotFound)
  ∧ ∀ p items visible total,
      get_playlist artistName id w s = Page (p, items, visible, total) →
      let trackIds := default [] (p_trackIds p) in
      (∃ i, list_find (λ p, p_id p = id) (PLAYLISTS w) = Some (i, p))
      ∧ visible = length items ∧ total = length trackIds
      ∧ (visible ≤ total)%nat
      ∧ Forall (λ t, isTrackVisibleToUser t user = true
                     ∧ ∃ tid, tid ∈ trackIds ∧ get "id" t = JStr tid
                              ∧ get "isLiked" t
                                = JBool (bool_decide
                                           (tid ∈ effectiveLikes w s))) items
      ∧ (visible = total ↔
         ∀ tid, tid ∈ trackIds →
                ∃ t, t ∈ hydrate artistName w s ∧ has_id tid t).
Proof.
  cbv zeta. split.
  { intros Hnone. unfold get_playlist.
    assert (list_find (λ p, p_id p = id) (PLAYLISTS w) = None) as ->; [|done].
    apply list_find_None, Forall_forall. auto. }
  intros p items visible total. unfold get_playlist.
  destruct (list_find (λ p, p_id p = id) (PLAYLISTS w)) as [[n p0]|] eqn:Hf;
    [|done].
  set (found := λ tid : string,
         snd <$> list_find (has_id tid) (hydrate artistName w s)).
  assert (Hrender : ∀ l,
    Page (p0, withLikeFlag (omap found l) (effectiveLikes w s),
          length (withLikeFlag (omap found l) (effectiveLikes w s)),
          length l) = Page (p, items, visible, total) →
    default [] (p_trackIds p0) = l →
    (∃ i : nat, Some (n, p0) = Some (i, p))
    ∧ visible = length items ∧ total = length (default [] (p_trackIds p))
    ∧ (visible ≤ total)%nat
    ∧ Forall (λ t, isTrackVisibleToUser t (getCurrentUser w s) = true
                   ∧ ∃ tid, tid ∈ default [] (p_trackIds p)
                            ∧ get "id" t = JStr tid
                            ∧ get "isLiked" t
                              = JBool (bool_decide
                                         (tid ∈ effectiveLikes w s))) items
    ∧ (visible = total ↔
       ∀ tid, tid ∈ default [] (p_trackIds p) →
              ∃ t, t ∈ hydrate artistName w s ∧ has_id tid t)).
  { intros l Heq Hl.
    assert (p0 = p) as <- by congruence.
    assert (items = withLikeFlag (omap found l) (effectiveLikes w s)) as ->
      by congruence.
    assert (visible = length (withLikeFlag (omap found l) (effectiveLikes w s)))
      as -> by congruence.
    assert (total = length l) as -> by congruence.
    clear Heq. rewrite Hl, !length_withLikeFlag.
    split_and!; [by exists n|done|done|apply length_omap_le| |].
    - apply Forall_forall. intros r (t & Hin & ->)%elem_of_withLikeFlag.
      apply list_elem_of_omap in Hin as (tid & Htid & Hfound).
      unfold found in Hfound.
      destruct (list_find (has_id tid) (hydrate artistName w s))
        as [[j t']|] eqn:Hj; [|done].
      injection Hfound as ->.
      apply list_find_Some in Hj as (Hin%list_elem_of_lookup_2 & Hid & _).
      apply elem_of_hydrate in Hin as (t1 & _ & -> & Hv).
      split; [by rewrite visible_insert, visible_with_artist|].
      exists tid. split_and!; [done| |].
      + unfold get at 1. by rewrite lookup_insert_ne.
      + unfold get at 1. rewrite lookup_insert_eq.
        cbv [default from_option Datatypes.id]. f_equal. by apply is_liked_id.
    - rewrite length_omap_full, Forall_forall.
      apply forall_proper. intros tid. apply forall_proper. intros _.
      unfold found. split.
      + intros [t Ht].
        destruct (list_find (has_id tid) (hydrate artistName w s))
          as [[j t']|] eqn:Hj; [|done].
        apply list_find_Some in Hj as (Hin%list_elem_of_lookup_2 & Hid & _).
        eauto.
      + intros (t & Hin & Hid).
        destruct (list_find (has_id tid) (hydrate artistName w s))
          as [[j t']|] eqn:Hj; [by eexists|].
        apply list_find_None in Hj. rewrite Forall_forall in Hj.
        by destruct (Hj t Hin). }
  destruct (p_trackIds p0) as [l|] eqn:Hl.
  - intros Heq. by apply (Hrender l).
  - destruct (truthy (get "trackIds" (p_rest p0))); [done|].
    intros Heq. by apply (Hrender []).
Qed.

Lemma has_visible_track (w : Store) (s : Session) (tid : string) :
  JStr tid ∈ get "id" <$> hydrate artistName w s ↔
  is_Some (list_find (has_id tid) (hydrate artistName w s)).
Proof.
  rewrite list_elem_of_fmap. split.
  - intros (t & Hid & Hin).
    destruct (list_find (has_id tid) (hydrate artistName w s))
      as [[j t']|] eqn:Hj; [by eexists|].
    apply list_find_None in Hj. rewrite Forall_forall in Hj.
    by destruct (Hj t Hin).
  - intros [[j t] (Hin%list_elem_of_lookup_2 & Hid & _)%list_find_Some].
    by exists t.
Qed.

(** X24. The overview of the playlists lists every stored playlist, in
    order, with a count that never exceeds the number of ids the playlist
    lists; for a playlist that is the first with its id, the count is the
    number of items that its own page shows to the same requester, and it
    is zero when that page fails on a [trackIds] that is no array. *)
Theorem get_playlists_agrees (w : Store) (s : Session) :
  (get_playlists artistName w s).*1 = PLAYLISTS w
  ∧ Forall (λ pn,
      (pn.2 ≤ length (default [] (p_trackIds pn.1)))%nat
      ∧ ∀ i, list_find (λ p, p_id p = p_id pn.1) (PLAYLISTS w)
               = Some (i, pn.1) →
             match get_playlist artistName (p_id pn.1) w s with
             | Page (q, items, visible, total) =>
               q = pn.1 ∧ visible = pn.2 ∧ length items = pn.2
             | Throws => p_trackIds pn.1 = None ∧ pn.2 = 0%nat
             | NotFound => False
             end) (get_playlists artistName w s).
Proof.
  split.
  - unfold get_playlists. cbv zeta. rewrite <- list_fmap_compose.
    apply list_fmap_id.
  - apply Forall_forall. intros [p n]. unfold get_playlists. cbv zeta.
    intros (p0 & [= <- ->] & Hin)%list_elem_of_fmap. cbn [fst snd].
    assert (Hcount : ∀ l : list string,
      length (filter (λ id, JStr id ∈ get "id" <$> hydrate artistName w s) l)
      = length (omap (λ id, snd <$> list_find (has_id id)
                                     (hydrate artistName w s)) l)).
    { induction l as [|tid l IH]; [done|].
      rewrite filter_cons. cbn [omap list_omap].
      destruct (decide (JStr tid ∈ get "id" <$> hydrate artistName w s))
        as [Hyes|Hno].
      - apply has_visible_track in Hyes as [[j t] ->].
        cbn [fmap option_fmap option_map length]. by rewrite IH.
      - destruct (list_find (has_id tid) (hydrate artistName w s)) eqn:Hj.
        + destruct Hno. apply has_visible_track. by rewrite Hj.
        + done. }
    split.
    + destruct (p_trackIds p) as [l|]; cbn [default from_option]; [|lia].
      apply length_filter.
    + intros i Hf. unfold get_playlist. rewrite Hf.
      destruct (p_trackIds p) as [l|].
      * rewrite length_withLikeFlag. by rewrite Hcount.
      * by destruct (truthy (get "trackIds" (p_rest p))).
Qed.

End PageProperties.

(** ** Likes and the library *)

Section LibraryProperties.
Context `{JsBuiltins}.
Variable artistName : JsVal → JsVal.

(** What a like that was accepted tells about the request and leaves
    behind. *)
Lemma post_api_like_success (id : string) (w : Store) (s : Session)
    (liked : bool) (likes : list string) (guest : bool) (w' : Store)
    (s' : Session) :
  post_api_like id w s = (JsonLike liked likes guest, w', s') →
  ∃ i t0, list_find (has_id id) (TRACKS w) = Some (i, t0)
    ∧ isTrackVisibleToUser (normalizeTrack t0) (getCurrentUser w s) = true
    ∧ getCurrentUser w' s' = getCurrentUser w s
    ∧ TRACKS w' = TRACKS w
    ∧ (getEffectiveLikes w' s').1 = likes
    ∧ likes = (toggled id (getEffectiveLikes w s).1).1
    ∧ liked = (toggled id (getEffectiveLikes w s).1).2.
Proof.
  destruct (list_find (has_id id) (TRACKS w)) as [[i t0]|] eqn:Hf.
  2:{ by rewrite (post_api_like_missing _ _ _ Hf). }
  destruct (isTrackVisibleToUser (normalizeTrack t0) (getCurrentUser w s))
    eqn:Hv.
  2:{ by rewrite (post_api_like_hidden id w s i t0). }
  unfold getEffectiveLikes.
  destruct (getCurrentUser w s) as [u|] eqn:Hu.
  - rewrite (post_api_like_user id w s i t0 u) by (done || by rewrite Hu).
    cbv zeta. intros Heq. exists i, t0.
    set (r := toggled id (getUserLikes (u_id u) w)) in *.
    assert (liked = r.2) as -> by congruence.
    assert (likes = r.1) as -> by congruence.
    assert (w' = setUserLikes (u_id u) r.1 w) as -> by congruence.
    assert (s' = s) as -> by congruence.
    rewrite getCurrentUser_likes, Hu. cbn [fst snd].
    by rewrite getUserLikes_setUserLikes.
  - rewrite (post_api_like_guest id w s i t0) by (done || by rewrite Hu).
    cbv zeta. intros Heq. exists i, t0.
    set (r := toggled id (getGuestLikes s).1) in *.
    assert (liked = r.2) as -> by congruence.
    assert (likes = r.1) as -> by congruence.
    assert (w' = w) as -> by congruence.
    assert (s' = set_guestLikes r.1 (getGuestLikes s).2) as -> by congruence.
    rewrite getCurrentUser_guest, getGuestLikes_user, Hu.
    by rewrite getGuestLikes_set.
Qed.

Lemma elem_of_get_library (w : Store) (s : Session) (r : Track) :
  r ∈ get_library artistName w s ↔
  ∃ t, t ∈ hydrate artistName w s
       ∧ is_liked (effectiveLikes w s) t = true
       ∧ r = <["isLiked" := JBool true]> t.
Proof.
  unfold get_library. cbv zeta. rewrite elem_of_withLikeFlag. split.
  - intros (t & [Hl Hin]%list_elem_of_filter & ->). exists t. by rewrite Hl.
  - intros (t & Hin & Hl & ->). exists t. rewrite Hl. split; [|done].
    by apply list_elem_of_filter.
Qed.

(** X13. The library lists exactly the tracks the requester may see whose
    id is among the requester's likes, each flagged as liked, in the stored
    order: a like of a track that was hidden or deleted since does not
    show. It is the part of the search results that is flagged as
    liked. *)
Theorem get_library_spec (w : Store) (s : Session) :
  let user := getCurrentUser w s in
  let likes := effectiveLikes w s in
  (∀ r, r ∈ get_library artistName w s ↔
        ∃ t0 id, t0 ∈ TRACKS w ∧ get "id" t0 = JStr id ∧ id ∈ likes
          ∧ isTrackVisibleToUser (normalizeTrack t0) user = true
          ∧ r = <["isLiked" := JBool true]>
                  (with_artist artistName (normalizeTrack t0)))
  ∧ (get "id" <$> get_library artistName w s)
      `sublist_of` (get "id" <$> TRACKS w)
  ∧ get_library artistName w s
    = filter (λ r, get "isLiked" r = JBool true) (get_search artistName w s)
  ∧ (likes = [] → get_library artistName w s = []).
Proof.
  cbv zeta. split_and!.
  - intros r. rewrite elem_of_get_library. split.
    + intros (t & (t0 & Hin & -> & Hv)%elem_of_hydrate & Hl & ->).
      unfold is_liked in Hl. rewrite with_artist_get, normalizeTrack_id in Hl
        by done.
      destruct (get "id" t0) as [| | | |id] eqn:Hid; try done.
      apply Set_has_true in Hl. rewrite Set_from_elem in Hl.
      exists t0, id. by split_and!.
    + intros (t0 & id & Hin & Hid & Hl & Hv & ->).
      exists (with_artist artistName (normalizeTrack t0)). split_and!.
      * apply elem_of_hydrate. eauto.
      * rewrite (is_liked_id _ id).
        -- by apply bool_decide_eq_true.
        -- by rewrite with_artist_get, normalizeTrack_id.
      * done.
  - etrans; [|apply (hydrate_ids_sublist artistName w s)].
    unfold get_library, withLikeFlag. cbv zeta.
    rewrite <- list_fmap_compose.
    induction (hydrate artistName w s) as [|t l IH]; [done|].
    rewrite filter_cons. case_decide.
    + rewrite !fmap_cons. cbn [compose]. unfold get at 1.
      rewrite lookup_insert_ne by done. by apply sublist_skip.
    + rewrite fmap_cons. by apply sublist_cons.
  - unfold get_library, get_search, withLikeFlag. cbv zeta.
    induction (hydrate artistName w s) as [|t l IH]; [done|].
    rewrite fmap_cons, !filter_cons.
    assert (Hflag : get "isLiked"
                      (<["isLiked" := JBool (is_liked (effectiveLikes w s) t)]> t)
                    = JBool (is_liked (effectiveLikes w s) t)).
    { unfold get. by rewrite lookup_insert_eq. }
    destruct (is_liked (effectiveLikes w s) t) eqn:Hl.
    + rewrite decide_True by done. rewrite (decide_True _ _ Hflag).
      rewrite fmap_cons, Hl. by f_equal.
    + rewrite decide_False by done. rewrite decide_False; [done|].
      by rewrite Hflag.
  - intros Hl. unfold get_library. cbv zeta. rewrite Hl.
    induction (hydrate artistName w s) as [|t l IH]; [done|].
    rewrite filter_cons_False; [done|].
    unfold is_liked. by destruct (get "id" t).
Qed.

(** X14. A like shows in the library at once, and an unlike removes it:
    after an accepted request the library of the same session holds a
    track with the id exactly when the answer says [liked], and the likes
    of the answer are those that any later page or [GET /api/me] works
    with. *)
Theorem like_shows_in_library (id : string) (w : Store) (s : Session)
    (liked : bool) (likes : list string) (guest : bool) (w' : Store)
    (s' : Session) :
  post_api_like id w s = (JsonLike liked likes guest, w', s') →
  ((∃ r, r ∈ get_library artistName w' s' ∧ get "id" r = JStr id)
   ↔ liked = true)
  ∧ effectiveLikes w' s' = likes
  ∧ (get_api_me w' s').2 = likes
  ∧ (get_api_me w' s').1 = (get_api_me w s).1
  ∧ hydrate artistName w' s' = hydrate artistName w s.
Proof.
  intros (i & t0 & Hf & Hv & Hu & Ht & Hl & Hlikes & Hliked)%post_api_like_success.
  pose proof (toggled_spec id (getEffectiveLikes w s).1) as (Hneg & Hin & _).
  rewrite <- Hlikes in Hin. rewrite <- Hliked in Hneg.
  assert (Hh : hydrate artistName w' s' = hydrate artistName w s).
  { unfold hydrate. by rewrite Hu, Ht. }
  pose proof Hf as (Hin0%list_elem_of_lookup_2 & Hid & _)%list_find_Some.
  split_and!; [|done|done|unfold get_api_me; cbn [fst]; by rewrite Hu|done].
  split.
  - intros (r & (t & Hin' & Hl' & ->)%elem_of_get_library & Hr).
    unfold get in Hr at 1. rewrite lookup_insert_ne in Hr by done.
    fold (get "id" t) in Hr. rewrite (is_liked_id _ id) in Hl' by done.
    apply bool_decide_eq_true in Hl'. unfold effectiveLikes in Hl'.
    rewrite Hl in Hl'. apply Hin in Hl'.
    rewrite Hneg. by rewrite bool_decide_eq_false_2.
  - intros ->. symmetry in Hneg. apply negb_true_iff in Hneg.
    apply bool_decide_eq_false in Hneg. apply Hin in Hneg.
    exists (<["isLiked" := JBool true]>
              (with_artist artistName (normalizeTrack t0))).
    assert (Hid' : get "id" (with_artist artistName (normalizeTrack t0))
                   = JStr id).
    { by rewrite with_artist_get, normalizeTrack_id. }
    split.
    + apply elem_of_get_library. eexists. split_and!; [|..|done].
      * rewrite Hh. apply elem_of_hydrate. eauto.
      * rewrite (is_liked_id _ id) by done. apply bool_decide_eq_true.
        unfold effectiveLikes. by rewrite Hl.
    + unfold get at 1. by rewrite lookup_insert_ne.
Qed.

End LibraryProperties.

(** ** Uploads *)

Lemma sor_lit_nonempty (a : option string) (d : string) :
  d ≠ "" → sor_lit a d ≠ "".
Proof.
  intros Hd. destruct a as [x|]; cbn [sor_lit]; [|done].
  by destruct (String.eqb_spec x "").
Qed.

Ltac newTrack_lookup :=
  unfold newTrack, get;
  rewrite ?lookup_insert_ne by done;
  rewrite ?lookup_insert_eq; try done.

Section UploadProperties.
Context `{JsBuiltins}.

(** A track as [POST /artist/upload] writes it has nothing for
    [normalizeTrack] to fill in. *)
Lemma normalizeTrack_newTrack id title artistId genre duration cover audio now
    submittedBy :
  duration ≠ "" → cover ≠ "" → audio ≠ "" →
  normalizeTrack
    (newTrack id title artistId genre duration cover audio now submittedBy)
  = newTrack id title artistId genre duration cover audio now submittedBy.
Proof.
  intros Hd Hc Ha. apply map_eq. intros k. rewrite normalizeTrack_lookup.
  set (new := newTrack _ _ _ _ _ _ _ _ _).
  assert (needs_default new k = false) as ->; [|done].
  unfold needs_default.
  destruct (decide (k = "status")) as [->|?].
  { rewrite decide_True by auto. subst new. by newTrack_lookup. }
  destruct (decide (k = "cover")) as [->|?].
  { rewrite decide_True by auto. subst new. newTrack_lookup.
    cbv [default from_option Datatypes.id truthy]. by rewrite (proj2 (eqb_false _ _) Hc). }
  destruct (decide (k = "audio")) as [->|?].
  { rewrite decide_True by auto. subst new. newTrack_lookup.
    cbv [default from_option Datatypes.id truthy]. by rewrite (proj2 (eqb_false _ _) Ha). }
  destruct (decide (k = "duration")) as [->|?].
  { rewrite decide_True by auto. subst new. newTrack_lookup.
    cbv [default from_option Datatypes.id truthy]. by rewrite (proj2 (eqb_false _ _) Hd). }
  rewrite decide_False by naive_solver.
  destruct (decide (k = "plays")) as [->|?].
  { rewrite decide_True by auto. subst new. by newTrack_lookup. }
  destruct (decide (k = "likes")) as [->|?].
  { rewrite decide_True by auto. subst new. by newTrack_lookup. }
  by rewrite decide_False by naive_solver.
Qed.

Lemma requireRole_artist (w : Store) (s : Session) :
  requireRole "artist" w s = None ↔
  ∃ u, getCurrentUser w s = Some u ∧ u_role u = "artist".
Proof.
  unfold requireRole. destruct (getCurrentUser w s) as [u|]; [|naive_solver].
  destruct (String.eqb_spec (u_role u) "artist"); naive_solver.
Qed.

(** The upload that was accepted, spelled out. *)
Lemma post_artist_upload_accepted files b_title b_genre b_duration id now
    (w : Store) (s : Session) :
  (post_artist_upload files b_title b_genre b_duration id now w s).1
  = UploadAccepted →
  ∃ u aid audioFile coverFile cover audio,
    getCurrentUser w s = Some u ∧ u_role u = "artist"
    ∧ u_artistId u = Some aid ∧ aid ≠ ""
    ∧ files = Uploaded audioFile coverFile
    ∧ trim (sor_lit b_title "") ≠ ""
    ∧ cover ≠ "" ∧ audio ≠ ""
    ∧ post_artist_upload files b_title b_genre b_duration id now w s
      = (UploadAccepted,
         set_TRACKS
           (newTrack id (trim (sor_lit b_title "")) (JStr aid)
              (sor_lit (Some (trim (sor_lit b_genre ""))) "Unknown")
              (sor_lit (Some (trim (sor_lit b_duration ""))) "0:00")
              cover audio now (u_id u)
            :: (normalizeTrack <$> TRACKS w)) w).
Proof.
  unfold post_artist_upload.
  destruct (requireRole "artist" w s) as [r|] eqn:Hr; [done|].
  apply requireRole_artist in Hr as (u & Hu & Hrole).
  destruct files as [|audioFile coverFile]; [done|]. rewrite Hu.
  destruct (u_artistId u) as [aid|] eqn:Haid; cbn [struthy negb]; [|done].
  destruct (String.eqb_spec aid ""); cbn [negb]; [done|].
  destruct (String.eqb_spec (trim (sor_lit b_title "")) ""); [done|].
  intros _. eexists u, aid, audioFile, coverFile, _, _.
  split_and!; [done..| | |reflexivity].
  - by destruct coverFile.
  - by destruct audioFile.
Qed.

(** X15. An upload changes nothing but the tracks, and those only when it
    is accepted: the requester is then an artist with an artist id, the
    files were stored and the title is not blank. The stored tracks are
    written back normalized, behind a new track that carries the new id,
    the requester's artist id and user id, the trimmed title, and the
    status [pending], and that needs no normalization. Anybody who is not
    an artist is turned away before anything is read. *)
Theorem post_artist_upload_spec (files : Upload)
    (b_title b_genre b_duration : option string) (id now : string)
    (w : Store) (s : Session) :
  let r := post_artist_upload files b_title b_genre b_duration id now w s in
  USERS r.2 = USERS w ∧ USER_LIKES r.2 = USER_LIKES w
  ∧ PLAYLISTS r.2 = PLAYLISTS w
  ∧ (r.1 ≠ UploadAccepted → r.2 = w)
  ∧ (r.1 = UploadAccepted →
     ∃ u aid new,
       getCurrentUser w s = Some u ∧ u_role u = "artist"
       ∧ u_artistId u = Some aid ∧ aid ≠ ""
       ∧ files ≠ UploadFailed ∧ trim (sor_lit b_title "") ≠ ""
       ∧ TRACKS r.2 = new :: (normalizeTrack <$> TRACKS w)
       ∧ get "id" new = JStr id
       ∧ get "title" new = JStr (trim (sor_lit b_title ""))
       ∧ get "artistId" new = JStr aid
       ∧ get "submittedBy" new = JStr (u_id u)
       ∧ get "status" new = JStr "pending"
       ∧ get "createdAt" new = JStr now
       ∧ get "plays" new = JNum 0 ∧ get "likes" new = JNum 0
       ∧ normalizeTrack new = new)
  ∧ (getCurrentUser w s = None → r.1 = UploadDenied RedirectLogin)
  ∧ (∀ u, getCurrentUser w s = Some u → u_role u ≠ "artist" →
          r.1 = UploadDenied (Status 403)).
Proof.
  cbv zeta.
  set (r := post_artist_upload files b_title b_genre b_duration id now w s).
  assert (r.1 = UploadAccepted ∨ r.1 ≠ UploadAccepted) as [Hacc|Hrej]
    by (destruct (r.1); (by left) || (by right)).
  - destruct (post_artist_upload_accepted _ _ _ _ _ _ _ _ Hacc)
      as (u & aid & af & cf & cover & audio & Hu & Hrole & Haid & Hne & Hfiles
          & Htitle & Hcover & Haudio & Heq).
    fold r in Heq. rewrite Heq. fields. split_and!; try done.
    + intros _. exists u, aid. eexists. split_and!; try done.
      * by rewrite Hfiles.
      * apply normalizeTrack_newTrack; [|done..].
        by apply sor_lit_nonempty.
    + by rewrite Hu.
    + intros u' Hu' Hr'. rewrite Hu in Hu'. by injection Hu' as <-.
  - assert (Hw : r.2 = w ∧
               (getCurrentUser w s = None → r.1 = UploadDenied RedirectLogin)
               ∧ (∀ u, getCurrentUser w s = Some u → u_role u ≠ "artist" →
                       r.1 = UploadDenied (Status 403))).
    { subst r. revert Hrej. unfold post_artist_upload, requireRole.
      destruct (getCurrentUser w s) as [u|]; [|done].
      destruct (String.eqb_spec (u_role u) "artist") as [Hr|Hr].
      - assert (∀ u0, Some u = Some u0 → u_role u0 ≠ "artist" →
                  ∀ x : UploadReply, x = UploadDenied (Status 403)) as Hno
          by (by intros ? [= <-] ?).
        destruct files; [intros _; split_and!; [done..|intros; by eapply Hno]|].
        destruct (negb (struthy (u_artistId u)));
          [intros _; split_and!; [done..|intros; by eapply Hno]|].
        destruct (String.eqb (trim (sor_lit b_title "")) "");
          [intros _; split_and!; [done..|intros; by eapply Hno]|].
        done.
      - intros _. split_and!; [done|done|]. by intros ? [= <-]. }
    destruct Hw as (Hw & Hguest & Huser). rewrite Hw. by split_and!.
Qed.

End UploadProperties.

(** ** From upload to publication *)

Section Lifecycle.
Context `{JsBuiltins}.
Variable artistName : JsVal → JsVal.

Lemma get_track_opens (id : string) (w : Store) (s : Session) i t0 :
  list_find (has_id id) (TRACKS w) = Some (i, t0) →
  isTrackVisibleToUser (normalizeTrack t0) (getCurrentUser w s) = true →
  ∃ page, get_track artistName id w s = Page page.
Proof.
  intros Hf Hv. unfold get_track. rewrite find_normalized, Hf.
  cbn [fmap option_fmap option_map prod_map fst snd]. rewrite Hv.
  cbn [negb]. by eexists.
Qed.

Lemma get_track_hidden (id : string) (w : Store) (s : Session) i t0 :
  list_find (has_id id) (TRACKS w) = Some (i, t0) →
  isTrackVisibleToUser (normalizeTrack t0) (getCurrentUser w s) = false →
  get_track artistName id w s = NotFound.
Proof.
  intros Hf Hv. unfold get_track. rewrite find_normalized, Hf.
  cbn [fmap option_fmap option_map prod_map fst snd]. by rewrite Hv.
Qed.

Lemma post_api_like_accepts (id : string) (w : Store) (s : Session) i t0 :
  list_find (has_id id) (TRACKS w) = Some (i, t0) →
  isTrackVisibleToUser (normalizeTrack t0) (getCurrentUser w s) = true →
  ∃ liked likes guest,
    (post_api_like id w s).1.1 = JsonLike liked likes guest.
Proof.
  intros Hf Hv. destruct (getCurrentUser w s) as [u|] eqn:Hu.
  - rewrite (post_api_like_user id w s i t0 u) by (done || by rewrite Hu).
    by eexists _, _, _.
  - rewrite (post_api_like_guest id w s i t0) by (done || by rewrite Hu).
    by eexists _, _, _.
Qed.

Lemma normalizeTrack_status_kept (t : Track) :
  truthy (get "status" t) = true →
  get "status" (normalizeTrack t) = get "status" t.
Proof.
  intros Ht. unfold get at 1. rewrite normalizeTrack_lookup.
  change (needs_default t "status") with (negb (truthy (get "status" t))).
  by rewrite Ht.
Qed.

Lemma visible_status_published (t : Track) (user : option User) :
  get "status" t = JStr "published" → isTrackVisibleToUser t user = true.
Proof.
  intros Hs. unfold isTrackVisibleToUser. rewrite Hs.
  by rewrite decide_True.
Qed.

(** Who sees a track that is neither published nor without a status. *)
Lemma visible_unpublished (t : Track) (user : option User) (status : string) :
  get "status" t = JStr status → status ≠ "" → status ≠ "published" →
  isTrackVisibleToUser t user
  = match user with
    | None => false
    | Some u =>
      String.eqb (u_role u) "admin"
      || (String.eqb (u_role u) "artist" && struthy (u_artistId u)
          && bool_decide (get "artistId" t = js_of_opt (u_artistId u)))
    end.
Proof.
  intros Hs Hne Hp. unfold isTrackVisibleToUser, jor. rewrite Hs.
  cbn [truthy]. rewrite (proj2 (eqb_false _ _) Hne). cbn [negb].
  rewrite decide_False by congruence.
  destruct user as [u|]; [|done].
  destruct (String.eqb (u_role u) "admin"); [done|].
  by destruct (_ && _).
Qed.

(** X16. The way of an upload. Once accepted, the new track is the one its
    id refers to; while it waits, a guest or ordinary user gets NotFound
    for its page and 403 for a like, the uploader and the admin can open
    it, and it heads the admin's list of pending tracks. When the admin
    approves it everybody can open and like it; when the admin rejects it,
    it stays hidden from the public and visible to the uploader. *)
Theorem upload_lifecycle (files : Upload)
    (b_title b_genre b_duration : option string) (id now now' : string)
    (w : Store) (artist admin other : Session) :
  let w1 := (post_artist_upload files b_title b_genre b_duration id now w
               artist).2 in
  let w2 := (post_admin_tracks_approve id now' w1 admin).2 in
  let w3 := (post_admin_tracks_reject id now' w1 admin).2 in
  (post_artist_upload files b_title b_genre b_duration id now w artist).1
  = UploadAccepted →
  requireRole "admin" w admin = None →
  (∀ u, getCurrentUser w other = Some u →
        u_role u ≠ "admin" ∧ u_role u ≠ "artist") →
  (get_track artistName id w1 other = NotFound
   ∧ (post_api_like id w1 other).1.1 = JsonError 403
   ∧ (∃ page, get_track artistName id w1 artist = Page page)
   ∧ (∃ page, get_track artistName id w1 admin = Page page)
   ∧ (∃ pending rejected playlists first,
        get_admin artistName w1 admin = inr (pending, rejected, playlists)
        ∧ head pending = Some first ∧ get "id" first = JStr id
        ∧ get "status" first = JStr "pending"))
  ∧ ((post_admin_tracks_approve id now' w1 admin).1 = Redirect "/admin"
     ∧ ∀ anyone : Session,
         (∃ page, get_track artistName id w2 anyone = Page page)
         ∧ ∃ liked likes guest,
             (post_api_like id w2 anyone).1.1 = JsonLike liked likes guest)
  ∧ ((post_admin_tracks_reject id now' w1 admin).1 = Redirect "/admin"
     ∧ get_track artistName id w3 other = NotFound
     ∧ (post_api_like id w3 other).1.1 = JsonError 403
     ∧ ∃ page, get_track artistName id w3 artist = Page page).
Proof.
  cbv zeta. intros Hacc Hadmin Hother.
  destruct (post_artist_upload_accepted _ _ _ _ _ _ _ _ Hacc)
    as (u & aid & af & cf & cover & audio & Hu & Hrole & Haid & Hne & Hfiles
        & Htitle & Hcover & Haudio & Heq).
  rewrite Heq. cbn [snd].
  set (new := newTrack id (trim (sor_lit b_title "")) (JStr aid)
                (sor_lit (Some (trim (sor_lit b_genre ""))) "Unknown")
                (sor_lit (Some (trim (sor_lit b_duration ""))) "0:00")
                cover audio now (u_id u)).
  set (w1 := set_TRACKS (new :: (normalizeTrack <$> TRACKS w)) w).
  assert (Hnorm : normalizeTrack new = new).
  { apply normalizeTrack_newTrack; [|done..]. by apply sor_lit_nonempty. }
  assert (Hid : has_id id new) by (subst new; unfold has_id; by newTrack_lookup).
  assert (Hstatus : get "status" new = JStr "pending")
    by (subst new; by newTrack_lookup).
  assert (Hart : get "artistId" new = JStr aid)
    by (subst new; by newTrack_lookup).
  assert (Hf1 : list_find (has_id id) (TRACKS w1) = Some (0%nat, new)).
  { apply list_find_Some. split_and!; [done|done|]. intros j y _ Hj. lia. }
  assert (Husers : ∀ s, getCurrentUser w1 s = getCurrentUser w s) by done.
  assert (Hadmin1 : requireRole "admin" w1 admin = None) by done.
  pose proof Hadmin as (a & Ha & Harole)%requireRole_admin.
  assert (Hvis_other : ∀ (t : Track) status,
            get "status" t = JStr status → status ≠ "" →
            status ≠ "published" →
            isTrackVisibleToUser t (getCurrentUser w other) = false).
  { intros t status Hs ??. rewrite (visible_unpublished t _ status) by done.
    destruct (getCurrentUser w other) as [o|]; [|done].
    destruct (Hother o eq_refl) as [Hoa Hob].
    by rewrite (proj2 (eqb_false _ _) Hoa), (proj2 (eqb_false _ _) Hob). }
  assert (Hvis_artist : ∀ t : Track,
            get "artistId" t = JStr aid →
            isTrackVisibleToUser t (getCurrentUser w artist) = true).
  { intros t Ht. unfold isTrackVisibleToUser. case_decide; [done|].
    rewrite Hu, Hrole, Haid, Ht. cbn [String.eqb Ascii.eqb Bool.eqb struthy].
    rewrite (proj2 (eqb_false _ _) Hne). cbn [negb andb js_of_opt].
    by rewrite bool_decide_eq_true_2. }
  unfold post_admin_tracks_approve, post_admin_tracks_reject.
  split_and!.
  - apply (get_track_hidden id w1 other 0%nat new Hf1).
    rewrite Hnorm, Husers. by apply (Hvis_other new "pending").
  - rewrite (post_api_like_hidden id w1 other 0%nat new Hf1); [done|].
    rewrite Hnorm, Husers. by apply (Hvis_other new "pending").
  - apply (get_track_opens id w1 artist 0%nat new Hf1).
    rewrite Hnorm, Husers. by apply Hvis_artist.
  - apply (get_track_opens id w1 admin 0%nat new Hf1).
    rewrite Husers, Ha. by apply visible_admin.
  - unfold get_admin. rewrite Hadmin1.
    eexists _, _, _, (with_artist artistName new). split; [done|].
    unfold hydrate. rewrite Husers, Ha.
    change (TRACKS w1) with (new :: (normalizeTrack <$> TRACKS w)).
    rewrite fmap_cons, Hnorm.
    rewrite filter_cons_True by by apply visible_admin.
    rewrite fmap_cons, filter_cons_True.
    + split_and!; [done|..].
      * rewrite with_artist_get by done. exact Hid.
      * by rewrite with_artist_get.
    + unfold in_queue, jor. rewrite with_artist_get by done. by rewrite Hstatus.
  - by rewrite (moderate_found "published" "publishedAt" id now' w1 admin
                  0%nat new Hadmin1 Hf1).
  - intros anyone.
    rewrite (moderate_found "published" "publishedAt" id now' w1 admin
               0%nat new Hadmin1 Hf1). cbn [snd].
    destruct (moderated_target "published" "publishedAt" id now' w1 0%nat new)
      as (t' & Hf2 & Hs2 & _); [done..|].
    assert (Hv2 : isTrackVisibleToUser (normalizeTrack t')
                    (getCurrentUser
                       (moderated "published" "publishedAt" now' 0 new w1)
                       anyone) = true).
    { apply visible_status_published.
      rewrite normalizeTrack_status_kept; by rewrite Hs2. }
    split.
    + by eapply get_track_opens.
    + by eapply post_api_like_accepts.
  - by rewrite (moderate_found "rejected" "rejectedAt" id now' w1 admin
                  0%nat new Hadmin1 Hf1).
  - rewrite (moderate_found "rejected" "rejectedAt" id now' w1 admin
               0%nat new Hadmin1 Hf1). cbn [snd].
    destruct (moderated_target "rejected" "rejectedAt" id now' w1 0%nat new)
      as (t' & Hf2 & Hs2 & _); [done..|].
    eapply get_track_hidden; [done|].
    change (getCurrentUser _ other) with (getCurrentUser w other).
    apply (Hvis_other _ "rejected"); [|done..].
    rewrite normalizeTrack_status_kept; by rewrite Hs2.
  - rewrite (moderate_found "rejected" "rejectedAt" id now' w1 admin
               0%nat new Hadmin1 Hf1). cbn [snd].
    destruct (moderated_target "rejected" "rejectedAt" id now' w1 0%nat new)
      as (t' & Hf2 & Hs2 & _); [done..|].
    rewrite (post_api_like_hidden id _ other 0%nat t' Hf2); [done|].
    change (getCurrentUser _ other) with (getCurrentUser w other).
    apply (Hvis_other _ "rejected"); [|done..].
    rewrite normalizeTrack_status_kept; by rewrite Hs2.
  - rewrite (moderate_found "rejected" "rejectedAt" id now' w1 admin
               0%nat new Hadmin1 Hf1). cbn [snd].
    destruct (moderated_target "rejected" "rejectedAt" id now' w1 0%nat new)
      as (t' & Hf2 & Hs2 & _ & Hrest); [done..|].
    eapply get_track_opens; [done|].
    change (getCurrentUser _ artist) with (getCurrentUser w artist).
    apply Hvis_artist. rewrite normalizeTrack_artistId. unfold get.
    rewrite Hrest, Hnorm by done. exact Hart.
Qed.

End Lifecycle.

(** ** Admin routes *)

Lemma list_find_filter_None {A} (P Q : A → Prop) `{∀ x, Decision (P x)}
    `{∀ x, Decision (Q x)} (l : list A) :
  (∀ x, P x → Q x) →
  snd <$> list_find P (filter Q l) = snd <$> list_find P l.
Proof.
  intros HPQ. induction l as [|x l IH]; [done|].
  rewrite filter_cons. cbn [list_find]. destruct (decide (P x)) as [HP|HP].
  - rewrite decide_True by auto. cbn [list_find]. by rewrite decide_True.
  - assert (Hsnd : ∀ o : option (nat * A),
              snd <$> (prod_map S Datatypes.id <$> o) = snd <$> o)
      by (by intros [[??]|]).
    destruct (decide (Q x)).
    + cbn [list_find]. rewrite decide_False by done. by rewrite !Hsnd.
    + by rewrite Hsnd.
Qed.

Section AdminProperties.
Context `{JsBuiltins}.
Variable artistName : JsVal → JsVal.

Lemma get_playlist_found (id : string) (w w' : Store) (s : Session) :
  USERS w' = USERS w → USER_LIKES w' = USER_LIKES w → TRACKS w' = TRACKS w →
  snd <$> list_find (λ p, p_id p = id) (PLAYLISTS w')
  = snd <$> list_find (λ p, p_id p = id) (PLAYLISTS w) →
  get_playlist artistName id w' s = get_playlist artistName id w s.
Proof.
  intros Hu Hl Ht Hp. unfold get_playlist.
  assert (hydrate artistName w' s = hydrate artistName w s) as ->.
  { unfold hydrate, getCurrentUser. by rewrite Hu, Ht. }
  assert (effectiveLikes w' s = effectiveLikes w s) as ->.
  { unfold effectiveLikes, getEffectiveLikes, getCurrentUser, getUserLikes.
    by rewrite Hu, Hl. }
  destruct (list_find _ (PLAYLISTS w')) as [[i p]|],
    (list_find _ (PLAYLISTS w)) as [[j q]|]; try done.
  by injection Hp as ->.
Qed.

(** X17. Deleting a playlist: for anybody but an admin the store stays as
    it is and the answer is that of the role check. For an admin the
    playlists with the id go and the others stay, in their order; nothing
    else changes; the page of the deleted id answers NotFound afterwards,
    and the page of any other id is as before. *)
Theorem post_admin_playlists_delete_spec (id : string) (w : Store)
    (s : Session) :
  let r := post_admin_playlists_delete id w s in
  USERS r.2 = USERS w ∧ USER_LIKES r.2 = USER_LIKES w ∧ TRACKS r.2 = TRACKS w
  ∧ (∀ refusal, requireRole "admin" w s = Some refusal → r = (refusal, w))
  ∧ (requireRole "admin" w s = None →
     r.1 = Redirect "/admin"
     ∧ (∀ p, p ∈ PLAYLISTS r.2 ↔ p ∈ PLAYLISTS w ∧ p_id p ≠ id)
     ∧ PLAYLISTS r.2 `sublist_of` PLAYLISTS w
     ∧ (∀ s', get_playlist artistName id r.2 s' = NotFound)
     ∧ (∀ other s', other ≠ id →
          get_playlist artistName other r.2 s'
          = get_playlist artistName other w s')).
Proof.
  cbv zeta. unfold post_admin_playlists_delete.
  destruct (requireRole "admin" w s) as [refusal|] eqn:Hr.
  { cbn [fst snd]. split_and!; try done. by intros ? [= <-]. }
  cbn [fst snd]. fields. split_and!; try done. intros _. split_and!.
  - done.
  - intros p. rewrite list_elem_of_filter. tauto.
  - apply sublist_filter.
  - intros s'. unfold get_playlist. fields.
    assert (list_find (λ p, p_id p = id)
              (filter (λ p, p_id p ≠ id) (PLAYLISTS w)) = None) as ->; [|done].
    apply list_find_None, Forall_forall.
    by intros p [? _]%list_elem_of_filter.
  - intros other s' Hne. apply get_playlist_found; try done. fields.
    apply list_find_filter_None. by intros p ->.
Qed.

(** X18. None of the admin routes acts for anybody else: a guest is sent
    to the login page and a user of another role gets 403, by the page, by
    approve, reject and delete of a track and by the deletion of a
    playlist alike, and the store is what it was. *)
Theorem admin_routes_guarded (id now : string) (w : Store) (s : Session) :
  (∀ u, getCurrentUser w s = Some u → u_role u ≠ "admin") →
  let refusal := match getCurrentUser w s with
                 | Some _ => Status 403
                 | None => RedirectLogin
                 end in
  get_admin artistName w s = inl refusal
  ∧ post_admin_tracks_approve id now w s = (refusal, w)
  ∧ post_admin_tracks_reject id now w s = (refusal, w)
  ∧ post_admin_tracks_delete id w s = (refusal, w)
  ∧ post_admin_playlists_delete id w s = (refusal, w).
Proof.
  intros Hu. cbv zeta.
  unfold get_admin, post_admin_tracks_approve, post_admin_tracks_reject,
    moderate, post_admin_tracks_delete, post_admin_playlists_delete,
    requireRole.
  destruct (getCurrentUser w s) as [u|]; [|done].
  by rewrite (proj2 (eqb_false _ _) (Hu u eq_refl)).
Qed.

End AdminProperties.

(** ** OAuth sign-in *)

Lemma sor_lit_idemp (a : option string) (d : string) :
  d ≠ "" → sor_lit (Some (sor_lit a d)) d = sor_lit a d.
Proof.
  intros Hd. destruct a as [x|]; cbn [sor_lit].
  - destruct (String.eqb_spec x "") as [->|Hx].
    + by rewrite (proj2 (eqb_false d "") Hd).
    + by rewrite (proj2 (eqb_false x "") Hx).
  - by rewrite (proj2 (eqb_false d "") Hd).
Qed.

Section OauthProperties.
Context `{JsBuiltins}.

Lemma sanitizeNextUrl_fixed (n : string) :
  same_origin_path n → sanitizeNextUrl (Some n) = n.
Proof.
  intros Hn.
  assert (Hl : sor_lit (Some n) "/" = n).
  { destruct Hn as [[r ->]%prefix_slash _]. done. }
  pose proof (sanitizeNextUrl_cases (Some n)) as Hc. cbv zeta in Hc.
  rewrite Hl in Hc. by destruct Hc as [[_ ->]|[Hbad _]].
Qed.

Lemma sanitizeNextUrl_default (q : option string) :
  sanitizeNextUrl (Some (sor_lit q "/")) = sanitizeNextUrl q.
Proof. unfold sanitizeNextUrl. by rewrite sor_lit_idemp. Qed.

Lemma sanitizeNextUrl_idemp (q : option string) :
  sanitizeNextUrl (Some (sanitizeNextUrl q)) = sanitizeNextUrl q.
Proof. apply sanitizeNextUrl_fixed, sanitizeNextUrl_ok. Qed.

Lemma consumeOauthNext_userId (provider : string) (s : Session) :
  userId (consumeOauthNext provider s).2 = userId s.
Proof. unfold consumeOauthNext. cbn [snd]. by destruct (oauthNext s). Qed.

(** X19. An OAuth sign-in comes back to where it started: when the
    callback presents the state that the start of the flow recorded, and a
    code, and the provider yields a profile, the answer is a redirect to
    the sanitized [next] of the start, whatever the store has become in
    between; the session then belongs to the user that [upsertOauthUser]
    returned, and the recorded target is gone. *)
Theorem oauth_round_trip (provider state : string)
    (q_next q_code : option string) (providerId : JsVal)
    (email displayName avatar : option string) (now rnd : string)
    (w : Store) (s : Session) :
  state ≠ "" → struthy q_code = true →
  let s1 := get_auth provider state q_next s in
  let r := get_auth_callback provider (Some state) q_code
             (Profile providerId email displayName avatar) now rnd w s1 in
  let up := upsertOauthUser provider providerId email displayName avatar now
              rnd w in
  r.1.1 = Redirect (sanitizeNextUrl q_next)
  ∧ userId r.2 = Some (u_id up.1)
  ∧ USERS r.1.2 = USERS up.2
  ∧ recorded_next provider r.2 = None
  ∧ recorded_state provider r.2 = Some state.
Proof.
  intros Hstate Hcode. cbv zeta.
  set (s1 := get_auth provider state q_next s).
  assert (Hst : recorded_state provider s1 = Some state).
  { unfold recorded_state, s1, get_auth, setOauthNext, setOauthState. fields.
    cbn [mbind option_bind]. apply lookup_insert_eq. }
  assert (Hnx : recorded_next provider s1
                = Some (sanitizeNextUrl (Some (sor_lit q_next "/")))).
  { unfold recorded_next, s1, get_auth, setOauthNext. fields.
    cbn [mbind option_bind]. apply lookup_insert_eq. }
  assert (Hck : checkOauthState provider (Some state) s1 = true).
  { unfold checkOauthState. unfold recorded_state in Hst. rewrite Hst.
    cbn [struthy]. rewrite (proj2 (eqb_false state "") Hstate). cbn [negb andb].
    by apply bool_decide_eq_true. }
  unfold get_auth_callback. rewrite Hck, Hcode. cbn [negb].
  destruct (upsertOauthUser provider providerId email displayName avatar now
              rnd w) as [user w1].
  pose proof (mergeGuestLikesIntoUser_oauth (u_id user) w1
                (set_userId (Some (u_id user)) s1)) as [Hst2 Hnx2].
  pose proof (mergeGuestLikesIntoUser_frame (u_id user) w1
                (set_userId (Some (u_id user)) s1)) as (Hus & _ & _ & Hid).
  destruct (mergeGuestLikesIntoUser (u_id user) w1
              (set_userId (Some (u_id user)) s1)) as [w2 s2].
  cbn [fst snd] in *.
  pose proof (consumeOauthNext_deletes provider s2) as [Hdel Hkeep].
  pose proof (consumeOauthNext_userId provider s2) as Hid3.
  assert (Hn : (consumeOauthNext provider s2).1 = sanitizeNextUrl q_next).
  { unfold consumeOauthNext. cbn [fst]. rewrite Hnx2.
    unfold recorded_next in Hnx. cbn [oauthNext set_userId]. rewrite Hnx.
    rewrite sanitizeNextUrl_default, sanitizeNextUrl_default.
    apply sanitizeNextUrl_idemp. }
  destruct (consumeOauthNext provider s2) as [n s3]. cbn [fst snd] in *.
  split_and!.
  - by rewrite Hn.
  - by rewrite Hid3, Hid.
  - done.
  - done.
  - unfold recorded_state. rewrite Hkeep, Hst2. exact Hst.
Qed.

(** The properties of a record that a sign-in through a provider leaves
    alone. *)
Definition same_account (u u' : User) : Prop :=
  u_id u' = u_id u ∧ u_role u' = u_role u
  ∧ u_passwordHash u' = u_passwordHash u ∧ u_provider u' = u_provider u
  ∧ u_providerId u' = u_providerId u ∧ u_artistId u' = u_artistId u
  ∧ u_createdAt u' = u_createdAt u.

Lemma same_account_refl (u : User) : same_account u u.
Proof. by repeat split. Qed.

Lemma Forall2_same_account_insert (us : list User) (i : nat) (u u' : User) :
  us !! i = Some u → same_account u u' →
  Forall2 same_account us (<[i := u']> us).
Proof.
  intros Hi Hs. apply Forall2_same_length_lookup_2.
  { by rewrite length_insert. }
  intros j x y Hx Hy. destruct (decide (j = i)) as [->|Hne].
  - rewrite list_lookup_insert_eq in Hy by by eapply lookup_lt_Some.
    by simplify_eq.
  - rewrite list_lookup_insert_ne in Hy by done. simplify_eq.
    apply same_account_refl.
Qed.

Lemma getUserLikes_ensure_likes (id id' : string) (w : Store) :
  getUserLikes id' (ensure_likes id w) = getUserLikes id' w.
Proof.
  unfold ensure_likes, getUserLikes.
  destruct (USER_LIKES w !! id) eqn:Hl; [done|]. fields.
  destruct (decide (id' = id)) as [->|Hne].
  - by rewrite lookup_insert_eq, Hl.
  - by rewrite lookup_insert_ne.
Qed.

(** X20. A sign-in through a provider never takes a record away and never
    touches the id, role, password hash, provider, artist id or creation
    date of one: the records keep their places, and at most one is added
    at the end, a plain user without a password. The record it returns is
    in the store. Tracks, playlists and everybody's likes are as before. *)
Theorem upsertOauthUser_frame (provider : string) (providerId : JsVal)
    (email displayName avatar : option string) (now rnd : string) (w : Store) :
  let r := upsertOauthUser provider providerId email displayName avatar now
             rnd w in
  Forall2 same_account (USERS w) (take (length (USERS w)) (USERS r.2))
  ∧ (length (USERS r.2) = length (USERS w)
     ∨ (USERS r.2 = (USERS w ++ [r.1])%list ∧ u_id r.1 = "u_" ++ rnd
        ∧ u_role r.1 = "user" ∧ u_passwordHash r.1 = None
        ∧ u_artistId r.1 = None ∧ u_provider r.1 = provider))
  ∧ r.1 ∈ USERS r.2
  ∧ TRACKS r.2 = TRACKS w ∧ PLAYLISTS r.2 = PLAYLISTS w
  ∧ (∀ id, getUserLikes id r.2 = getUserLikes id w).
Proof.
  cbv zeta.
  destruct (upsert_cases provider providerId email w)
    as [(i & existing & Hf)|[Hd [(Hne & j & byEmail & Hf)|Hnew]]].
  - rewrite (upsert_direct _ _ _ displayName avatar now rnd _ _ _ Hf).
    apply list_find_Some in Hf as (Hi & _). fields.
    split_and!; try done.
    + rewrite take_ge by by rewrite length_insert.
      eapply Forall2_same_account_insert; [done|]. by repeat split.
    + left. by rewrite length_insert.
    + apply list_elem_of_lookup. exists i.
      apply list_lookup_insert_eq. by eapply lookup_lt_Some.
  - rewrite (upsert_by_email _ _ _ displayName avatar now rnd _ _ _ Hd Hne Hf).
    apply list_find_Some in Hf as (Hj & _). cbn [fst snd].
    rewrite ensure_likes_USERS. fields.
    split_and!.
    + rewrite take_ge by by rewrite length_insert.
      eapply Forall2_same_account_insert; [done|]. by repeat split.
    + left. by rewrite length_insert.
    + apply list_elem_of_lookup. exists j.
      apply list_lookup_insert_eq. by eapply lookup_lt_Some.
    + unfold ensure_likes. by destruct (USER_LIKES _ !! _).
    + unfold ensure_likes. by destruct (USER_LIKES _ !! _).
    + intros id. by rewrite getUserLikes_ensure_likes.
  - rewrite (upsert_new _ _ _ displayName avatar now rnd _ Hd Hnew).
    cbn [fst snd]. rewrite ensure_likes_USERS. fields.
    split_and!.
    + rewrite take_app_length. apply Forall2_same_length_lookup_2; [done|].
      intros k x y Hx Hy. simplify_eq. apply same_account_refl.
    + right. by split_and!.
    + apply elem_of_app. right. by apply list_elem_of_singleton.
    + unfold ensure_likes. by destruct (USER_LIKES _ !! _).
    + unfold ensure_likes. by destruct (USER_LIKES _ !! _).
    + intros id. by rewrite getUserLikes_ensure_likes.
Qed.

End OauthProperties.

(** ** The player's likes follow the server *)

Section PlayerProperties.
Context `{JsBuiltins}.

(** X21. The player's copy of the likes is in step with the server: after
    [toggleLike] has seen the answer to a like request, the copy holds
    exactly the likes that the server now has for the requester, without
    duplicates, and the id that was toggled is in it exactly when the
    answer says [liked], so that the two updates of the buttons agree. An
    answer that is an error leaves the copy, the store and the session
    alone. *)
Theorem toggleLike_in_sync (trackId : string) (w : Store) (s : Session)
    (likedSet : list string) :
  let r := post_api_like trackId w s in
  let likedSet' := toggleLike r.1.1 likedSet in
  match r.1.1 with
  | JsonLike liked likes guest =>
    (∀ id, id ∈ likedSet' ↔ id ∈ effectiveLikes r.1.2 r.2)
    ∧ Set_has trackId likedSet' = liked
    ∧ NoDup likedSet'
  | _ => likedSet' = likedSet ∧ r.1.2 = w ∧ r.2 = s
  end.
Proof.
  cbv zeta.
  destruct (list_find (has_id trackId) (TRACKS w)) as [[i t0]|] eqn:Hf.
  2:{ by rewrite (post_api_like_missing _ _ _ Hf). }
  destruct (isTrackVisibleToUser (normalizeTrack t0) (getCurrentUser w s))
    eqn:Hv.
  2:{ by rewrite (post_api_like_hidden trackId w s i t0). }
  assert (Hsync : ∀ l : list string,
    let r := toggled trackId l in
    (∀ id, id ∈ foldl (λ s id, Set_add id s) [] r.1 ↔ id ∈ r.1)
    ∧ Set_has trackId (foldl (λ s id, Set_add id s) [] r.1) = r.2
    ∧ NoDup (foldl (λ s id, Set_add id s) [] r.1)).
  { intros l. cbv zeta.
    pose proof (toggled_spec trackId l) as (Hneg & Hin & _).
    change (foldl (λ s id, Set_add id s) [] (toggled trackId l).1)
      with (Set_from (toggled trackId l).1).
    split_and!.
    - intros id. apply Set_from_elem.
    - rewrite Hneg. unfold Set_has.
      destruct (decide (trackId ∈ l)) as [Hl|Hl].
      + rewrite (bool_decide_eq_true_2 _ Hl). cbn [negb].
        apply bool_decide_eq_false. rewrite Set_from_elem. tauto.
      + rewrite (bool_decide_eq_false_2 _ Hl). cbn [negb].
        apply bool_decide_eq_true. rewrite Set_from_elem. tauto.
    - apply Set_from_NoDup. }
  unfold effectiveLikes, getEffectiveLikes.
  destruct (getCurrentUser w s) as [u|] eqn:Hu.
  - rewrite (post_api_like_user trackId w s i t0 u) by (done || by rewrite Hu).
    cbv zeta. cbn [fst snd toggleLike].
    rewrite getCurrentUser_likes, Hu. cbn [fst].
    rewrite getUserLikes_setUserLikes. apply Hsync.
  - rewrite (post_api_like_guest trackId w s i t0) by (done || by rewrite Hu).
    cbv zeta. cbn [fst snd toggleLike].
    rewrite getCurrentUser_guest, getGuestLikes_user, Hu.
    rewrite getGuestLikes_set. apply Hsync.
Qed.

End PlayerProperties.

(** ** The palette keeps its cursor on a link *)

Definition arrowDown : KeyEvent := mkKey "ArrowDown" false false.
Definition arrowUp : KeyEvent := mkKey "ArrowUp" false false.
Definition enter : KeyEvent := mkKey "Enter" false false.

Section PaletteProperties.
Context `{JsBuiltins}.
Variable anchors : list Anchor.

(** The states that a sequence of events leads to. *)
Definition palette_run (events : list PaletteEvent) : Palette :=
  foldl (palette_step anchors) (palette0 anchors) events.

Definition palette_inv (p : Palette) : Prop :=
  filtered p `sublist_of` sourceLinks anchors
  ∧ (0 ≤ activeIdx p)%Z
  ∧ (activeIdx p < Z.of_nat (length (filtered p)) ∨ activeIdx p = 0)%Z.

Lemma sourceLinks_items :
  Forall (λ item, title item ≠ "" ∧ href item ≠ "" ∧ href item ≠ "#")
    (sourceLinks anchors)
  ∧ (length (sourceLinks anchors) ≤ 120)%nat.
Proof.
  unfold sourceLinks. split.
  - apply Forall_take, Forall_forall. by intros x [? _]%list_elem_of_filter.
  - rewrite length_take. lia.
Qed.

Lemma palette_inv_step (p : Palette) (ev : PaletteEvent) :
  palette_inv p → palette_inv (palette_step anchors p ev).
Proof.
  intros (Hsub & H0 & Hlt). destruct ev as [| |value|e]; cbn [palette_step].
  - by split_and!; [|done|right].
  - by split_and!.
  - split_and!; [apply sublist_filter|done|by right].
  - unfold onKeyDown.
    destruct (_ && _); [by split_and!; [|done|right]|].
    destruct (negb (isOpen p)); [by split_and!|].
    destruct (String.eqb (key e) "Escape"); [by split_and!|].
    destruct (String.eqb (key e) "ArrowDown").
    { destruct (filtered p) as [|x l] eqn:Hl; [by rewrite <- Hl in *|].
      cbn [fst]. unfold palette_inv. cbn [filtered activeIdx].
      rewrite <- Hl in *. assert (0 < Z.of_nat (length (filtered p)))%Z
        by (rewrite Hl; cbn [length]; lia).
      pose proof (Z.rem_bound_pos (activeIdx p + 1)
                    (Z.of_nat (length (filtered p)))).
      split_and!; [done|lia|lia]. }
    destruct (String.eqb (key e) "ArrowUp").
    { destruct (filtered p) as [|x l] eqn:Hl; [by rewrite <- Hl in *|].
      cbn [fst]. unfold palette_inv. cbn [filtered activeIdx].
      rewrite <- Hl in *. assert (0 < Z.of_nat (length (filtered p)))%Z
        by (rewrite Hl; cbn [length]; lia).
      pose proof (Z.rem_bound_pos
                    (activeIdx p - 1 + Z.of_nat (length (filtered p)))
                    (Z.of_nat (length (filtered p)))).
      split_and!; [done|lia|lia]. }
    destruct (String.eqb (key e) "Enter"); [|by split_and!].
    destruct (active p) as [target|]; [|by split_and!].
    by destruct (String.eqb (href target) "").
Qed.

Lemma palette_run_inv (events : list PaletteEvent) :
  palette_inv (palette_run events).
Proof.
  unfold palette_run. induction events as [|ev events IH] using rev_ind.
  - by split_and!; [|done|right].
  - rewrite foldl_app. cbn [foldl]. by apply palette_inv_step.
Qed.

(** X22. Whatever the visitor has clicked, typed and pressed, the palette
    lists links of the page, each with a title and a target that is not
    [#], at most 120 of them; the cursor is on one of them whenever there
    is one; and Enter in the open palette goes to the target of the link
    under the cursor, and nowhere when the palette is closed or empty. *)
Theorem palette_cursor_on_link (events : list PaletteEvent) :
  let p := palette_run events in
  filtered p `sublist_of` sourceLinks anchors
  ∧ Forall (λ item, title item ≠ "" ∧ href item ≠ "" ∧ href item ≠ "#")
      (filtered p)
  ∧ (length (filtered p) ≤ 120)%nat
  ∧ (filtered p ≠ [] →
     ∃ item, active p = Some item ∧ item ∈ sourceLinks anchors)
  ∧ (filtered p = [] → active p = None)
  ∧ (onKeyDown anchors enter p).1 = p
  ∧ (onKeyDown anchors enter p).2
    = (if isOpen p then href <$> active p else None).
Proof.
  cbv zeta. pose proof (palette_run_inv events) as (Hsub & H0 & Hlt).
  pose proof sourceLinks_items as [Hall Hlen].
  set (p := palette_run events) in *.
  assert (Hitems : Forall (λ item, title item ≠ "" ∧ href item ≠ ""
                                   ∧ href item ≠ "#") (filtered p)).
  { rewrite Forall_forall in Hall. apply Forall_forall. intros x Hx.
    apply Hall. by eapply elem_of_sublist. }
  assert (Hactive : filtered p ≠ [] →
            ∃ item, active p = Some item ∧ item ∈ filtered p).
  { intros Hne. unfold active.
    assert (0 < length (filtered p))%nat
      by (destruct (filtered p); [done|cbn [length]; lia]).
    destruct (Z.ltb_spec (activeIdx p) 0); [lia|].
    destruct (lookup_lt_is_Some_2 (filtered p) (Z.to_nat (activeIdx p)))
      as [item Hitem]; [lia|].
    exists item. split; [done|]. by eapply list_elem_of_lookup_2. }
  split_and!.
  - done.
  - done.
  - apply sublist_length in Hsub. lia.
  - intros Hne. destruct (Hactive Hne) as (item & Ha & Hin).
    exists item. split; [done|]. by eapply elem_of_sublist.
  - intros Hnil. unfold active. rewrite Hnil.
    by destruct (activeIdx p <? 0)%Z.
  - unfold onKeyDown, enter. cbn [key ctrlKey metaKey orb andb].
    destruct (negb (isOpen p)); [done|].
    cbn [String.eqb Ascii.eqb Bool.eqb].
    destruct (active p) as [target|]; [|done].
    by destruct (String.eqb (href target) "").
  - unfold onKeyDown, enter. cbn [key ctrlKey metaKey orb andb].
    destruct (isOpen p); cbn [negb]; [|done].
    cbn [String.eqb Ascii.eqb Bool.eqb].
    destruct (active p) as [target|] eqn:Ha; [|done].
    assert (target ∈ filtered p) as Hin.
    { destruct (filtered p) as [|x l] eqn:Hl.
      - unfold active in Ha. rewrite Hl in Ha.
        by destruct (activeIdx p <? 0)%Z.
      - rewrite <- Hl in *. destruct Hactive as (item & Ha' & Hin).
        + by rewrite Hl.
        + by simplify_eq. }
    rewrite Forall_forall in Hitems. destruct (Hitems _ Hin) as (_ & Hh & _).
    by rewrite (proj2 (eqb_false _ _) Hh).
Qed.

(** X23. The arrows undo each other, and going down as many times as
    there are links comes back to the start: after any sequence of events,
    ArrowUp after ArrowDown, and ArrowDown after ArrowUp, leave the palette
    as it was. *)
Theorem palette_arrows_inverse (events : list PaletteEvent) :
  let p := palette_run events in
  let down q := (onKeyDown anchors arrowDown q).1 in
  let up q := (onKeyDown anchors arrowUp q).1 in
  up (down p) = p ∧ down (up p) = p
  ∧ Nat.iter (length (filtered p)) down p = p.
Proof.
  cbv zeta. pose proof (palette_run_inv events) as (_ & H0 & Hlt).
  set (p := palette_run events) in *.
  assert (Hdown : ∀ q, (onKeyDown anchors arrowDown q).1
    = if isOpen q then
        match filtered q with
        | [] => q
        | _ => mkPalette (isOpen q)
                 (Z.rem (activeIdx q + 1) (Z.of_nat (length (filtered q))))
                 (filtered q)
        end
      else q).
  { intros q. unfold onKeyDown, arrowDown. cbn [key ctrlKey metaKey orb andb].
    destruct (isOpen q); cbn [negb]; [|done].
    cbn [String.eqb Ascii.eqb Bool.eqb]. by destruct (filtered q). }
  assert (Hup : ∀ q, (onKeyDown anchors arrowUp q).1
    = if isOpen q then
        match filtered q with
        | [] => q
        | _ => mkPalette (isOpen q)
                 (Z.rem (activeIdx q - 1 + Z.of_nat (length (filtered q)))
                    (Z.of_nat (length (filtered q))))
                 (filtered q)
        end
      else q).
  { intros q. unfold onKeyDown, arrowUp. cbn [key ctrlKey metaKey orb andb].
    destruct (isOpen q); cbn [negb]; [|done].
    cbn [String.eqb Ascii.eqb Bool.eqb]. by destruct (filtered q). }
  destruct p as [o a l]. cbn [isOpen activeIdx filtered] in *.
  destruct o.
  2:{ split_and!.
      - by rewrite Hdown, Hup.
      - by rewrite Hup, Hdown.
      - clear Hlt. induction (length l) as [|n IH]; [done|].
        by rewrite Nat.iter_succ, IH, Hdown. }
  destruct l as [|x l].
  { split_and!; [by rewrite Hdown, Hup|by rewrite Hup, Hdown|done]. }
  set (n := Z.of_nat (length (x :: l))).
  assert (0 < n)%Z by (subst n; cbn [length]; lia).
  assert (a < n)%Z by lia.
  split_and!.
  - rewrite Hdown. cbn [isOpen filtered activeIdx]. rewrite Hup.
    cbn [isOpen filtered activeIdx]. fold n. f_equal.
    rewrite !Z.rem_mod_nonneg; try lia.
    + destruct (decide (a + 1 = n)%Z) as [Heq|Hne].
      * rewrite Heq, Z_mod_same_full.
        replace (0 - 1 + n)%Z with a by lia. apply Z.mod_small. lia.
      * rewrite (Z.mod_small (a + 1)) by lia.
        replace (a + 1 - 1 + n)%Z with (a + 1 * n)%Z by lia.
        rewrite Z_mod_plus_full. apply Z.mod_small. lia.
    + pose proof (Z.rem_bound_pos (a + 1) n). lia.
  - rewrite Hup. cbn [isOpen filtered activeIdx]. rewrite Hdown.
    cbn [isOpen filtered activeIdx]. fold n. f_equal.
    rewrite !Z.rem_mod_nonneg; try lia.
    + destruct (decide (a = 0)%Z) as [->|Hne].
      * replace (0 - 1 + n)%Z with (n - 1)%Z by lia.
        rewrite (Z.mod_small (n - 1)) by lia.
        replace (n - 1 + 1)%Z with n by lia. apply Z_mod_same_full.
      * replace (a - 1 + n)%Z with (a - 1 + 1 * n)%Z by lia.
        rewrite Z_mod_plus_full, (Z.mod_small (a - 1)) by lia.
        replace (a - 1 + 1)%Z with a by lia. apply Z.mod_small. lia.
    + pose proof (Z.rem_bound_pos (a - 1 + n) n). lia.
  - assert (Hiter : ∀ k : nat,
      Nat.iter k (λ q, (onKeyDown anchors arrowDown q).1)
        (mkPalette true a (x :: l))
      = mkPalette true ((a + Z.of_nat k) mod n) (x :: l)).
    { induction k as [|k IH].
      - cbn [Nat.iter nat_rect]. f_equal. rewrite Z.add_0_r. symmetry.
        apply Z.mod_small. lia.
      - rewrite Nat.iter_succ, IH, Hdown. cbn [isOpen filtered activeIdx].
        fold n. f_equal.
        pose proof (Z.mod_pos_bound (a + Z.of_nat k) n).
        rewrite Z.rem_mod_nonneg by lia.
        rewrite Zplus_mod_idemp_l. f_equal. lia. }
    rewrite Hiter. f_equal. fold n.
    replace (a + n)%Z with (a + 1 * n)%Z by lia.
    rewrite Z_mod_plus_full. apply Z.mod_small. lia.
Qed.

End PaletteProperties.

(** ** Stored tracks stay normalized *)

Section Normalized.
Context `{JsBuiltins}.

Lemma track_default_ok (t : Track) (k : string) :
  (k = "status" ∨ k = "cover" ∨ k = "audio" ∨ k = "duration" →
   truthy (track_default t k) = true)
  ∧ (k = "plays" ∨ k = "likes" → isFiniteNumber (track_default t k) = true).
Proof.
  unfold track_default. split.
  - intros [-> | [-> | [-> | ->]]]; [|done..].
    rewrite decide_True by done. by case_decide.
  - by intros [-> | ->].
Qed.

(** No property of a track that [normalizeTrack] returned needs a
    default. *)
Lemma needs_default_normalized (t : Track) (k : string) :
  needs_default (normalizeTrack t) k = false.
Proof.
  assert (Hget : get k (normalizeTrack t)
                 = if needs_default t k then track_default t k else get k t).
  { unfold get. rewrite normalizeTrack_lookup. by destruct (needs_default t k). }
  pose proof (track_default_ok t k) as [Htruthy Hfinite].
  unfold needs_default at 1. rewrite Hget. unfold needs_default.
  destruct (decide (k = "status" ∨ k = "cover" ∨ k = "audio" ∨ k = "duration"))
    as [Hk|Hk].
  - destruct (truthy (get k t)) eqn:Ht; cbn [negb]; [by rewrite Ht|].
    by rewrite Htruthy.
  - destruct (decide (k = "plays" ∨ k = "likes")) as [Hk'|Hk']; [|done].
    destruct (isFiniteNumber (get k t)) eqn:Ht; cbn [negb]; [by rewrite Ht|].
    by rewrite Hfinite.
Qed.

Lemma normalizeTrack_fixed (t : Track) :
  (∀ k, needs_default t k = false) → normalizeTrack t = t.
Proof.
  intros Hk. apply map_eq. intros k. by rewrite normalizeTrack_lookup, Hk.
Qed.

Lemma normalizeTrack_idemp (t : Track) :
  normalizeTrack (normalizeTrack t) = normalizeTrack t.
Proof. apply normalizeTrack_fixed, needs_default_normalized. Qed.

(** Relabelling and stamping a normalized track leaves it normalized. *)
Lemma normalizeTrack_moderated (status stamp now : string) (t : Track) :
  status ≠ "" →
  stamp ∉ ["status"; "cover"; "audio"; "duration"; "plays"; "likes"] →
  normalizeTrack
    (<[stamp := JStr now]> (<["status" := JStr status]> (normalizeTrack t)))
  = <[stamp := JStr now]> (<["status" := JStr status]> (normalizeTrack t)).
Proof.
  intros Hs Hstamp. apply normalizeTrack_fixed. intros k.
  destruct (decide (k = stamp)) as [->|Hk].
  { destruct (needs_default _ stamp) eqn:Hn; [|done].
    by apply needs_default_only in Hn. }
  destruct (decide (k = "status")) as [->|Hk'].
  { unfold needs_default, get. rewrite decide_True by auto.
    rewrite lookup_insert_ne by done. rewrite lookup_insert_eq.
    cbv [default from_option Datatypes.id truthy].
    by rewrite (proj2 (eqb_false _ _) Hs). }
  pose proof (needs_default_normalized t k) as Hn.
  unfold needs_default, get in *. by rewrite !lookup_insert_ne.
Qed.

(** X25. What the routes write to [tracks.json] is normalized:
    [normalizeTrack] changes nothing when it is applied a second time, and
    after an approval, a rejection, a deletion or an upload that went
    through, it changes none of the stored tracks, so that the next route
    reads them as they are. *)
Theorem stored_tracks_normalized (t : Track) (id now : string) (files : Upload)
    (b_title b_genre b_duration : option string) (w : Store) (s : Session) :
  let normal (w' : Store) :=
    Forall (λ t, normalizeTrack t = t) (TRACKS w') in
  normalizeTrack (normalizeTrack t) = normalizeTrack t
  ∧ ((post_admin_tracks_approve id now w s).1 = Redirect "/admin" →
     normal (post_admin_tracks_approve id now w s).2)
  ∧ ((post_admin_tracks_reject id now w s).1 = Redirect "/admin" →
     normal (post_admin_tracks_reject id now w s).2)
  ∧ ((post_admin_tracks_delete id w s).1 = Redirect "/admin" →
     normal (post_admin_tracks_delete id w s).2)
  ∧ ((post_artist_upload files b_title b_genre b_duration id now w s).1
     = UploadAccepted →
     normal (post_artist_upload files b_title b_genre b_duration id now w s).2).
Proof.
  cbv zeta.
  assert (Hall : Forall (λ t, normalizeTrack t = t) (normalizeTrack <$> TRACKS w)).
  { apply Forall_fmap, Forall_forall. intros t0 _. apply normalizeTrack_idemp. }
  assert (Hmod : ∀ status stamp,
    status ≠ "" →
    stamp ∉ ["status"; "cover"; "audio"; "duration"; "plays"; "likes"] →
    (moderate status stamp id now w s).1 = Redirect "/admin" →
    Forall (λ t, normalizeTrack t = t)
      (TRACKS (moderate status stamp id now w s).2)).
  { intros status stamp Hs Hstamp. unfold moderate.
    destruct (requireRole "admin" w s) as [r|] eqn:Hr.
    { revert Hr. unfold requireRole.
      destruct (getCurrentUser w s) as [u|]; [|by intros [= <-]].
      by destruct (String.eqb (u_role u) "admin"); intros [= <-]. }
    rewrite find_normalized.
    destruct (list_find (has_id id) (TRACKS w)) as [[i t0]|]; [|done].
    intros _. cbn [fmap option_fmap option_map prod_map fst snd]. fields.
    apply Forall_insert; [done|]. by apply normalizeTrack_moderated. }
  split_and!.
  - apply normalizeTrack_idemp.
  - apply Hmod; [done|]. set_solver.
  - apply Hmod; [done|]. set_solver.
  - unfold post_admin_tracks_delete.
    destruct (requireRole "admin" w s) as [r|] eqn:Hr.
    { revert Hr. unfold requireRole.
      destruct (getCurrentUser w s) as [u|]; [|by intros [= <-]].
      by destruct (String.eqb (u_role u) "admin"); intros [= <-]. }
    intros _. cbn [snd]. fields.
    apply Forall_forall. intros t0 [_ Hin]%list_elem_of_filter.
    rewrite Forall_forall in Hall. by apply Hall.
  - intros Hacc.
    destruct (post_artist_upload_accepted _ _ _ _ _ _ _ _ Hacc)
      as (u & aid & af & cf & cover & audio & _ & _ & _ & _ & _ & _ & Hcover
          & Haudio & ->).
    cbn [snd]. fields. apply Forall_cons. split; [|done].
    apply normalizeTrack_newTrack; [|done..]. by apply sor_lit_nonempty.
Qed.

(** X26. Who may moderate a track may see it: a track is visible to a
    requester exactly when it counts as published or the requester may
    moderate it. *)
Theorem visible_iff_published_or_moderator (track : Track)
    (user : option User) :
  isTrackVisibleToUser track user
  = bool_decide (jor (get "status" track) (JStr "published") = JStr "published")
    || canModerateTrack user track.
Proof.
  unfold isTrackVisibleToUser, canModerateTrack.
  destruct (decide (jor (get "status" track) (JStr "published")
                    = JStr "published")) as [Hp|Hp].
  - by rewrite bool_decide_eq_true_2.
  - by rewrite bool_decide_eq_false_2.
Qed.

End Normalized.

(** ** Likes across a sign-in *)

Section SignIn.
Context `{JsBuiltins} `{Crypto}.

(** The likes a session works with once [id] signed in and the guest likes
    were merged. *)
Lemma effectiveLikes_merged (id : string) (w : Store) (s : Session) :
  id ≠ "" → (∃ u, u ∈ USERS w ∧ u_id u = id) →
  let r := mergeGuestLikesIntoUser id w (set_userId (Some id) s) in
  (∀ x, x ∈ effectiveLikes r.1 r.2 ↔
        x ∈ getUserLikes id w ∨ x ∈ default [] (guestLikes s))
  ∧ guestLikes r.2 = Some [].
Proof.
  intros Hid (u & Hu & Huid). cbv zeta.
  assert (Hcur : ∀ w' s', USERS w' = USERS w → userId s' = Some id →
            ∃ u', getCurrentUser w' s' = Some u' ∧ u_id u' = id).
  { intros w' s' Hus Hs. unfold getCurrentUser, findUserById.
    rewrite Hs, Hus, (proj2 (eqb_false _ _) Hid).
    destruct (list_find (λ u, u_id u = id) (USERS w)) as [[i u']|] eqn:Hf.
    - apply list_find_Some in Hf as (_ & Hf & _). by exists u'.
    - apply list_find_None in Hf. rewrite Forall_forall in Hf.
      by destruct (Hf u Hu). }
  unfold effectiveLikes, getEffectiveLikes, mergeGuestLikesIntoUser,
    getGuestLikes. cbn [guestLikes set_userId].
  destruct (guestLikes s) as [[|g gs]|] eqn:Hg; cbn [fst snd default from_option].
  - destruct (Hcur w (set_userId (Some id) s) eq_refl eq_refl)
      as (u' & -> & ->). cbn [fst guestLikes set_userId].
    split; [|done]. intros x. rewrite elem_of_nil. tauto.
  - destruct (Hcur (setUserLikes id
                      (foldl (λ c t, Set_add t c) (Set_from (getUserLikes id w))
                         (g :: gs)) w)
                (set_guestLikes [] (set_userId (Some id) s)) eq_refl eq_refl)
      as (u' & -> & ->). cbn [fst guestLikes set_guestLikes].
    split; [|done]. intros x.
    rewrite getUserLikes_setUserLikes, Set_add_all_elem, Set_from_elem. tauto.
  - destruct (Hcur w (set_guestLikes [] (set_userId (Some id) s)) eq_refl
                eq_refl) as (u' & -> & ->).
    cbn [fst guestLikes set_guestLikes].
    split; [|done]. intros x. rewrite elem_of_nil. tauto.
Qed.

(** X27. Signing in keeps the likes collected as a guest: after a
    registration that went through, the likes of the session are those
    the guest had, with any that were already stored under the new id, and
    the guest list is empty; after a login that went through, they are the
    guest's likes together with the account's. *)
Theorem sign_in_keeps_guest_likes (b_next b_email b_displayName b_password
    b_password2 : option string) (hash now rnd : string) (w : Store)
    (s : Session) :
  (let r := post_register b_next b_email b_displayName b_password b_password2
              hash now rnd w s in
   is_redirect r.1.1 = true →
   (∀ x, x ∈ effectiveLikes r.1.2 r.2 ↔
         x ∈ default [] (guestLikes s) ∨ x ∈ getUserLikes ("u_" ++ rnd) w)
   ∧ guestLikes r.2 = Some [] ∧ userId r.2 = Some ("u_" ++ rnd))
  ∧ (let r := post_login b_next b_email b_password w s in
     ∀ next, r.1.1 = LoggedIn next →
     ∃ u, u ∈ USERS w ∧ userId r.2 = Some (u_id u) ∧ guestLikes r.2 = Some []
       ∧ (u_id u ≠ "" →
          ∀ x, x ∈ effectiveLikes r.1.2 r.2 ↔
               x ∈ default [] (guestLikes s) ∨ x ∈ getUserLikes (u_id u) w)).
Proof.
  split; cbv zeta.
  - intros Hreg.
    pose proof (post_register_success_guard _ _ _ _ _ _ _ _ _ _ Hreg) as Hguard.
    revert Hreg. unfold post_register. cbv zeta.
    destruct (_ || _); [done|]. destruct (_ || _); [done|].
    destruct (negb _); [done|]. rewrite Hguard. intros _.
    set (user := new_local_user _ _ _ _ _).
    set (w0 := ensure_likes (u_id user) (set_USERS (USERS w ++ [user])%list w)).
    pose proof (effectiveLikes_merged (u_id user) w0 s) as Hm.
    pose proof (mergeGuestLikesIntoUser_frame (u_id user) w0
                  (set_userId (Some (u_id user)) s)) as (_ & _ & _ & Hid).
    cbv zeta in Hm.
    destruct (mergeGuestLikesIntoUser (u_id user) w0
                (set_userId (Some (u_id user)) s)) as [w2 s2].
    cbn [fst snd] in *. destruct Hm as [Hlikes Hguest].
    + done.
    + exists user. split; [|done]. unfold w0. rewrite ensure_likes_USERS.
      fields. apply elem_of_app. right. by apply list_elem_of_singleton.
    + split_and!; [|done|done]. intros x. rewrite Hlikes.
      unfold w0. rewrite getUserLikes_ensure_likes.
      change (getUserLikes (u_id user) (set_USERS _ w))
        with (getUserLikes ("u_" ++ rnd) w). tauto.
  - intros next. unfold post_login. cbv zeta.
    destruct (findUserByEmail _ (USERS w)) as [[i u]|] eqn:Hf; [|done].
    destruct (verifyPassword _ _); [|done].
    apply list_find_Some in Hf as (Hin%list_elem_of_lookup_2 & _ & _).
    pose proof (effectiveLikes_merged (u_id u) w s) as Hm.
    pose proof (mergeGuestLikesIntoUser_frame (u_id u) w
                  (set_userId (Some (u_id u)) s)) as (_ & _ & _ & Hid).
    assert (Hguest : guestLikes (mergeGuestLikesIntoUser (u_id u) w
                                   (set_userId (Some (u_id u)) s)).2 = Some []).
    { unfold mergeGuestLikesIntoUser, getGuestLikes.
      cbn [guestLikes set_userId].
      by destruct (guestLikes s) as [[|??]|] eqn:Hg. }
    cbv zeta in Hm.
    destruct (mergeGuestLikesIntoUser (u_id u) w
                (set_userId (Some (u_id u)) s)) as [w2 s2].
    cbn [fst snd] in *. intros _. exists u. split_and!; [done..|].
    intros Hne x. destruct Hm as [Hlikes _]; [done|by exists u|].
    rewrite Hlikes. tauto.
Qed.

End SignIn.

(** ** Runs of the routes above

    On the reference runtime, with a stand-in for the key derivation that
    has nothing of scrypt but the length of its result. *)

Definition padded_key (password salt : string) (keylen : nat)
  : list Byte.byte :=
  take keylen (String.list_byte_of_string (password ++ salt)
               ++ replicate keylen Byte.x00)%list.

Lemma padded_key_length password salt keylen :
  length (padded_key password salt keylen) = keylen.
Proof.
  unfold padded_key.
  rewrite length_take, length_app, length_replicate. lia.
Qed.

#[global] Instance padded_crypto : Crypto := {|
  scryptSync := padded_key;
  scryptSync_length := padded_key_length;
|}.

Definition unknown_artist : JsVal → JsVal := λ _, JStr "Unknown".

(** A password verifies against its own hash. *)
Lemma verifyPassword_hashPassword_witness :
  verifyPassword "secret1" (Some (hashPassword "secret1" "5a17")) = true.
Proof.
  apply (verifyPassword_hashPassword "secret1" "5a17").
  vm_compute. reflexivity.
Defined.

(** Ann registers and logs in from another browser, her address in
    capitals. *)
Lemma register_then_login_witness :
  ∃ w2 s2,
    post_login (Some "/library") (Some " A@X.io ") (Some "secret1")
      (post_register None (Some "a@x.io") (Some "Ann") (Some "secret1")
         (Some "secret1") (hashPassword "secret1" "5a17") "t1" "01"
         run_store0 run_session0).1.2 run_session0
    = (LoggedIn (sanitizeNextUrl (Some (sor_lit (Some "/library") "/"))),
       w2, s2)
    ∧ userId s2 = Some ("u_" ++ "01").
Proof.
  apply (register_then_login None (Some "a@x.io") (Some "Ann")
           (Some "secret1") (Some "secret1") "5a17" "t1" "01" run_store0
           run_session0 (Some "/library") (Some " A@X.io ") (Some "secret1")
           run_session0).
  - vm_compute. reflexivity.
  - vm_compute. reflexivity.
  - vm_compute. reflexivity.
  - vm_compute. reflexivity.
Defined.

(** A guest likes [t1] and finds it in the library. *)
Lemma like_shows_in_library_witness :
  ((∃ r, r ∈ get_library unknown_artist t1_store
             (set_guestLikes ["t1"] run_session0)
         ∧ get "id" r = JStr "t1") ↔ true = true)
  ∧ effectiveLikes t1_store (set_guestLikes ["t1"] run_session0) = ["t1"]
  ∧ (get_api_me t1_store (set_guestLikes ["t1"] run_session0)).2 = ["t1"]
  ∧ (get_api_me t1_store (set_guestLikes ["t1"] run_session0)).1
    = (get_api_me t1_store run_session0).1
  ∧ hydrate unknown_artist t1_store (set_guestLikes ["t1"] run_session0)
    = hydrate unknown_artist t1_store run_session0.
Proof.
  apply (like_shows_in_library unknown_artist "t1" t1_store run_session0
           true ["t1"] true t1_store (set_guestLikes ["t1"] run_session0)).
  vm_compute. reflexivity.
Defined.

(** The demo artist uploads a track; the demo admin moderates it. *)
Definition demo_artist : User :=
  mkUser "u_artist" "local" None (Some "artist@soundhub.local")
    (Some "Artist") None "artist" (Some "a1") (Some "salt:hash") None None.

Definition artist_session : Session :=
  mkSession (Some "u_artist") None None None.

Definition studio_store : Store :=
  mkStore [demo_admin; demo_artist] ∅ [t1_track] [].

Definition studio_upload : UploadReply * Store :=
  post_artist_upload (Uploaded (Some "k1-ab.mp3") None) (Some " Dawn ") None
    (Some "3:05") "t_9" "now1" studio_store artist_session.

Lemma upload_lifecycle_witness :
  get_track unknown_artist "t_9" studio_upload.2 run_session0 = NotFound
  ∧ (∀ anyone : Session,
       ∃ page,
         get_track unknown_artist "t_9"
           (post_admin_tracks_approve "t_9" "now2" studio_upload.2
              admin_session).2 anyone = Page page).
Proof.
  pose proof (upload_lifecycle unknown_artist
                (Uploaded (Some "k1-ab.mp3") None) (Some " Dawn ") None
                (Some "3:05") "t_9" "now1" "now2" studio_store artist_session
                admin_session run_session0) as Hrun.
  cbv zeta in Hrun.
  destruct Hrun as ((Hhidden & _) & (_ & Hopen) & _).
  - vm_compute. reflexivity.
  - vm_compute. reflexivity.
  - intros u Hu. vm_compute in Hu. discriminate.
  - split; [exact Hhidden|]. intros anyone. apply (Hopen anyone).
Defined.

(** The artist is no admin. *)
Lemma admin_routes_guarded_witness :
  get_admin unknown_artist studio_store artist_session = inl (Status 403)
  ∧ post_admin_tracks_approve "t1" "now1" studio_store artist_session
    = (Status 403, studio_store)
  ∧ post_admin_tracks_reject "t1" "now1" studio_store artist_session
    = (Status 403, studio_store)
  ∧ post_admin_tracks_delete "t1" studio_store artist_session
    = (Status 403, studio_store)
  ∧ post_admin_playlists_delete "t1" studio_store artist_session
    = (Status 403, studio_store).
Proof.
  apply (admin_routes_guarded unknown_artist "t1" "now1" studio_store
           artist_session).
  intros u Hu. vm_compute in Hu. injection Hu as <-. vm_compute. discriminate.
Defined.

(** Ann starts a Google sign-in from her library and comes back to it. *)
Lemma oauth_round_trip_witness :
  (get_auth_callback "google" (Some "st") (Some "code1")
     (Profile (JStr "g1") (Some "a@x.io") (Some "Ann") None) "t2" "02"
     run_store1 (get_auth "google" "st" (Some "/library") run_session0)).1.1
  = Redirect (sanitizeNextUrl (Some "/library")).
Proof.
  apply (oauth_round_trip "google" "st" (Some "/library") (Some "code1")
           (JStr "g1") (Some "a@x.io") (Some "Ann") None "t2" "02" run_store1
           run_session0).
  - vm_compute. discriminate.
  - vm_compute. reflexivity.
Defined.
